(** * reflecs: a shallow embedding of the C++ wrapper, the each-invoker,
      the observer module and the snapshot stream reader.

    The development follows the sources file by file:
    - [Cpp]      the C++11 wrapper classes ([column], [rows], [type],
                 [component_base], [component], [system]);
    - [Invoker]  [flecs/cpp/invoker.hpp] ([each_column], [each_ref_column],
                 [each_invoker]);
    - [Observer] [src/observer.c];
    - [Stream]   the snapshot stream reader ([ecs_stream_open],
                 [ecs_stream_read] and the two segment readers).

    Integers of the C sources are modelled in [Z]; where the code relies on
    the width of [size_t] the wrap-around is written out.  Pointers are
    addresses in [Z], [NULL] is address [0]. *)

From Stdlib Require Import ZArith List String Ascii Bool Lia.
Import ListNotations.
Open Scope Z_scope.

(** ** Assertions and error codes *)

(** The error codes that the modelled [ecs_assert]s carry. *)
Inductive ecs_error : Set :=
| ECS_INVALID_PARAMETER
| ECS_INVALID_OPERATION
| ECS_INTERNAL_ERROR
| ECS_COLUMN_INDEX_OUT_OF_RANGE
| ECS_COLUMN_TYPE_MISMATCH
| ECS_COLUMN_ACCESS_VIOLATION
| ECS_COLUMN_IS_SHARED
| ECS_COLUMN_IS_NOT_SHARED.

(** An operation returns, stops at the first failing assertion (or
    [ecs_abort]), or leaves defined behaviour (an access outside an array,
    a null pointer dereferenced). *)
Inductive result (A : Type) : Type :=
| Ok (a : A)
| Abort (e : ecs_error)
| Undefined.
Arguments Ok {A} a.
Arguments Abort {A} e.
Arguments Undefined {A}.

Definition bind {A B : Type} (m : result A) (k : A -> result B) : result B :=
  match m with
  | Ok a => k a
  | Abort e => Abort e
  | Undefined => Undefined
  end.

Notation "x <- m ;; k" := (bind m (fun x => k))
  (at level 61, m at next level, right associativity).
Notation "m ;;; k" := (bind m (fun _ => k))
  (at level 61, right associativity).

(** [ecs_assert(cond, code, NULL)] in a checked build. *)
Definition ecs_assert (cond : bool) (code : ecs_error) : result unit :=
  if cond then Ok tt else Abort code.

Definition entity_t := Z.
Definition pointer := Z.
Definition NULL : pointer := 0.

(** An [ecs_type_t] is the vector of ids it holds; the null type is the
    empty vector. *)
Definition type_t := list entity_t.

(** * The C++ wrapper *)
Module Cpp.

(** ** C++ types as template arguments *)

(** The types that instantiate the templates: a named class type, and the
    [const], lvalue-reference and pointer type constructors. *)
Inductive cpp_type : Set :=
| TBase (n : nat)
| TConst (t : cpp_type)
| TRef (t : cpp_type)
| TPtr (t : cpp_type).

Definition cpp_type_eq_dec (a b : cpp_type) : {a = b} + {a <> b}.
Proof. decide equality. apply Nat.eq_dec. Defined.

(** [std::is_const<T>::value]: only a top-level [const] counts, so a
    reference to a const type is not const. *)
Definition is_const (t : cpp_type) : bool :=
  match t with TConst _ => true | _ => false end.

(** [std::is_reference<T>::value]. *)
Definition is_reference (t : cpp_type) : bool :=
  match t with TRef _ => true | _ => false end.

(** [const T] as the compiler forms it: [const] on a reference or on an
    already const type changes nothing. *)
Definition add_const (t : cpp_type) : cpp_type :=
  match t with
  | TConst _ | TRef _ => t
  | _ => TConst t
  end.

(** [T&] as the compiler forms it (reference collapsing). *)
Definition add_lvalue_reference (t : cpp_type) : cpp_type :=
  match t with
  | TRef _ => t
  | _ => TRef t
  end.

(** ** [component_base<T>]: the static registration of a type *)

Record component_base : Type := {
  s_entity : entity_t;
  s_type : type_t;
  s_name : option string
}.

(** The statics of every instantiation start out as [0], [nullptr],
    [nullptr]. *)
Definition component_base_zero : component_base :=
  {| s_entity := 0; s_type := []; s_name := None |}.

(** All instantiations of [component_base] at once. *)
Definition statics := cpp_type -> component_base.

Definition statics_zero : statics := fun _ => component_base_zero.

Definition set_static (reg : statics) (t : cpp_type) (v : component_base)
  : statics :=
  fun u => if cpp_type_eq_dec u t then v else reg u.

(** [component_base<T>::init_existing]. *)
Definition init_existing (reg : statics) (t : cpp_type)
    (entity : entity_t) (type : type_t) (name : option string) : statics :=
  set_static reg t {| s_entity := entity; s_type := type; s_name := name |}.

Section Wrapper.

(** What the C API answers; none of these functions is part of the wrapper. *)
Variable world_t : Type.
Variable sizeof : cpp_type -> Z.
Variable ecs_new_component : world_t -> string -> Z -> world_t * entity_t.
Variable ecs_type_from_entity : world_t -> entity_t -> type_t.
Variable ecs_type_add : world_t -> type_t -> entity_t -> type_t.

(** [component_base<T>::init]. *)
Definition init (reg : statics) (t : cpp_type) (world : world_t)
    (name : string) : world_t * statics :=
  let '(world', e) := ecs_new_component world name (sizeof t) in
  (world',
   set_static reg t {| s_entity := e;
                       s_type := ecs_type_from_entity world' e;
                       s_name := Some name |}).

(** The constructor of [component<T>]. *)
Definition component (reg : statics) (t : cpp_type) (world : world_t)
    (name : string) : world_t * statics :=
  let '(world', reg1) := init reg t world name in
  let reg2 := init_existing reg1 (add_const t)
                (s_entity (reg1 t)) (s_type (reg1 t)) (s_name (reg1 t)) in
  let reg3 := init_existing reg2 (add_lvalue_reference t)
                (s_entity (reg2 t)) (s_type (reg2 t)) (s_name (reg2 t)) in
  (world', reg3).

(** ** [column<T>] *)

Record column : Type := {
  elem_type : cpp_type;
  m_array : pointer;
  m_count : Z
}.

(** The location of [array[index]] for an array of [t]. *)
Definition elem_at (t : cpp_type) (array : pointer) (index : Z) : pointer :=
  array + index * sizeof t.

(** An argument as the [size_t] parameter receives it, 64 bits wide: a
    negative value of a signed type is converted modulo [2^64]; a value
    that is not negative is kept, as no integer type holds more than
    [2^64 - 1]. *)
Definition to_size_t (v : Z) : Z := if v <? 0 then v mod 2 ^ 64 else v.

(** [column<T>::operator[]] with its parameter [size_t index]; the
    reference it returns is the location of the element. *)
Definition column_at (c : column) (index : Z) : result pointer :=
  let index := to_size_t index in
  ecs_assert (index <? m_count c) ECS_COLUMN_INDEX_OUT_OF_RANGE ;;;
  Ok (elem_at (elem_type c) (m_array c) index).

(** ** [rows] *)

(** The iteration handle [ecs_rows_t], as far as the wrapper looks at it:
    the row count and what the C accessors report for each column. *)
Record ecs_rows_t : Type := {
  count : Z;
  ecs_column_entity : Z -> entity_t;
  ecs_is_shared : Z -> bool;
  ecs_is_readonly : Z -> bool;
  _ecs_column : Z -> Z -> pointer;
  _ecs_field : Z -> Z -> Z -> pointer
}.

Variable reg : statics.

(** [rows::get_column<T>]. *)
Definition get_column (m_rows : ecs_rows_t) (t : cpp_type) (column_id : Z)
  : result column :=
  ecs_assert (ecs_column_entity m_rows column_id =? s_entity (reg t))
    ECS_COLUMN_TYPE_MISMATCH ;;;
  let count :=
    if ecs_is_shared m_rows column_id then 1 else count m_rows in
  Ok {| elem_type := t;
        m_array := _ecs_column m_rows (sizeof t) column_id;
        m_count := count |}.

(** [rows::get_field<T>]. *)
Definition get_field (m_rows : ecs_rows_t) (t : cpp_type) (col row : Z)
  : result pointer :=
  ecs_assert (ecs_column_entity m_rows col =? s_entity (reg t))
    ECS_COLUMN_TYPE_MISMATCH ;;;
  Ok (_ecs_field m_rows (sizeof t) col row).

(** [rows::column<T>]: overload resolution picks the checked variant
    exactly for non-const [T]. *)
Definition rows_column (m_rows : ecs_rows_t) (t : cpp_type) (col : Z)
  : result column :=
  if is_const t then get_column m_rows t col
  else
    ecs_assert (negb (ecs_is_readonly m_rows col))
      ECS_COLUMN_ACCESS_VIOLATION ;;;
    get_column m_rows t col.

(** [rows::owned<T>]. *)
Definition owned (m_rows : ecs_rows_t) (t : cpp_type) (col : Z)
  : result column :=
  ecs_assert (negb (ecs_is_shared m_rows col)) ECS_COLUMN_IS_SHARED ;;;
  rows_column m_rows t col.

(** [rows::shared<T>]. *)
Definition shared (m_rows : ecs_rows_t) (t : cpp_type) (col : Z)
  : result pointer :=
  ecs_assert (ecs_column_entity m_rows col =? s_entity (reg t))
    ECS_COLUMN_TYPE_MISMATCH ;;;
  ecs_assert (ecs_is_shared m_rows col) ECS_COLUMN_IS_NOT_SHARED ;;;
  Ok (_ecs_column m_rows (sizeof t) col).

(** [rows::field<T>]. *)
Definition rows_field (m_rows : ecs_rows_t) (t : cpp_type) (col row : Z)
  : result pointer :=
  if is_const t then get_field m_rows t col row
  else
    ecs_assert (negb (ecs_is_readonly m_rows col))
      ECS_COLUMN_ACCESS_VIOLATION ;;;
    get_field m_rows t col row.

(** ** [type] *)

(** Modelled from the spec: the macros [ECS_INSTANCEOF] and [ECS_CHILDOF]
    are defined in the C header, which is not among the sources; section 6
    gives the markers as [0x80_00_00_00_00_00_00_00] and
    [0x40_00_00_00_00_00_00_00]. *)
Definition ECS_INSTANCEOF : entity_t := 0x8000000000000000.
Definition ECS_CHILDOF : entity_t := 0x4000000000000000.

(** The [EcsTypeComponent] value an entity may carry. *)
Record EcsTypeComponent : Type := {
  tc_type : type_t;
  tc_resolved : type_t
}.

(** The part of the world that [type::sync_from_me] writes. *)
Definition type_store := entity_t -> option EcsTypeComponent.

Record type : Type := {
  m_id : entity_t;
  m_type : type_t;
  m_normalized : type_t
}.

(** [type::sync_from_me]. *)
Definition sync_from_me (store : type_store) (t : type) : type_store :=
  match store (m_id t) with
  | Some _ =>
      fun e => if e =? m_id t
               then Some {| tc_type := m_type t; tc_resolved := m_normalized t |}
               else store e
  | None => store
  end.

(** The id that [add_instanceof] hands to [ecs_type_add]. *)
Definition instanceof_id (entity_id : entity_t) : entity_t :=
  Z.lor entity_id ECS_INSTANCEOF.

(** The id that [add_childof] hands to [ecs_type_add]. *)
Definition childof_id (entity_id : entity_t) : entity_t :=
  Z.lor entity_id ECS_CHILDOF.

(** [type::add_instanceof]; [entity_id] is [entity.id()]. *)
Definition add_instanceof (world : world_t) (store : type_store) (t : type)
    (entity_id : entity_t) : type * type_store :=
  let t' := {| m_id := m_id t;
               m_type := ecs_type_add world (m_type t) (instanceof_id entity_id);
               m_normalized :=
                 ecs_type_add world (m_normalized t) (instanceof_id entity_id) |} in
  (t', sync_from_me store t').

(** [type::add_childof]. *)
Definition add_childof (world : world_t) (store : type_store) (t : type)
    (entity_id : entity_t) : type * type_store :=
  let t' := {| m_id := m_id t;
               m_type := ecs_type_add world (m_type t) (childof_id entity_id);
               m_normalized :=
                 ecs_type_add world (m_normalized t) (childof_id entity_id) |} in
  (t', sync_from_me store t').

(** ** [system<Components...>] *)

(** [system::inout_modifier<T>]: of the three overloads the one whose
    [enable_if] condition holds. *)
Definition inout_modifier (t : cpp_type) : string :=
  if is_const t then "[in] "
  else if is_reference t then "[out] "
  else "".

(** [str << s] for a [const char *]; inserting a null pointer is not
    defined. *)
Definition put (str : string) (s : option string) : result string :=
  match s with
  | Some s => Ok (str ++ s)%string
  | None => Undefined
  end.

(** The [for (auto id : ids)] loop of [system::action]: [i] counts the ids
    written so far, [str] is the text in the [stringstream]. *)
Fixpoint action_ids (ids : list (option string)) (inout_modifiers : list string)
    (i : nat) (str : string) : result (nat * string) :=
  match ids with
  | [] => Ok (i, str)
  | id :: ids' =>
      let str := if (0 <? i)%nat then (str ++ ",")%string else str in
      let str := (str ++ nth i inout_modifiers "")%string in
      str <- put str id ;;
      action_ids ids' inout_modifiers (S i) str
  end.

(** The signature text that [system::action] passes to [ecs_new_system]. *)
Definition action_signature (Components : list cpp_type)
    (m_signature : option string) : result string :=
  let ids := map (fun c => s_name (reg c)) Components in
  let inout_modifiers := map inout_modifier Components in
  r <- action_ids ids inout_modifiers 0%nat "" ;;
  let '(i, str) := r in
  match m_signature with
  | Some sig =>
      let str := if (0 <? i)%nat then (str ++ ",")%string else str in
      Ok (str ++ sig)%string
  | None => Ok str
  end.

(** The term of a component in the signature: modifier, then the name
    [name_of] gives it. *)
Definition term_text (name_of : cpp_type -> string) (c : cpp_type) : string :=
  (inout_modifier c ++ name_of c)%string.

(** [name_of c] is the name registered for [c]. *)
Definition registered_as (name_of : cpp_type -> string) (c : cpp_type) : Prop :=
  s_name (reg c) = Some (name_of c).

Variable EcsSystemKind : Type.
Variable system_ctx : Type.
Variable ecs_new_system :
  world_t -> option string -> EcsSystemKind -> string -> world_t * entity_t.
Variable ecs_set_system_context : world_t -> entity_t -> system_ctx -> world_t.

Record system : Type := {
  sys_world : world_t;
  m_kind : EcsSystemKind;
  m_name : option string;
  m_signature : option string
}.

(** [system::signature]. *)
Definition signature (s : system) (sig : string) : system :=
  {| sys_world := sys_world s; m_kind := m_kind s; m_name := m_name s;
     m_signature := Some sig |}.

(** [system::action]; [ctx] is the freshly allocated [system_ctx]. *)
Definition action (Components : list cpp_type) (s : system) (ctx : system_ctx)
  : result world_t :=
  sig <- action_signature Components (m_signature s) ;;
  let '(world', sys) :=
    ecs_new_system (sys_world s) (m_name s) (m_kind s) sig in
  Ok (ecs_set_system_context world' sys ctx).

End Wrapper.

End Cpp.

(** * [flecs/cpp/invoker.hpp] *)
Module Invoker.
Import Cpp.

(** [is_pointer<T>::value]. *)
Definition is_pointer (t : cpp_type) : bool :=
  match t with
  | TPtr _ | TConst (TPtr _) => true
  | _ => false
  end.

(** [remove_reference_t<T>]. *)
Definition remove_reference_t (t : cpp_type) : cpp_type :=
  match t with TRef u => u | _ => t end.

(** [remove_pointer_t<T>]. *)
Definition remove_pointer_t (t : cpp_type) : cpp_type :=
  match t with
  | TPtr u | TConst (TPtr u) => u
  | _ => t
  end.

(** [_::term_ptr]: where the data of a term starts, and whether the term
    was matched on another entity. *)
Record term_ptr : Type := {
  ptr : pointer;
  is_ref : bool
}.

Record each_column_base : Type := {
  m_term : term_ptr;
  m_row : Z
}.

(** What the callback receives for one component: a reference (the
    location of the value) or a pointer value. *)
Inductive argument : Type :=
| by_reference (location : pointer)
| by_pointer (p : pointer).

Section Each.

Variable sizeof : cpp_type -> Z.

(** The constructor of [each_column<T>]. *)
Definition each_column (term : term_ptr) (row : Z) : each_column_base :=
  {| m_term := term; m_row := row |}.

(** [each_column<T>::get_row], both specialisations. *)
Definition get_row (t : cpp_type) (c : each_column_base) : argument :=
  if is_pointer t then
    if negb (ptr (m_term c) =? NULL) then
      by_pointer (ptr (m_term c) + m_row c * sizeof (remove_pointer_t t))
    else
      by_pointer NULL
  else
    by_reference (ptr (m_term c) + m_row c * sizeof t).

(** The constructor of [each_ref_column<T>]. *)
Definition each_ref_column (term : term_ptr) (row : Z) : each_column_base :=
  let c := each_column term row in
  if is_ref term then {| m_term := m_term c; m_row := 0 |} else c.

(** The iterator, as far as [each_invoker] looks at it: the rows of
    [flecs::iter], the entity of a row, and what
    [term_ptrs<Components...>::populate_w_refs] finds (the populated terms
    and its return value). *)
Record ecs_iter_t : Type := {
  count : Z;
  entity : Z -> entity_t;
  populate_w_refs : list term_ptr * bool
}.

(** The rows that [for (auto row : it)] visits. *)
Definition iter_rows (it : ecs_iter_t) : list Z :=
  map Z.of_nat (seq 0 (Z.to_nat (count it))).

(** The arguments of one call of the user function. *)
Definition row_arguments (ColumnType : term_ptr -> Z -> each_column_base)
    (Components : list cpp_type) (terms : list term_ptr) (row : Z)
  : list argument :=
  map (fun ct => get_row (remove_reference_t (fst ct)) (ColumnType (snd ct) row))
      (combine Components terms).

(** [each_invoker::invoke_callback]: the calls of the user function, in
    order, each with the entity and the arguments it is given. *)
Definition invoke_callback (ColumnType : term_ptr -> Z -> each_column_base)
    (Components : list cpp_type) (it : ecs_iter_t) (terms : list term_ptr)
  : list (entity_t * list argument) :=
  map (fun row => (entity it row, row_arguments ColumnType Components terms row))
      (iter_rows it).

(** [each_invoker::invoke]. *)
Definition invoke (Components : list cpp_type) (it : ecs_iter_t)
  : list (entity_t * list argument) :=
  let '(terms, has_refs) := populate_w_refs it in
  if has_refs then invoke_callback each_ref_column Components it terms
  else invoke_callback each_column Components it terms.

End Each.

End Invoker.

(** Element [i] of an array given as a list; [None] outside of it. *)
Definition znth {A : Type} (l : list A) (i : Z) : option A :=
  if i <? 0 then None else nth_error l (Z.to_nat i).

(** An array cell overwritten. *)
Definition upd {A : Type} (a : Z -> A) (i : Z) (v : A) : Z -> A :=
  fun j => if j =? i then v else a j.

(** * [src/observer.c] *)
Module Observer.

Inductive ecs_oper_kind_t : Set := EcsAnd | EcsOr | EcsNot | EcsOptional.

Definition oper_eqb (a b : ecs_oper_kind_t) : bool :=
  match a, b with
  | EcsAnd, EcsAnd | EcsOr, EcsOr | EcsNot, EcsNot
  | EcsOptional, EcsOptional => true
  | _, _ => false
  end.

(** The fields of [ecs_term_t] that the observer reads; [args0_entity] is
    [args[0].entity], the subject. *)
Record ecs_term_t : Type := {
  id : Z;
  index : Z;
  oper : ecs_oper_kind_t;
  args0_entity : entity_t
}.

(** [terms] holds [term_count] terms. *)
Record ecs_filter_t : Type := {
  terms : list ecs_term_t;
  term_count_actual : Z
}.

Definition term_count (f : ecs_filter_t) : Z := Z.of_nat (List.length (terms f)).

Record ecs_column_t : Type := { size : Z }.

(** A table with its data ([ecs_table_get_data(table)->columns]). *)
Record ecs_table_t : Type := {
  type : type_t;
  column_count : Z;
  data_columns : list ecs_column_t
}.

(** The three arrays that [observer_callback] allocates on its stack. *)
Record iter_arrays : Type := {
  ids : Z -> Z;
  columns : Z -> Z;
  types : Z -> type_t
}.

Record ecs_iter_table_t : Type := {
  it_table : option ecs_table_t;
  it_columns : Z -> Z;
  it_components : Z -> Z;
  it_types : Z -> type_t
}.

Record ecs_iter_t : Type := {
  table : option ecs_iter_table_t;
  event_id : Z;
  term_index : Z;
  system : entity_t;
  self : entity_t;
  ctx : pointer;
  column_count_it : Z;
  table_columns : list ecs_column_t
}.

(** Function pointers are named by a number, [0] for the null pointer. *)
Record ecs_observer_t : Type := {
  o_id : Z;
  filter : ecs_filter_t;
  triggers : option (list entity_t);
  action : Z;
  o_entity : entity_t;
  o_self : entity_t;
  o_ctx : pointer;
  binding_ctx : pointer;
  ctx_free : Z;
  binding_ctx_free : Z;
  event_count : Z;
  events : list entity_t
}.

(** The [EcsObserver] component: [observer] points into
    [world->observers]; the element is named by its sparse id, [None] is a
    pointer that was never set. *)
Record EcsObserver : Type := { observer : option Z }.

Record ecs_entity_desc_t : Type := {
  de_entity : entity_t;
  de_name : option string
}.

Section Filters.

(** The contents of a filter description apart from its name. *)
Variable filter_body : Type.

Record ecs_filter_desc_t : Type := {
  fd_name : option string;
  fd_body : filter_body
}.

Record ecs_observer_desc_t : Type := {
  d_entity : ecs_entity_desc_t;
  d_filter : ecs_filter_desc_t;
  d_events : list entity_t;
  d_callback : Z;
  d_self : entity_t;
  d_ctx : pointer;
  d_binding_ctx : pointer;
  d_ctx_free : Z;
  d_binding_ctx_free : Z
}.

(** The trigger asks for [observer_callback] with the observer as context. *)
Record ecs_trigger_desc_t : Type := {
  td_term : ecs_term_t;
  td_ctx : Z;
  td_binding_ctx : pointer;
  td_events : list entity_t
}.

(** Calls that leave the observer module, in the order they are made. *)
Inductive call : Type :=
| call_entity_init (d : ecs_entity_desc_t)
| call_trigger_init (d : ecs_trigger_desc_t)
| call_delete (e : entity_t)
| call_os_free (triggers : option (list entity_t))
| call_filter_fini (f : ecs_filter_t)
| call_free (f : Z) (p : pointer).

(** The world, as far as the observer module touches it. *)
Record ecs_world_t : Type := {
  is_fini : bool;
  observers : list (Z * ecs_observer_t);
  observer_components : entity_t -> option EcsObserver;
  calls : list call
}.

Definition with_calls (w : ecs_world_t) (c : list call) : ecs_world_t :=
  {| is_fini := is_fini w; observers := observers w;
     observer_components := observer_components w; calls := c |}.

Definition with_observers (w : ecs_world_t) (o : list (Z * ecs_observer_t))
  : ecs_world_t :=
  {| is_fini := is_fini w; observers := o;
     observer_components := observer_components w; calls := calls w |}.

Definition with_component (w : ecs_world_t) (e : entity_t) (c : EcsObserver)
  : ecs_world_t :=
  {| is_fini := is_fini w; observers := observers w;
     observer_components := upd (observer_components w) e (Some c);
     calls := calls w |}.

Definition emit (w : ecs_world_t) (c : call) : ecs_world_t :=
  with_calls w (calls w ++ [c]).

(** [ecs_sparse_get] and [ecs_sparse_remove] on [world->observers]. *)
Fixpoint sparse_get (l : list (Z * ecs_observer_t)) (i : Z)
  : option ecs_observer_t :=
  match l with
  | [] => None
  | (j, o) :: l' => if j =? i then Some o else sparse_get l' i
  end.

Definition sparse_remove (l : list (Z * ecs_observer_t)) (i : Z)
  : list (Z * ecs_observer_t) :=
  List.filter (fun e => negb (fst e =? i)) l.

Definition sparse_set (l : list (Z * ecs_observer_t)) (i : Z)
    (o : ecs_observer_t) : list (Z * ecs_observer_t) :=
  (i, o) :: sparse_remove l i.

(** What the rest of the library answers. *)
Variable EcsThis : entity_t.
Variable ECS_FILTER_DESC_TERM_ARRAY_MAX : Z.
Variable ecs_type_match : type_t -> Z -> Z -> Z.
Variable ecs_type_from_id : ecs_world_t -> Z -> type_t.
Variable ecs_id_is_wildcard : Z -> bool.
Variable ecs_filter_match_type : ecs_world_t -> ecs_filter_t -> type_t -> bool.
Variable ecs_entity_init : ecs_world_t -> ecs_entity_desc_t -> entity_t.
Variable ecs_trigger_init : ecs_world_t -> ecs_trigger_desc_t -> entity_t.
Variable ecs_sparse_add : list (Z * ecs_observer_t) -> Z * ecs_observer_t.
Variable ecs_filter_init : ecs_world_t -> ecs_filter_desc_t -> Z * ecs_filter_t.

(** ** [populate_columns] *)

Definition in_array (ti : Z) : bool :=
  (0 <=? ti) && (ti <? ECS_FILTER_DESC_TERM_ARRAY_MAX).

Definition set_id (a : iter_arrays) (ti v : Z) : result iter_arrays :=
  if in_array ti
  then Ok {| ids := upd (ids a) ti v; columns := columns a; types := types a |}
  else Undefined.

Definition set_column (a : iter_arrays) (ti v : Z) : result iter_arrays :=
  if in_array ti
  then Ok {| ids := ids a; columns := upd (columns a) ti v; types := types a |}
  else Undefined.

Definition set_type (a : iter_arrays) (ti : Z) (v : type_t)
  : result iter_arrays :=
  if in_array ti
  then Ok {| ids := ids a; columns := columns a; types := upd (types a) ti v |}
  else Undefined.

(** The loop body from [columns[ti] = index + 1] on, reached when the term
    is resolved in the table type as [id] at [index]. *)
Definition populate_found (world : ecs_world_t) (table : ecs_table_t)
    (a : iter_arrays) (ti id index : Z) : result iter_arrays :=
  a <- set_column a ti (index + 1) ;;
  a <- set_type a ti (ecs_type_from_id world id) ;;
  id <- (if ecs_id_is_wildcard id then
           ecs_assert (index <? Z.of_nat (List.length (type table)))
             ECS_INTERNAL_ERROR ;;;
           match znth (type table) index with
           | Some actual => Ok actual
           | None => Undefined
           end
         else Ok id) ;;
  a <- set_id a ti id ;;
  if column_count table <=? index then
    set_column a ti 0
  else
    match znth (data_columns table) index with
    | Some column => if size column =? 0 then set_column a ti 0 else Ok a
    | None => Undefined
    end.

(** One iteration of the loop of [populate_columns], for term [t] at
    position [i]. *)
Definition populate_term (world : ecs_world_t) (table : ecs_table_t)
    (event_id term_index : Z) (i : Z) (t : ecs_term_t) (a : iter_arrays)
  : result iter_arrays :=
  let ti := index t in
  let id := id t in
  if negb (args0_entity t =? EcsThis) then
    a <- set_column a ti 0 ;;
    a <- set_id a ti id ;;
    set_type a ti (ecs_type_from_id world id)
  else if i =? term_index then
    let id := event_id in
    let index := ecs_type_match (type table) 0 id in
    populate_found world table a ti id index
  else
    let index := ecs_type_match (type table) 0 id in
    if index =? -1 then
      if oper_eqb (oper t) EcsNot then
        a <- set_id a ti id ;;
        a <- set_type a ti (ecs_type_from_id world id) ;;
        set_column a ti 0
      else
        ecs_assert (oper_eqb (oper t) EcsOr) ECS_INTERNAL_ERROR ;;;
        Ok a
    else
      populate_found world table a ti id index.

Fixpoint populate_loop (world : ecs_world_t) (table : ecs_table_t)
    (event_id term_index : Z) (i : Z) (ts : list ecs_term_t) (a : iter_arrays)
  : result iter_arrays :=
  match ts with
  | [] => Ok a
  | t :: ts' =>
      a <- populate_term world table event_id term_index i t a ;;
      populate_loop world table event_id term_index (i + 1) ts' a
  end.

(** [populate_columns]; [a] is what the arrays hold on entry. *)
Definition populate_columns (world : ecs_world_t) (o : ecs_observer_t)
    (table : ecs_table_t) (a : iter_arrays) (event_id term_index : Z)
  : result iter_arrays :=
  a <- set_id a 0 0 ;;
  a <- set_column a 0 0 ;;
  a <- set_type a 0 [] ;;
  populate_loop world table event_id term_index 0 (terms (filter o)) a.

(** ** [observer_callback] *)

(** [it->ctx] is the observer [o].  The result tells whether the user
    action was called, and with which iterator; [stack] is what the local
    arrays hold before they are filled. *)
Definition observer_callback (world : ecs_world_t) (o : ecs_observer_t)
    (stack : iter_arrays) (it : ecs_iter_t)
  : result (option (Z * ecs_iter_t)) :=
  match table it with
  | None => Abort ECS_INTERNAL_ERROR
  | Some it_tab =>
      match it_table it_tab with
      | None => Abort ECS_INTERNAL_ERROR
      | Some table =>
          if ecs_filter_match_type world (filter o) (type table) then
            a <- populate_columns world o table stack
                   (event_id it) (term_index it) ;;
            let table_data :=
              {| it_table := Some table; it_columns := columns a;
                 it_components := ids a; it_types := types a |} in
            let user_it :=
              {| table := Some table_data;
                 event_id := event_id it;
                 term_index := term_index it;
                 system := o_entity o;
                 self := o_self o;
                 ctx := o_ctx o;
                 column_count_it := term_count_actual (filter o);
                 table_columns := data_columns table |} in
            Ok (Some (action o, user_it))
          else Ok None
      end
  end.

(** ** [ecs_observer_fini] *)

Variable ecs_get_mut :
  ecs_world_t -> entity_t -> ecs_world_t * EcsObserver * bool.

(** The loop over [observer->triggers]: [todo] are the indices still to
    visit. *)
Fixpoint delete_triggers (world : ecs_world_t)
    (triggers : option (list entity_t)) (todo : list nat) : result ecs_world_t :=
  match todo with
  | [] => Ok world
  | i :: todo' =>
      match triggers with
      | None => Undefined
      | Some array =>
          match nth_error array i with
          | None => Undefined
          | Some trigger =>
              let world :=
                if negb (trigger =? 0) then emit world (call_delete trigger)
                else world in
              delete_triggers world triggers todo'
          end
      end
  end.

Definition ecs_observer_fini (world : ecs_world_t) (observer : ecs_observer_t)
  : result ecs_world_t :=
  let count := List.length (terms (filter observer)) in
  world <- delete_triggers world (triggers observer) (seq 0 count) ;;
  let world := emit world (call_os_free (triggers observer)) in
  let world := emit world (call_filter_fini (filter observer)) in
  let world :=
    if negb (ctx_free observer =? 0)
    then emit world (call_free (ctx_free observer) (o_ctx observer))
    else world in
  let world :=
    if negb (binding_ctx_free observer =? 0)
    then emit world (call_free (binding_ctx_free observer) (binding_ctx observer))
    else world in
  Ok (with_observers world (sparse_remove (observers world) (o_id observer))).

(** ** [ecs_observer_init] *)

Definition with_id (o : ecs_observer_t) (i : Z) : ecs_observer_t :=
  {| o_id := i; filter := filter o; triggers := triggers o;
     action := action o; o_entity := o_entity o; o_self := o_self o;
     o_ctx := o_ctx o; binding_ctx := binding_ctx o; ctx_free := ctx_free o;
     binding_ctx_free := binding_ctx_free o; event_count := event_count o;
     events := events o |}.

Definition with_filter (o : ecs_observer_t) (f : ecs_filter_t)
  : ecs_observer_t :=
  {| o_id := o_id o; filter := f; triggers := triggers o;
     action := action o; o_entity := o_entity o; o_self := o_self o;
     o_ctx := o_ctx o; binding_ctx := binding_ctx o; ctx_free := ctx_free o;
     binding_ctx_free := binding_ctx_free o; event_count := event_count o;
     events := events o |}.

Definition with_action (o : ecs_observer_t) (f : Z) : ecs_observer_t :=
  {| o_id := o_id o; filter := filter o; triggers := triggers o;
     action := f; o_entity := o_entity o; o_self := o_self o;
     o_ctx := o_ctx o; binding_ctx := binding_ctx o; ctx_free := ctx_free o;
     binding_ctx_free := binding_ctx_free o; event_count := event_count o;
     events := events o |}.

Definition with_ctx (o : ecs_observer_t) (p : pointer) : ecs_observer_t :=
  {| o_id := o_id o; filter := filter o; triggers := triggers o;
     action := action o; o_entity := o_entity o; o_self := o_self o;
     o_ctx := p; binding_ctx := binding_ctx o; ctx_free := ctx_free o;
     binding_ctx_free := binding_ctx_free o; event_count := event_count o;
     events := events o |}.

Definition with_binding_ctx (o : ecs_observer_t) (p : pointer)
  : ecs_observer_t :=
  {| o_id := o_id o; filter := filter o; triggers := triggers o;
     action := action o; o_entity := o_entity o; o_self := o_self o;
     o_ctx := o_ctx o; binding_ctx := p; ctx_free := ctx_free o;
     binding_ctx_free := binding_ctx_free o; event_count := event_count o;
     events := events o |}.

(** The loop that creates a trigger for each term. *)
Fixpoint init_triggers (world : ecs_world_t) (observer_id : Z)
    (desc : ecs_observer_desc_t) (ts : list ecs_term_t)
  : ecs_world_t * list entity_t :=
  match ts with
  | [] => (world, [])
  | t :: ts' =>
      if oper_eqb (oper t) EcsNot || negb (args0_entity t =? EcsThis) then
        let '(world, rest) := init_triggers world observer_id desc ts' in
        (world, 0 :: rest)
      else
        let trigger_desc :=
          {| td_term := t; td_ctx := observer_id;
             td_binding_ctx := d_binding_ctx desc;
             td_events := d_events desc |} in
        let trigger := ecs_trigger_init world trigger_desc in
        let world := emit world (call_trigger_init trigger_desc) in
        let '(world, rest) := init_triggers world observer_id desc ts' in
        (world, trigger :: rest)
  end.

Definition ecs_observer_init (world : ecs_world_t) (desc : ecs_observer_desc_t)
  : result (ecs_world_t * entity_t) :=
  ecs_assert (negb (is_fini world)) ECS_INVALID_OPERATION ;;;
  let existing := de_entity (d_entity desc) in
  let entity := ecs_entity_init world (d_entity desc) in
  let world := emit world (call_entity_init (d_entity desc)) in
  let '(world, comp, added) := ecs_get_mut world entity in
  if added then
    let '(new_id, slot) := ecs_sparse_add (observers world) in
    let observer := with_id slot new_id in
    let world :=
      with_observers world (sparse_set (observers world) new_id observer) in
    let filter_desc :=
      {| fd_name := de_name (d_entity desc);
         fd_body := fd_body (d_filter desc) |} in
    let '(rc, f) := ecs_filter_init world filter_desc in
    let observer := with_filter observer f in
    let world :=
      with_observers world (sparse_set (observers world) new_id observer) in
    if negb (rc =? 0) then
      world <- ecs_observer_fini world observer ;;
      Ok (world, 0)
    else
      let '(world, trigger_ids) := init_triggers world new_id desc (terms f) in
      let observer :=
        {| o_id := new_id; filter := f; triggers := Some trigger_ids;
           action := d_callback desc; o_entity := entity;
           o_self := d_self desc; o_ctx := d_ctx desc;
           binding_ctx := d_binding_ctx desc; ctx_free := d_ctx_free desc;
           binding_ctx_free := d_binding_ctx_free desc; event_count := 0;
           events := events observer |} in
      let world :=
        with_observers world (sparse_set (observers world) new_id observer) in
      Ok (with_component world entity {| observer := Some new_id |}, entity)
  else
    match observer comp with
    | None => Abort ECS_INTERNAL_ERROR
    | Some oid =>
        if negb (existing =? 0) then
          match sparse_get (observers world) oid with
          | None => Undefined
          | Some o =>
              let o := if negb (d_callback desc =? 0)
                       then with_action o (d_callback desc) else o in
              let o := if negb (d_ctx desc =? NULL)
                       then with_ctx o (d_ctx desc) else o in
              let o := if negb (d_binding_ctx desc =? NULL)
                       then with_binding_ctx o (d_binding_ctx desc) else o in
              Ok (with_observers world (sparse_set (observers world) oid o),
                  entity)
          end
        else Ok (world, entity)
    end.

(** ** [ecs_get_observer_ctx], [ecs_get_observer_binding_ctx] *)

(** Modelled from the spec: [ecs_get] is not among the sources; section 4.4
    has [get(id, comp) -> ptr?], "None if dead or component absent". *)
Definition ecs_get (world : ecs_world_t) (e : entity_t) : option EcsObserver :=
  observer_components world e.

(** [o->observer], dereferenced. *)
Definition deref_observer (world : ecs_world_t) (o : EcsObserver)
  : result ecs_observer_t :=
  match observer o with
  | Some oid =>
      match sparse_get (observers world) oid with
      | Some ob => Ok ob
      | None => Undefined
      end
  | None => Undefined
  end.

Definition ecs_get_observer_ctx (world : ecs_world_t) (e : entity_t)
  : result pointer :=
  match ecs_get world e with
  | Some o => ob <- deref_observer world o ;; Ok (o_ctx ob)
  | None => Ok NULL
  end.

Definition ecs_get_observer_binding_ctx (world : ecs_world_t) (e : entity_t)
  : result pointer :=
  match ecs_get world e with
  | Some o => ob <- deref_observer world o ;; Ok (binding_ctx ob)
  | None => Ok NULL
  end.

(** The trigger array of an observer covers the terms of its filter, so
    that the loop of [ecs_observer_fini] reads inside it. *)
Definition triggers_readable (o : ecs_observer_t) : Prop :=
  match triggers o with
  | Some array => (List.length (terms (filter o)) <= List.length array)%nat
  | None => terms (filter o) = []
  end.

(** ** What the arrays hold for a term *)

(** The entries of the three arrays at index [ti]: id, column, type. *)
Definition slot (a : iter_arrays) (ti : Z) : Z * Z * type_t :=
  (ids a ti, columns a ti, types a ti).

(** The entries that resolving [id] against the table leaves at a slot:
    the id itself, or the id found in the type for a wildcard; the column
    number, or 0 for a column without data; the type of [id]. *)
Definition resolved (world : ecs_world_t) (table : ecs_table_t) (id : Z)
  : Z * Z * type_t :=
  let index := ecs_type_match (type table) 0 id in
  (if ecs_id_is_wildcard id
   then match znth (type table) index with Some actual => actual | None => id end
   else id,
   if column_count table <=? index then 0
   else match znth (data_columns table) index with
        | Some column => if size column =? 0 then 0 else index + 1
        | None => index + 1
        end,
   ecs_type_from_id world id).

(** A term that does not write slot [ti]: it has another index, or it is
    an alternative on the matched entity that the table does not have. *)
Definition leaves_slot (table : ecs_table_t) (ti : Z) (t : ecs_term_t) : Prop :=
  index t <> ti \/
  (args0_entity t = EcsThis /\
   ecs_type_match (type table) 0 (id t) = -1 /\
   oper t <> EcsNot).

(** The slot that the user action finds in the iterator it is given. *)
Definition action_slot (r : result (option (Z * ecs_iter_t))) (ti : Z)
  : option (Z * Z * type_t) :=
  match r with
  | Ok (Some (_, user_it)) =>
      match table user_it with
      | Some tab => Some (it_components tab ti, it_columns tab ti, it_types tab ti)
      | None => None
      end
  | _ => None
  end.

End Filters.

Arguments fd_name {filter_body} _.
Arguments fd_body {filter_body} _.
Arguments d_entity {filter_body} _.
Arguments d_filter {filter_body} _.
Arguments d_events {filter_body} _.
Arguments d_callback {filter_body} _.
Arguments d_self {filter_body} _.
Arguments d_ctx {filter_body} _.
Arguments d_binding_ctx {filter_body} _.
Arguments d_ctx_free {filter_body} _.
Arguments d_binding_ctx_free {filter_body} _.

(** ** Matching, for ids without wildcards *)

(** Modelled from the spec: [ecs_type_match] is not among the sources;
    section 4.7 has "[And] term with id [X]: the archetype's type contains
    [X]".  For an id that is no wildcard this is the position of the id in
    the type, counted from [pos], and [-1] when the type does not hold it. *)
Fixpoint type_index_from (type : type_t) (pos : Z) (id : Z) : Z :=
  match type with
  | [] => -1
  | x :: type' => if x =? id then pos else type_index_from type' (pos + 1) id
  end.

Definition type_match_exact (type : type_t) (offset : Z) (id : Z) : Z :=
  type_index_from (skipn (Z.to_nat offset) type) offset id.

(** Modelled from the spec: [ecs_filter_match_type] is not among the
    sources; section 4.7 has the type satisfy every term, an [And] term
    when the type contains the id, a [Not] term when it does not, an [Or]
    group when one of its terms is contained, and an [Optional] term
    always.  [or_open] tells that the preceding terms form an [Or] group,
    [or_hit] that one of them is contained. *)
Fixpoint terms_match (type : type_t) (ts : list ecs_term_t)
    (or_open or_hit : bool) : bool :=
  match ts with
  | [] => implb or_open or_hit
  | t :: ts' =>
      let present := negb (type_match_exact type 0 (id t) =? -1) in
      match oper t with
      | EcsOr => terms_match type ts' true (or_hit || present)
      | EcsAnd =>
          implb or_open or_hit && present && terms_match type ts' false false
      | EcsNot =>
          implb or_open or_hit && negb present
          && terms_match type ts' false false
      | EcsOptional =>
          implb or_open or_hit && terms_match type ts' false false
      end
  end.

Definition filter_match_type_exact (f : ecs_filter_t) (type : type_t) : bool :=
  terms_match type (terms f) false false.

End Observer.

(** * The snapshot stream reader *)
Module Stream.

(** The kinds of [ecs_blob_header_kind_t] that the reader uses.  The
    header that declares the enumeration is not among the sources:
    [EcsKindZero] stands for the enumerator of value [0], which is what the
    zero-initialised [cur] fields hold and what [!reader->cur] tests. *)
Inductive ecs_blob_header_kind_t : Set :=
| EcsKindZero
| EcsComponentSegment
| EcsTableSegment
| EcsFooterSegment
| EcsComponentHeader
| EcsComponentId
| EcsComponentSize
| EcsComponentNameLength
| EcsComponentName
| EcsTableHeader
| EcsTableTypeSize
| EcsTableType
| EcsTableSize
| EcsTableColumnHeader
| EcsTableColumnSize
| EcsTableColumnData.

Definition kind_eq_dec (a b : ecs_blob_header_kind_t) : {a = b} + {a <> b}.
Proof. decide equality. Defined.

Definition kind_eqb (a b : ecs_blob_header_kind_t) : bool :=
  if kind_eq_dec a b then true else false.

(** [size_t] is 64 bits wide; [-1] converted to it is [SIZE_MAX]. *)
Definition SIZE_MAX : Z := 2 ^ 64 - 1.
Definition size_add (a b : Z) : Z := (a + b) mod 2 ^ 64.
Definition size_sub (a b : Z) : Z := (a - b) mod 2 ^ 64.

(** [sizeof(int32_t)], and [sizeof(ecs_blob_header_kind_t)] for an
    enumeration stored as an [int]. *)
Definition sizeof_int32 : Z := 4.
Definition sizeof_kind : Z := 4.

(** The four bytes of a 32-bit store, lowest byte first; a wider value is
    truncated as the cast to [int32_t] does. *)
Definition int32_bytes (v : Z) : list Z :=
  [v mod 256; (v / 256) mod 256; (v / 65536) mod 256; (v / 16777216) mod 256].

(** The characters of a C string with the terminating zero. *)
Fixpoint c_string (s : string) : list Z :=
  match s with
  | EmptyString => [0]
  | String c s' => Z.of_nat (nat_of_ascii c) :: c_string s'
  end.

(** [strlen]. *)
Definition strlen (s : string) : Z := Z.of_nat (String.length s).

(** A vector with the element type it is read at. *)
Inductive ecs_vector_t : Type :=
| vector_entities (l : list entity_t)
| vector_components (sizes : list Z)
| vector_ids (l : list string)
| vector_raw (count : Z) (bytes : list Z).

Definition ecs_vector_count (v : ecs_vector_t) : Z :=
  match v with
  | vector_entities l => Z.of_nat (List.length l)
  | vector_components l => Z.of_nat (List.length l)
  | vector_ids l => Z.of_nat (List.length l)
  | vector_raw count _ => count
  end.

Record ecs_table_column_t : Type := {
  data : ecs_vector_t;
  size : Z
}.

(** [columns] is null for a table that the snapshot filtered out. *)
Record ecs_table_t : Type := {
  type : type_t;
  columns : option (list ecs_table_column_t)
}.

Record ecs_world_t : Type := { main_stage_tables : list ecs_table_t }.

Record ecs_snapshot_t : Type := { snapshot_tables : list ecs_table_t }.

Record ecs_component_reader_t : Type := {
  c_cur : ecs_blob_header_kind_t;
  id_column : option (list entity_t);
  data_column : option (list Z);
  name_column : option (list string);
  c_count : Z;
  index : Z;
  name : option string;
  len : Z;
  written : Z
}.

Record ecs_table_reader_t : Type := {
  t_cur : ecs_blob_header_kind_t;
  table_index : Z;
  table : option ecs_table_t;
  t_columns : option (list ecs_table_column_t);
  t_type : type_t;
  type_index : Z;
  total_columns : Z;
  column_index : Z;
  column : option ecs_table_column_t;
  column_size : Z;
  column_data : list Z;
  column_written : Z
}.

Record ecs_stream_reader_t : Type := {
  cur : ecs_blob_header_kind_t;
  tables : list ecs_table_t;
  component : ecs_component_reader_t;
  table_reader : ecs_table_reader_t
}.

Record ecs_stream_t : Type := {
  world : ecs_world_t;
  reader : ecs_stream_reader_t
}.

(** Zero-initialised readers. *)
Definition component_reader_zero : ecs_component_reader_t :=
  {| c_cur := EcsKindZero; id_column := None; data_column := None;
     name_column := None; c_count := 0; index := 0; name := None;
     len := 0; written := 0 |}.

Definition table_reader_zero : ecs_table_reader_t :=
  {| t_cur := EcsKindZero; table_index := 0; table := None;
     t_columns := None; t_type := []; type_index := 0; total_columns := 0;
     column_index := 0; column := None; column_size := 0;
     column_data := []; column_written := 0 |}.

(** [ecs_stream_open]. *)
Definition ecs_stream_open (world : ecs_world_t) (snapshot : ecs_snapshot_t)
  : ecs_stream_t :=
  {| world := world;
     reader := {| cur := EcsComponentSegment;
                  tables := snapshot_tables snapshot;
                  component := component_reader_zero;
                  table_reader := table_reader_zero |} |}.

(** Field updates. *)
Definition with_cur (s : ecs_stream_t) (k : ecs_blob_header_kind_t)
  : ecs_stream_t :=
  {| world := world s;
     reader := {| cur := k; tables := tables (reader s);
                  component := component (reader s);
                  table_reader := table_reader (reader s) |} |}.

Definition with_component (s : ecs_stream_t) (c : ecs_component_reader_t)
  : ecs_stream_t :=
  {| world := world s;
     reader := {| cur := cur (reader s); tables := tables (reader s);
                  component := c;
                  table_reader := table_reader (reader s) |} |}.

Definition with_table_reader (s : ecs_stream_t) (t : ecs_table_reader_t)
  : ecs_stream_t :=
  {| world := world s;
     reader := {| cur := cur (reader s); tables := tables (reader s);
                  component := component (reader s);
                  table_reader := t |} |}.

(** The buffer is the caller's memory, [size] bytes from [buffer];
    [write_bytes buffer off bs] stores [bs] at [buffer + off]. *)
Definition write_bytes (buffer : list Z) (off : Z) (bs : list Z)
  : result (list Z) :=
  if (0 <=? off) && (off + Z.of_nat (List.length bs) <=? Z.of_nat (List.length buffer))
  then Ok (firstn (Z.to_nat off) buffer ++ bs
           ++ skipn (Z.to_nat off + List.length bs) buffer)
  else Undefined.

(** [n] bytes of [src] from offset [off], as [memcpy] reads them. *)
Definition read_bytes (src : list Z) (off n : Z) : result (list Z) :=
  if (0 <=? off) && (0 <=? n) && (off + n <=? Z.of_nat (List.length src))
  then Ok (firstn (Z.to_nat n) (skipn (Z.to_nat off) src))
  else Undefined.

(** The world and the snapshot's tables that a stream refers to. *)
Definition source (s : ecs_stream_t) : ecs_world_t * list ecs_table_t :=
  (world s, tables (reader s)).

Definition of_option {A : Type} (o : option A) : result A :=
  match o with
  | Some a => Ok a
  | None => Undefined
  end.

Section Readers.

(** The numeric value of each enumerator, and the object representation of
    a vector's elements (the bytes from [ecs_vector_first] on); both are
    fixed outside the sources. *)
Variable kind_code : ecs_blob_header_kind_t -> Z.
Variable vector_bytes : ecs_vector_t -> list Z.

(** ** The component segment *)

Definition set_c_cur (r : ecs_component_reader_t) (k : ecs_blob_header_kind_t)
  : ecs_component_reader_t :=
  {| c_cur := k; id_column := id_column r; data_column := data_column r;
     name_column := name_column r; c_count := c_count r; index := index r;
     name := name r; len := len r; written := written r |}.

Definition set_index (r : ecs_component_reader_t) (i : Z)
  : ecs_component_reader_t :=
  {| c_cur := c_cur r; id_column := id_column r; data_column := data_column r;
     name_column := name_column r; c_count := c_count r; index := i;
     name := name r; len := len r; written := written r |}.

Definition set_name (r : ecs_component_reader_t) (n : string) (l : Z)
  : ecs_component_reader_t :=
  {| c_cur := c_cur r; id_column := id_column r; data_column := data_column r;
     name_column := name_column r; c_count := c_count r; index := index r;
     name := Some n; len := l; written := written r |}.

Definition set_written (r : ecs_component_reader_t) (w : Z)
  : ecs_component_reader_t :=
  {| c_cur := c_cur r; id_column := id_column r; data_column := data_column r;
     name_column := name_column r; c_count := c_count r; index := index r;
     name := name r; len := len r; written := w |}.

(** [ecs_component_reader_fetch_component_data]: the component table is
    the first table of the world; its first three columns are read as
    entity ids, [EcsComponent] values and [EcsId] values. *)
Definition ecs_component_reader_fetch_component_data (stream : ecs_stream_t)
  : result ecs_stream_t :=
  let r := component (reader stream) in
  table <- of_option (znth (main_stage_tables (world stream)) 0) ;;
  cols <- of_option (columns table) ;;
  c0 <- of_option (znth cols 0) ;;
  c1 <- of_option (znth cols 1) ;;
  c2 <- of_option (znth cols 2) ;;
  ids <- match data c0 with vector_entities l => Ok l | _ => Undefined end ;;
  sizes <- match data c1 with vector_components l => Ok l | _ => Undefined end ;;
  names <- match data c2 with vector_ids l => Ok l | _ => Undefined end ;;
  Ok (with_component stream
        {| c_cur := c_cur r; id_column := Some ids; data_column := Some sizes;
           name_column := Some names; c_count := ecs_vector_count (data c0);
           index := index r; name := name r; len := len r;
           written := written r |}).

(** [ecs_component_reader_next]. *)
Definition ecs_component_reader_next (stream : ecs_stream_t)
  : result ecs_stream_t :=
  let r := component (reader stream) in
  match c_cur r with
  | EcsComponentHeader =>
      let stream := with_component stream (set_c_cur r EcsComponentId) in
      match id_column r with
      | None =>
          stream <- ecs_component_reader_fetch_component_data stream ;;
          Ok (with_component stream (set_index (component (reader stream)) 0))
      | Some _ => Ok stream
      end
  | EcsComponentId =>
      Ok (with_component stream (set_c_cur r EcsComponentSize))
  | EcsComponentSize =>
      let r := set_c_cur r EcsComponentNameLength in
      names <- of_option (name_column r) ;;
      n <- of_option (znth names (index r)) ;;
      Ok (with_component stream (set_name r n (strlen n + 1)))
  | EcsComponentNameLength =>
      Ok (with_component stream (set_written (set_c_cur r EcsComponentName) 0))
  | EcsComponentName =>
      let r := set_c_cur r EcsComponentHeader in
      let r := set_index r (index r + 1) in
      let stream := with_component stream r in
      if index r =? c_count r then Ok (with_cur stream EcsTableSegment)
      else Ok stream
  | _ => Abort ECS_INTERNAL_ERROR
  end.

(** [ecs_component_reader]; [off] is the offset of its [buffer] argument
    in the caller's buffer.  The result is the value returned, the buffer
    and the stream. *)
Definition ecs_component_reader (buffer : list Z) (off size : Z)
    (stream : ecs_stream_t) : result (Z * list Z * ecs_stream_t) :=
  if size =? 0 then Ok (0, buffer, stream)
  else if size <? sizeof_int32 then Ok (SIZE_MAX, buffer, stream)
  else
    let stream :=
      if kind_eqb (c_cur (component (reader stream))) EcsKindZero
      then with_component stream
             (set_c_cur (component (reader stream)) EcsComponentHeader)
      else stream in
    let r := component (reader stream) in
    match c_cur r with
    | EcsComponentHeader =>
        buffer <- write_bytes buffer off
                    (int32_bytes (kind_code EcsComponentHeader)) ;;
        stream <- ecs_component_reader_next stream ;;
        Ok (sizeof_kind, buffer, stream)
    | EcsComponentId =>
        ids <- of_option (id_column r) ;;
        v <- of_option (znth ids (index r)) ;;
        buffer <- write_bytes buffer off (int32_bytes v) ;;
        stream <- ecs_component_reader_next stream ;;
        Ok (sizeof_int32, buffer, stream)
    | EcsComponentSize =>
        sizes <- of_option (data_column r) ;;
        v <- of_option (znth sizes (index r)) ;;
        buffer <- write_bytes buffer off (int32_bytes v) ;;
        stream <- ecs_component_reader_next stream ;;
        Ok (sizeof_int32, buffer, stream)
    | EcsComponentNameLength =>
        buffer <- write_bytes buffer off (int32_bytes (len r)) ;;
        stream <- ecs_component_reader_next stream ;;
        Ok (sizeof_int32, buffer, stream)
    | EcsComponentName =>
        let read := len r - written r in
        let read := if size <? read then size else read in
        n <- of_option (name r) ;;
        bs <- read_bytes (c_string n) (written r) read ;;
        buffer <- write_bytes buffer off bs ;;
        let r := set_written r (written r + read) in
        let stream := with_component stream r in
        ecs_assert (written r <=? len r) ECS_INTERNAL_ERROR ;;;
        stream <- (if written r =? len r
                   then ecs_component_reader_next stream
                   else Ok stream) ;;
        Ok (read, buffer, stream)
    | _ => Abort ECS_INTERNAL_ERROR
    end.

(** ** The table segment *)

Definition set_t_cur (r : ecs_table_reader_t) (k : ecs_blob_header_kind_t)
  : ecs_table_reader_t :=
  {| t_cur := k; table_index := table_index r; table := table r;
     t_columns := t_columns r; t_type := t_type r;
     type_index := type_index r; total_columns := total_columns r;
     column_index := column_index r; column := column r;
     column_size := column_size r; column_data := column_data r;
     column_written := column_written r |}.

(** The [do ... while (!reader->columns)] loop: [rest] are the tables from
    [table_index] on. *)
Fixpoint next_table (rest : list ecs_table_t) (table_index : Z)
  : result (ecs_table_t * list ecs_table_column_t * Z) :=
  match rest with
  | [] => Undefined
  | t :: rest' =>
      match columns t with
      | Some cols => Ok (t, cols, table_index + 1)
      | None => next_table rest' (table_index + 1)
      end
  end.

(** [ecs_table_reader_next]. *)
Definition ecs_table_reader_next (stream : ecs_stream_t)
  : result ecs_stream_t :=
  let r := table_reader (reader stream) in
  let tabs := tables (reader stream) in
  match t_cur r with
  | EcsTableHeader =>
      if table_index r <? 0 then Undefined else
      found <- next_table (skipn (Z.to_nat (table_index r)) tabs)
                 (table_index r) ;;
      let '(t, cols, ti) := found in
      Ok (with_table_reader stream
            {| t_cur := EcsTableTypeSize; table_index := ti;
               table := Some t; t_columns := Some cols; t_type := type t;
               type_index := 0;
               total_columns := Z.of_nat (List.length (type t)) + 1;
               column_index := 0; column := column r;
               column_size := column_size r; column_data := column_data r;
               column_written := column_written r |})
  | EcsTableTypeSize =>
      Ok (with_table_reader stream (set_t_cur r EcsTableType))
  | EcsTableType =>
      let ti := type_index r + 1 in
      Ok (with_table_reader stream
            {| t_cur := if ti =? Z.of_nat (List.length (t_type r))
                        then EcsTableSize else t_cur r;
               table_index := table_index r; table := table r;
               t_columns := t_columns r; t_type := t_type r;
               type_index := ti; total_columns := total_columns r;
               column_index := column_index r; column := column r;
               column_size := column_size r; column_data := column_data r;
               column_written := column_written r |})
  | EcsTableSize =>
      Ok (with_table_reader stream (set_t_cur r EcsTableColumnHeader))
  | EcsTableColumnHeader =>
      cols <- of_option (t_columns r) ;;
      c <- of_option (znth cols (column_index r)) ;;
      Ok (with_table_reader stream
            {| t_cur := EcsTableColumnSize; table_index := table_index r;
               table := table r; t_columns := t_columns r;
               t_type := t_type r; type_index := type_index r;
               total_columns := total_columns r;
               column_index := column_index r; column := Some c;
               column_size := ecs_vector_count (data c) * size c;
               column_data := column_data r;
               column_written := column_written r |})
  | EcsTableColumnSize =>
      c <- of_option (column r) ;;
      Ok (with_table_reader stream
            {| t_cur := EcsTableColumnData; table_index := table_index r;
               table := table r; t_columns := t_columns r;
               t_type := t_type r; type_index := type_index r;
               total_columns := total_columns r;
               column_index := column_index r; column := column r;
               column_size := column_size r;
               column_data := vector_bytes (data c);
               column_written := 0 |})
  | EcsTableColumnData =>
      let ci := column_index r + 1 in
      let r' k :=
        {| t_cur := k; table_index := table_index r;
           table := table r; t_columns := t_columns r;
           t_type := t_type r; type_index := type_index r;
           total_columns := total_columns r;
           column_index := ci; column := column r;
           column_size := column_size r; column_data := column_data r;
           column_written := column_written r |} in
      if ci =? total_columns r then
        let stream := with_table_reader stream (r' EcsTableHeader) in
        if table_index r =? Z.of_nat (List.length tabs)
        then Ok (with_cur stream EcsFooterSegment)
        else Ok stream
      else Ok (with_table_reader stream (r' EcsTableColumnHeader))
  | _ => Abort ECS_INTERNAL_ERROR
  end.

(** [ecs_table_reader]. *)
Definition ecs_table_reader (buffer : list Z) (off size : Z)
    (stream : ecs_stream_t) : result (Z * list Z * ecs_stream_t) :=
  if size =? 0 then Ok (0, buffer, stream)
  else if size <? sizeof_int32 then Ok (SIZE_MAX, buffer, stream)
  else
    let stream :=
      if kind_eqb (t_cur (table_reader (reader stream))) EcsKindZero
      then with_table_reader stream
             (set_t_cur (table_reader (reader stream)) EcsTableHeader)
      else stream in
    let r := table_reader (reader stream) in
    match t_cur r with
    | EcsTableHeader =>
        buffer <- write_bytes buffer off
                    (int32_bytes (kind_code EcsTableHeader)) ;;
        stream <- ecs_table_reader_next stream ;;
        Ok (sizeof_kind, buffer, stream)
    | EcsTableTypeSize =>
        buffer <- write_bytes buffer off
                    (int32_bytes (Z.of_nat (List.length (t_type r)))) ;;
        stream <- ecs_table_reader_next stream ;;
        Ok (sizeof_int32, buffer, stream)
    | EcsTableType =>
        v <- of_option (znth (t_type r) (type_index r)) ;;
        buffer <- write_bytes buffer off (int32_bytes v) ;;
        stream <- ecs_table_reader_next stream ;;
        Ok (sizeof_int32, buffer, stream)
    | EcsTableSize =>
        t <- of_option (table r) ;;
        cols <- of_option (columns t) ;;
        c0 <- of_option (znth cols 0) ;;
        buffer <- write_bytes buffer off
                    (int32_bytes (ecs_vector_count (data c0))) ;;
        stream <- ecs_table_reader_next stream ;;
        Ok (sizeof_int32, buffer, stream)
    | EcsTableColumnHeader =>
        buffer <- write_bytes buffer off
                    (int32_bytes (kind_code EcsTableColumnHeader)) ;;
        stream <- ecs_table_reader_next stream ;;
        Ok (sizeof_kind, buffer, stream)
    | EcsTableColumnSize =>
        buffer <- write_bytes buffer off (int32_bytes (column_size r)) ;;
        stream <- ecs_table_reader_next stream ;;
        Ok (sizeof_kind, buffer, stream)
    | EcsTableColumnData =>
        let read := column_size r - column_written r in
        let read := if size <? read then size else read in
        bs <- read_bytes (column_data r) (column_written r) read ;;
        buffer <- write_bytes buffer off bs ;;
        let r :=
          {| t_cur := t_cur r; table_index := table_index r;
             table := table r; t_columns := t_columns r;
             t_type := t_type r; type_index := type_index r;
             total_columns := total_columns r;
             column_index := column_index r; column := column r;
             column_size := column_size r; column_data := column_data r;
             column_written := column_written r + read |} in
        let stream := with_table_reader stream r in
        ecs_assert (column_written r <=? column_size r)
          ECS_INTERNAL_ERROR ;;;
        stream <- (if column_written r =? column_size r
                   then ecs_table_reader_next stream
                   else Ok stream) ;;
        Ok (read, buffer, stream)
    | _ => Abort ECS_INTERNAL_ERROR
    end.

(** ** [ecs_stream_read] *)

(** The local variables of [ecs_stream_read] together with the buffer and
    the stream. *)
Record read_state : Type := {
  read : Z;
  total_read : Z;
  remaining : Z;
  buf : list Z;
  st : ecs_stream_t
}.

(** The first [while] loop; [None] when [fuel] iterations do not end it. *)
Fixpoint component_loop (fuel : nat) (s : read_state)
  : option (result read_state) :=
  match fuel with
  | O => None
  | S fuel' =>
      match ecs_component_reader (buf s) (total_read s) (remaining s) (st s) with
      | Ok (rd, buffer, stream) =>
          if rd =? 0 then
            Some (Ok {| read := rd; total_read := total_read s;
                        remaining := remaining s; buf := buffer;
                        st := stream |})
          else if rd =? SIZE_MAX then
            Some (Ok {| read := rd; total_read := total_read s;
                        remaining := remaining s; buf := buffer;
                        st := stream |})
          else
            let s' := {| read := rd;
                         total_read := size_add (total_read s) rd;
                         remaining := size_sub (remaining s) rd;
                         buf := buffer; st := stream |} in
            if negb (kind_eqb (cur (reader stream)) EcsComponentSegment)
            then Some (Ok s')
            else component_loop fuel' s'
      | Abort e => Some (Abort e)
      | Undefined => Some Undefined
      end
  end.

(** The second [while] loop. *)
Fixpoint table_loop (fuel : nat) (s : read_state)
  : option (result read_state) :=
  match fuel with
  | O => None
  | S fuel' =>
      match ecs_table_reader (buf s) (total_read s) (remaining s) (st s) with
      | Ok (rd, buffer, stream) =>
          if rd =? 0 then
            Some (Ok {| read := rd; total_read := total_read s;
                        remaining := remaining s; buf := buffer;
                        st := stream |})
          else
            let s' := {| read := rd;
                         total_read := size_add (total_read s) rd;
                         remaining := size_sub (remaining s) rd;
                         buf := buffer; st := stream |} in
            if negb (kind_eqb (cur (reader stream)) EcsTableSegment)
            then Some (Ok s')
            else table_loop fuel' s'
      | Abort e => Some (Abort e)
      | Undefined => Some Undefined
      end
  end.

(** The [if (reader->cur == EcsTableSegment)] part and the final
    [return]. *)
Definition table_part (fuel : nat) (s : read_state)
  : option (result (Z * list Z * ecs_stream_t)) :=
  if kind_eqb (cur (reader (st s))) EcsTableSegment then
    match table_loop fuel s with
    | Some (Ok s') => Some (Ok (total_read s', buf s', st s'))
    | Some (Abort e) => Some (Abort e)
    | Some Undefined => Some Undefined
    | None => None
    end
  else Some (Ok (total_read s, buf s, st s)).

(** [ecs_stream_read]: the number of bytes reported, the buffer and the
    stream afterwards. *)
Definition ecs_stream_read (fuel : nat) (buffer : list Z) (size : Z)
    (stream : ecs_stream_t) : option (result (Z * list Z * ecs_stream_t)) :=
  if size =? 0 then Some (Ok (0, buffer, stream))
  else if negb (sizeof_int32 <=? size) then Some (Abort ECS_INVALID_PARAMETER)
  else
    let s0 := {| read := 0; total_read := 0; remaining := size;
                 buf := buffer; st := stream |} in
    if kind_eqb (cur (reader stream)) EcsComponentSegment then
      match component_loop fuel s0 with
      | Some (Ok s) =>
          if read s =? SIZE_MAX then Some (Ok (total_read s, buf s, st s))
          else
            let s :=
              if (read s =? 0) && negb (remaining s =? 0)
              then {| read := read s; total_read := total_read s;
                      remaining := remaining s; buf := buf s;
                      st := with_cur (st s) EcsTableSegment |}
              else s in
            table_part fuel s
      | Some (Abort e) => Some (Abort e)
      | Some Undefined => Some Undefined
      | None => None
      end
    else table_part fuel s0.

(** ** The bytes of the component segment *)

(** What the five states of the component reader write for one component:
    the header kind, the id, the size, the length of the name with its
    terminating zero, and the name. *)
Definition component_record (id size : Z) (name : string) : list Z :=
  int32_bytes (kind_code EcsComponentHeader) ++ int32_bytes id
  ++ int32_bytes size ++ int32_bytes (strlen name + 1) ++ c_string name.

(** The component segment: the records of all components, in the order of
    the component table. *)
Fixpoint component_segment (ids sizes : list Z) (names : list string)
  : list Z :=
  match ids, sizes, names with
  | id :: ids', size :: sizes', name :: names' =>
      component_record id size name ++ component_segment ids' sizes' names'
  | _, _, _ => []
  end.

End Readers.

End Stream.

(** * Concrete inputs *)

(** The inputs at which the statements below are evaluated. *)
Module Inputs.
Import Cpp.

Definition Position : cpp_type := TBase 0.
Definition Velocity : cpp_type := TBase 1.

Definition sizeof8 : cpp_type -> Z := fun _ => 8.

(** [Position] is registered as entity 5 and [Velocity] as entity 7, each
    with its const and reference spellings. *)
Definition registered (t : cpp_type) (e : entity_t) (n : string)
    (reg : statics) : statics :=
  init_existing
    (init_existing (init_existing reg t e [e] (Some n))
       (add_const t) e [e] (Some n))
    (add_lvalue_reference t) e [e] (Some n).

Definition reg57 : statics :=
  registered Velocity 7 "Velocity" (registered Position 5 "Position" statics_zero).

(** A batch of three entities; every column holds [Position] (entity 5). *)
Definition rows_of (is_shared is_readonly : bool) : ecs_rows_t :=
  {| count := 3;
     ecs_column_entity := fun _ => 5;
     ecs_is_shared := fun _ => is_shared;
     ecs_is_readonly := fun _ => is_readonly;
     _ecs_column := fun _ column => 4096 * column;
     _ecs_field := fun size column row => 4096 * column + size * row |}.

(** The names under which [reg57] holds the two components. *)
Definition name57 (t : cpp_type) : string :=
  match t with
  | TBase 0 | TConst (TBase 0) | TRef (TBase 0) => "Position"
  | _ => "Velocity"
  end.

(** An iterator over three entities with an owned first term, an optional
    second term without a column and a third term matched on another
    entity. *)
Definition iter3 : Invoker.ecs_iter_t :=
  {| Invoker.count := 3;
     Invoker.entity := fun row => 100 + row;
     Invoker.populate_w_refs :=
       ([ {| Invoker.ptr := 4096; Invoker.is_ref := false |};
          {| Invoker.ptr := NULL; Invoker.is_ref := false |};
          {| Invoker.ptr := 8192; Invoker.is_ref := true |} ], true) |}.

End Inputs.

Module ObserverInputs.
Import Observer.

Definition EcsThis : entity_t := 1.
Definition MAX : Z := 16.
Definition type_from_id (_ : ecs_world_t) (id : Z) : type_t := [id].
Definition no_wildcard (_ : Z) : bool := false.
Definition match_type (_ : ecs_world_t) (f : ecs_filter_t) (type : type_t)
  : bool := filter_match_type_exact f type.

(** Components [A] (id 10) and [B] (id 20); the filter [A || B]: both
    terms are alternatives of one group and stand for term 0 of the
    iterator. *)
Definition A : Z := 10.
Definition B : Z := 20.

Definition filter_A_or_B : ecs_filter_t :=
  {| terms := [ {| id := A; index := 0; oper := EcsOr; args0_entity := EcsThis |};
                {| id := B; index := 0; oper := EcsOr; args0_entity := EcsThis |} ];
     term_count_actual := 1 |}.

(** The filter [A, B] with a slot for each term. *)
Definition filter_A_and_B : ecs_filter_t :=
  {| terms := [ {| id := A; index := 0; oper := EcsAnd; args0_entity := EcsThis |};
                {| id := B; index := 1; oper := EcsAnd; args0_entity := EcsThis |} ];
     term_count_actual := 2 |}.

Definition observer_of (f : ecs_filter_t) : ecs_observer_t :=
  {| o_id := 1; filter := f; triggers := Some [501; 502]; action := 77;
     o_entity := 400; o_self := 0; o_ctx := 9000; binding_ctx := 0;
     ctx_free := 0; binding_ctx_free := 0; event_count := 0; events := [] |}.

(** A table of type [[A; B]] with data in both columns. *)
Definition table_AB : ecs_table_t :=
  {| type := [A; B]; column_count := 2;
     data_columns := [ {| size := 8 |}; {| size := 8 |} ] |}.

Definition world0 : ecs_world_t :=
  {| is_fini := false; observers := [];
     observer_components := fun _ => None; calls := [] |}.

(** What the stack arrays hold before they are filled. *)
Definition stack0 : iter_arrays :=
  {| ids := fun _ => -1; columns := fun _ => -1; types := fun _ => [] |}.

(** The event: [A] was added to an entity of [table_AB]; the trigger of
    term 0 fired. *)
Definition event_A : ecs_iter_t :=
  {| table := Some {| it_table := Some table_AB; it_columns := fun _ => 0;
                      it_components := fun _ => 0; it_types := fun _ => [] |};
     event_id := A; term_index := 0; system := 0; self := 0; ctx := 0;
     column_count_it := 0; table_columns := [] |}.

Definition callback (f : ecs_filter_t) : result (option (Z * ecs_iter_t)) :=
  observer_callback EcsThis MAX type_match_exact type_from_id no_wildcard
    match_type world0 (observer_of f) stack0 event_A.

(** A description whose filter does not parse, for a new entity 400. *)
Definition desc_bad : ecs_observer_desc_t unit :=
  {| d_entity := {| de_entity := 0; de_name := Some "Watcher"%string |};
     d_filter := {| fd_name := None; fd_body := tt |};
     d_events := []; d_callback := 77; d_self := 0; d_ctx := 9000;
     d_binding_ctx := 0; d_ctx_free := 0; d_binding_ctx_free := 0 |}.

Definition entity_init (_ : ecs_world_t) (_ : ecs_entity_desc_t) : entity_t := 400.
Definition trigger_init (_ : ecs_world_t) (_ : ecs_trigger_desc_t) : entity_t := 500.

(** A zeroed slot with the next free id. *)
Definition sparse_add (l : list (Z * ecs_observer_t)) : Z * ecs_observer_t :=
  (Z.of_nat (List.length l) + 1,
   {| o_id := 0; filter := {| terms := []; term_count_actual := 0 |};
      triggers := None; action := 0; o_entity := 0; o_self := 0; o_ctx := 0;
      binding_ctx := 0; ctx_free := 0; binding_ctx_free := 0;
      event_count := 0; events := [] |}).

(** A parser that rejects every description and leaves an empty filter. *)
Definition filter_init_fails (_ : ecs_world_t) (_ : ecs_filter_desc_t unit)
  : Z * ecs_filter_t := (-1, {| terms := []; term_count_actual := 0 |}).

(** Modelled from the spec: [ecs_get_mut] is not among the sources;
    section 4.4 has [set] "ensure [add]": the component is added when the
    entity does not have it, which [added] reports. *)
Definition get_mut (w : ecs_world_t) (e : entity_t)
  : ecs_world_t * EcsObserver * bool :=
  match observer_components w e with
  | Some c => (w, c, false)
  | None => (with_component w e {| observer := None |},
             {| observer := None |}, true)
  end.

End ObserverInputs.

Module StreamInputs.
Import Stream.

(** The enumerators numbered in the order of their declaration. *)
Definition kind_code (k : ecs_blob_header_kind_t) : Z :=
  match k with
  | EcsKindZero => 0
  | EcsComponentSegment => 1
  | EcsTableSegment => 2
  | EcsFooterSegment => 3
  | EcsComponentHeader => 4
  | EcsComponentId => 5
  | EcsComponentSize => 6
  | EcsComponentNameLength => 7
  | EcsComponentName => 8
  | EcsTableHeader => 9
  | EcsTableTypeSize => 10
  | EcsTableType => 11
  | EcsTableSize => 12
  | EcsTableColumnHeader => 13
  | EcsTableColumnSize => 14
  | EcsTableColumnData => 15
  end.

(** Only raw vectors are copied in what follows. *)
Definition vector_bytes (v : ecs_vector_t) : list Z :=
  match v with
  | vector_raw _ bytes => bytes
  | _ => []
  end.

(** A world whose component table holds one component: entity 1, of size
    4, named ["A"]. *)
Definition component_table : ecs_table_t :=
  {| type := [1; 2; 6];
     columns := Some [ {| data := vector_entities [1]; size := 8 |};
                       {| data := vector_components [4]; size := 4 |};
                       {| data := vector_ids ["A"%string]; size := 8 |} ] |}.

Definition world1 : ecs_world_t := {| main_stage_tables := [component_table] |}.

Definition snapshot1 : ecs_snapshot_t :=
  {| snapshot_tables := [component_table] |}.

(** A caller's buffer of [n] bytes, filled with 255. *)
Definition fresh_buffer (n : nat) : list Z := repeat 255 n.

(** The first call of [ecs_stream_read] on a newly opened stream with a
    buffer of [size] bytes: the value returned, the buffer, and the
    segment the stream is in afterwards. *)
Definition first_read (size : Z)
  : option (Z * list Z * ecs_blob_header_kind_t) :=
  match ecs_stream_read kind_code vector_bytes 16
          (fresh_buffer (Z.to_nat size)) size
          (ecs_stream_open world1 snapshot1) with
  | Some (Ok (n, buffer, stream)) => Some (n, buffer, cur (reader stream))
  | _ => None
  end.

(** Calls of [ecs_stream_read] one after the other, each with a fresh
    buffer of the given size: what each call returns and leaves in its
    buffer, and the segment the stream is in at the end. *)
Fixpoint reads (sizes : list Z) (stream : ecs_stream_t)
  : option (list (Z * list Z) * ecs_blob_header_kind_t) :=
  match sizes with
  | [] => Some ([], cur (reader stream))
  | size :: sizes' =>
      match ecs_stream_read kind_code vector_bytes 16
              (fresh_buffer (Z.to_nat size)) size stream with
      | Some (Ok (n, buffer, stream')) =>
          match reads sizes' stream' with
          | Some (l, k) => Some ((n, buffer) :: l, k)
          | None => None
          end
      | _ => None
      end
  end.

End StreamInputs.

(** * More of the C++ wrapper *)

(** ** [range_iterator], the row range of [rows], [entity_range] *)
Module Ranges.

Record range_iterator : Type := { m_value : Z }.

(** [range_iterator::operator!=]. *)
Definition neq (a b : range_iterator) : bool :=
  negb (m_value a =? m_value b).

(** [range_iterator::operator*]. *)
Definition deref (a : range_iterator) : Z := m_value a.

(** [++m_value] for [range_iterator<int>]: past [INT_MAX] the increment is
    not defined. *)
Definition incr_int (v : Z) : result Z :=
  if v <? 2 ^ 31 - 1 then Ok (v + 1) else Undefined.

(** [++m_value] for [range_iterator<entity_t>]: unsigned, 64 bits. *)
Definition incr_entity (v : Z) : result Z := Ok ((v + 1) mod 2 ^ 64).

(** [range_iterator::operator++]. *)
Definition next (incr : Z -> result Z) (a : range_iterator)
  : result range_iterator :=
  v <- incr (m_value a) ;; Ok {| m_value := v |}.

(** The range-based [for] over [begin .. end]: [body] is run on every
    value until the iterator equals [end]; [None] when [fuel] iterations do
    not get there. *)
Fixpoint range_for {S : Type} (fuel : nat) (incr : Z -> result Z)
    (body : S -> Z -> S) (it last : range_iterator) (s : S)
  : option (result S) :=
  match fuel with
  | O => None
  | S fuel' =>
      if neq it last then
        let s := body s (deref it) in
        match next incr it with
        | Ok it' => range_for fuel' incr body it' last s
        | Abort e => Some (Abort e)
        | Undefined => Some Undefined
        end
      else Some (Ok s)
  end.

(** A [uint32_t] converted to [int]. *)
Definition to_int (x : Z) : Z := if x <? 2 ^ 31 then x else x - 2 ^ 32.

(** [rows::begin] and [rows::end]: [m_begin] is 0 and [m_end] the row
    count, both [uint32_t]. *)
Definition rows_begin (r : Cpp.ecs_rows_t) : range_iterator :=
  {| m_value := to_int 0 |}.

Definition rows_end (r : Cpp.ecs_rows_t) : range_iterator :=
  {| m_value := to_int (Cpp.count r mod 2 ^ 32) |}.

(** [for (auto row : rows)]. *)
Definition for_rows {S : Type} (fuel : nat) (body : S -> Z -> S)
    (r : Cpp.ecs_rows_t) (s : S) : option (result S) :=
  range_for fuel incr_int body (rows_begin r) (rows_end r) s.

(** [entity_range]: [m_count] is an [int32_t]. *)
Record entity_range : Type := {
  m_id_start : entity_t;
  m_count : Z
}.

Definition range_begin (r : entity_range) : range_iterator :=
  {| m_value := m_id_start r |}.

(** [m_id_start + m_count] in [entity_t]. *)
Definition range_end (r : entity_range) : range_iterator :=
  {| m_value := (m_id_start r + m_count r) mod 2 ^ 64 |}.

(** [entity_range::invoke]: [action] is run on the world for each id. *)
Definition invoke {W : Type} (fuel : nat) (action : W -> entity_t -> W)
    (r : entity_range) (world : W) : option (result W) :=
  range_for fuel incr_entity action (range_begin r) (range_end r) world.

(** [entity_fluent<entity_range>::add(entity_t)]. *)
Definition add {W : Type} (fuel : nat)
    (ecs_add_entity : W -> entity_t -> entity_t -> W)
    (r : entity_range) (e : entity_t) (world : W) : option (result W) :=
  invoke fuel (fun w id => ecs_add_entity w id e) r world.

(** The ids of a range of [n] entities from [start] on. *)
Definition ids_from (start : entity_t) (n : nat) : list entity_t :=
  map (fun k => (start + Z.of_nat k) mod 2 ^ 64) (seq 0 n).

End Ranges.

(** ** [world]: who finalizes *)
Module WorldHandle.

Record world : Type := {
  m_world : pointer;
  m_owner : bool
}.

(** [world()], with the pointer that [ecs_init] returned. *)
Definition create (p : pointer) : world := {| m_world := p; m_owner := true |}.

(** [world(world_t* world)]. *)
Definition wrap (p : pointer) : world := {| m_world := p; m_owner := false |}.

(** [world(const world&)]. *)
Definition copy (obj : world) : world :=
  {| m_world := m_world obj; m_owner := false |}.

(** [world(world&&)]: the new object and what is left of [obj]. *)
Definition move (obj : world) : world * world :=
  ({| m_world := m_world obj; m_owner := true |},
   {| m_world := m_world obj; m_owner := false |}).

(** [operator=(const world&)]: [this] afterwards. *)
Definition assign (this obj : world) : world :=
  {| m_world := m_world obj; m_owner := false |}.

(** [operator=(world&&)]: [this] and [obj] afterwards. *)
Definition move_assign (this obj : world) : world * world :=
  ({| m_world := m_world obj; m_owner := true |},
   {| m_world := m_world obj; m_owner := false |}).

(** [~world]: the worlds handed to [ecs_fini]. *)
Definition destroy (w : world) : list pointer :=
  if m_owner w then [m_world w] else [].

(** The destructors of several objects, one after the other. *)
Definition destroy_all (ws : list world) : list pointer :=
  flat_map destroy ws.

End WorldHandle.

(** ** [type]: the other [add] overloads and the two syncs *)
Module TypeOps.
Import Cpp.

(** [type::sync_from_flecs]. *)
Definition sync_from_flecs (store : type_store) (t : type) : type :=
  match store (m_id t) with
  | Some tc => {| m_id := m_id t; m_type := tc_type tc;
                  m_normalized := tc_resolved tc |}
  | None => t
  end.

Section Adds.

Variable world_t : Type.
Variable ecs_type_add : world_t -> type_t -> entity_t -> type_t.
Variable ecs_type_merge : world_t -> type_t -> type_t -> type_t.

(** [type::add(const entity&)] and [type::add<T>()], with the id of the
    entity resp. [component_base<T>::s_entity]. *)
Definition add_entity (world : world_t) (store : type_store) (t : type)
    (id : entity_t) : type * type_store :=
  let t' := {| m_id := m_id t;
               m_type := ecs_type_add world (m_type t) id;
               m_normalized := ecs_type_add world (m_normalized t) id |} in
  (t', sync_from_me store t').

(** [type::add(const type&)]: [other] is the type that is added. *)
Definition add_type (world : world_t) (store : type_store) (t other : type)
  : type * type_store :=
  let t' := {| m_id := m_id t;
               m_type := ecs_type_add world (m_type t) (m_id other);
               m_normalized :=
                 ecs_type_merge world (m_normalized t) (m_type other) |} in
  (t', sync_from_me store t').

(** The four operations that extend a type. *)
Inductive extends (world : world_t) (store : type_store) (t : type)
  : type * type_store -> Prop :=
| by_entity (id : entity_t) :
    extends world store t (add_entity world store t id)
| by_type (other : type) :
    extends world store t (add_type world store t other)
| by_instanceof (id : entity_t) :
    extends world store t (add_instanceof world_t ecs_type_add world store t id)
| by_childof (id : entity_t) :
    extends world store t (add_childof world_t ecs_type_add world store t id).

End Adds.

End TypeOps.

(** ** [system_ctx]: the columns a system action is given *)
Module SystemCtx.
Import Cpp.

Section Run.

Variable sizeof : cpp_type -> Z.

(** [system_ctx::populate_columns]: [comps] are the null pointers of type
    [remove_reference<Components>::type *], named by their pointee. *)
Fixpoint populate_columns (rows : ecs_rows_t) (index : Z)
    (columns : Z -> pointer) (comps : list cpp_type) : Z -> pointer :=
  match comps with
  | [] => columns
  | comp :: comps' =>
      populate_columns rows (index + 1)
        (upd columns index (_ecs_column rows (sizeof comp) (index + 1)))
        comps'
  end.

(** The recursion of [system_ctx::call_system] that moves [columns[index]]
    into the parameter pack, as long as the pack is shorter than
    [Components]; [todo] counts what is missing. *)
Fixpoint call_system_pack (index : Z) (columns : Z -> pointer) (todo : nat)
    (comps : list pointer) : list pointer :=
  match todo with
  | O => comps
  | S todo' =>
      call_system_pack (index + 1) columns todo' (comps ++ [columns index])
  end.

(** The [flecs::column] arguments of the call of the system's function. *)
Definition call_system (rows : ecs_rows_t) (Components : list cpp_type)
    (columns : Z -> pointer) : list column :=
  let comps :=
    call_system_pack 0 columns (List.length Components) [] in
  map (fun cp => {| elem_type := Invoker.remove_reference_t (fst cp);
                    m_array := snd cp;
                    m_count := count rows |})
      (combine Components comps).

(** [system_ctx::run]; [columns] is the local array as allocated. *)
Definition run (rows : ecs_rows_t) (Components : list cpp_type)
    (columns : Z -> pointer) : list column :=
  let columns :=
    populate_columns rows 0 columns
      (map Invoker.remove_reference_t Components) in
  call_system rows Components columns.

End Run.

End SystemCtx.

(** * [flecs/cpp/invoker.hpp]: [entity_with_invoker_impl] *)
Module EntityWith.

Section Impl.

(** The world and what the C API answers in it.  Records and tables are
    named by their addresses, [NULL] for none; [record_table] is
    [r->table]. *)
Variable world_t : Type.
Variable ecs_record_find : world_t -> entity_t -> pointer.
Variable record_table : world_t -> pointer -> pointer.
Variable ecs_table_get_type : world_t -> pointer -> option type_t.
Variable ecs_type_index_of : type_t -> entity_t -> Z.
Variable ecs_record_get_column : world_t -> pointer -> Z -> Z -> pointer.
Variable is_deferred : world_t -> bool.
Variable ecs_table_add_id : world_t -> pointer -> entity_t -> world_t * pointer.
Variable ecs_commit :
  world_t -> entity_t -> pointer -> pointer -> list entity_t -> world_t.
Variable ecs_get_mut_w_id : world_t -> entity_t -> entity_t -> world_t * pointer.
Variable ecs_modified_w_id : world_t -> entity_t -> entity_t -> world_t.

(** The function the user passes in: it is given the locations of the
    components and may change the world. *)
Variable func : world_t -> list pointer -> world_t.

(** The loop of [get_ptrs] over the column indices; [i] is the next entry
    of [ptrs]. *)
Fixpoint get_ptrs_loop (w : world_t) (r : pointer) (columns : list Z) (i : Z)
    (ptrs : Z -> pointer) : bool * (Z -> pointer) :=
  match columns with
  | [] => (true, ptrs)
  | column :: columns' =>
      if column =? -1 then (false, ptrs)
      else
        get_ptrs_loop w r columns' (i + 1)
          (upd ptrs i (ecs_record_get_column w r column 0))
  end.

(** [get_ptrs]; [ids] are the ids [w.id<Args>()]. *)
Definition get_ptrs (w : world_t) (ids : list entity_t) (r table : pointer)
    (ptrs : Z -> pointer) : result (bool * (Z -> pointer)) :=
  ecs_assert (negb (table =? NULL)) ECS_INTERNAL_ERROR ;;;
  match ecs_table_get_type w table with
  | None => Ok (false, ptrs)
  | Some type =>
      let columns := map (ecs_type_index_of type) ids in
      Ok (get_ptrs_loop w r columns 0 ptrs)
  end.

(** The recursion of [invoke_callback] that moves [ptrs[arg]] into the
    parameter pack. *)
Fixpoint invoke_callback_pack (arg : Z) (ptrs : Z -> pointer) (todo : nat)
    (comps : list pointer) : list pointer :=
  match todo with
  | O => comps
  | S todo' =>
      invoke_callback_pack (arg + 1) ptrs todo' (comps ++ [ptrs arg])
  end.

(** [invoke_callback]: the call of the user's function. *)
Definition invoke_callback (w : world_t) (ids : list entity_t)
    (ptrs : Z -> pointer) : world_t :=
  func w (invoke_callback_pack 0 ptrs (List.length ids) []).

(** [invoke_get]; [ptrs] is the local array as allocated. *)
Definition invoke_get (w : world_t) (ids : list entity_t) (id : entity_t)
    (ptrs : Z -> pointer) : result (world_t * bool) :=
  let r := ecs_record_find w id in
  if r =? NULL then Ok (w, false)
  else
    let table := record_table w r in
    if table =? NULL then Ok (w, false)
    else
      found <- get_ptrs w ids r table ptrs ;;
      let '(ok, ptrs) := found in
      if negb ok then Ok (w, false)
      else Ok (invoke_callback w ids ptrs, true).

(** Where the components [ids] of entity [id] are, when the entity has a
    record with a table whose type holds them all. *)
Definition locations (w : world_t) (ids : list entity_t) (id : entity_t)
  : option (list pointer) :=
  let r := ecs_record_find w id in
  if (r =? NULL) || (record_table w r =? NULL) then None
  else
    match ecs_table_get_type w (record_table w r) with
    | None => None
    | Some type =>
        if forallb (fun c => negb (ecs_type_index_of type c =? -1)) ids
        then Some (map (fun c =>
                          ecs_record_get_column w r (ecs_type_index_of type c) 0)
                       ids)
        else None
    end.

(** [store_added]. *)
Definition store_added (added : Z -> entity_t) (elem : Z) (prev next : pointer)
    (id : entity_t) : (Z -> entity_t) * Z :=
  if negb (prev =? next) then (upd added elem id, elem + 1)
  else (added, elem).

(** The pack expansion [dummy_before] of [invoke_get_mut]: for each id, in
    order, the table with the id added is looked up, the id is stored when
    the table differs, and the search goes on from that table. *)
Fixpoint add_ids (w : world_t) (ids : list entity_t) (prev next : pointer)
    (added : Z -> entity_t) (elem : Z)
  : world_t * pointer * pointer * (Z -> entity_t) * Z :=
  match ids with
  | [] => (w, prev, next, added, elem)
  | id :: ids' =>
      let '(w, next) := ecs_table_add_id w prev id in
      let '(added, elem) := store_added added elem prev next id in
      add_ids w ids' next next added elem
  end.

(** The ids among [ids] whose addition leads to another table, starting
    from table [prev]. *)
Fixpoint changing_ids (w : world_t) (ids : list entity_t) (prev : pointer)
  : list entity_t :=
  match ids with
  | [] => []
  | id :: ids' =>
      let '(w', next) := ecs_table_add_id w prev id in
      (if prev =? next then [] else [id]) ++ changing_ids w' ids' next
  end.

(** The first [elem] entries of an array. *)
Definition array_prefix {A : Type} (a : Z -> A) (elem : Z) : list A :=
  map (fun k => a (Z.of_nat k)) (seq 0 (Z.to_nat elem)).

(** [get_mut_ptrs]. *)
Fixpoint get_mut_ptrs (w : world_t) (e : entity_t) (ids : list entity_t)
    (i : Z) (ptrs : Z -> pointer) : world_t * (Z -> pointer) :=
  match ids with
  | [] => (w, ptrs)
  | id :: ids' =>
      let '(w, p) := ecs_get_mut_w_id w e id in
      get_mut_ptrs w e ids' (i + 1) (upd ptrs i p)
  end.

(** The pack expansion [dummy_after]. *)
Definition modified_all (w : world_t) (id : entity_t) (ids : list entity_t)
  : world_t :=
  fold_left (fun w c => ecs_modified_w_id w id c) ids w.

(** [invoke_get_mut]; [ptrs], [added] are the local arrays as allocated and
    [next0] is what the uninitialised [next] holds. *)
Definition invoke_get_mut (w : world_t) (ids : list entity_t) (id : entity_t)
    (ptrs : Z -> pointer) (added : Z -> entity_t) (next0 : pointer)
  : result (world_t * bool) :=
  found <-
    (if negb (is_deferred w) then
       let r := ecs_record_find w id in
       let table := if negb (r =? NULL) then record_table w r else NULL in
       let '(w, _, next, added, elem) := add_ids w ids table next0 added 0 in
       let '(w, table) :=
         if negb (table =? next)
         then (ecs_commit w id r next (array_prefix added elem), next)
         else (w, table) in
       got <- get_ptrs w ids r table ptrs ;;
       let '(ok, ptrs) := got in
       if negb ok then Abort ECS_INTERNAL_ERROR else Ok (w, ptrs)
     else Ok (get_mut_ptrs w id ids 0 ptrs)) ;;
  let '(w, ptrs) := found in
  let w := invoke_callback w ids ptrs in
  Ok (modified_all w id ids, true).

(** The locations of the components [ids] of record [r] in table [table],
    when the type of the table holds them all. *)
Definition columns_of (w : world_t) (ids : list entity_t) (r table : pointer)
  : option (list pointer) :=
  match ecs_table_get_type w table with
  | None => None
  | Some type =>
      if forallb (fun c => negb (ecs_type_index_of type c =? -1)) ids
      then Some (map (fun c =>
                        ecs_record_get_column w r (ecs_type_index_of type c) 0)
                     ids)
      else None
  end.

(** What [ecs_get_mut_w_id] answers for each of [ids], asked in order. *)
Fixpoint get_mut_all (w : world_t) (e : entity_t) (ids : list entity_t)
  : world_t * list pointer :=
  match ids with
  | [] => (w, [])
  | id :: ids' =>
      let '(w, p) := ecs_get_mut_w_id w e id in
      let '(w, ps) := get_mut_all w e ids' in
      (w, p :: ps)
  end.

End Impl.

End EntityWith.

(** * Notions for the properties of the observer module *)
Module ObserverSpec.
Import Observer.

(** The terms for which [ecs_observer_init] asks for a trigger. *)
Definition wants_trigger (EcsThis : entity_t) (t : ecs_term_t) : bool :=
  negb (oper_eqb (oper t) EcsNot || negb (args0_entity t =? EcsThis)).

Section Obtained.

Variable filter_body : Type.
Variable EcsThis : entity_t.
Variable ecs_trigger_init : ecs_world_t -> ecs_trigger_desc_t -> entity_t.

(** What the calls of [ecs_trigger_init] return that the trigger loop of
    [ecs_observer_init] makes from world [world] on, in the order of the
    calls: one for each term that wants a trigger, each call made in the
    world that the calls before it have left. *)
Fixpoint obtained_triggers (world : ecs_world_t) (observer_id : Z)
    (desc : ecs_observer_desc_t filter_body) (ts : list ecs_term_t)
  : list entity_t :=
  match ts with
  | [] => []
  | t :: ts' =>
      if wants_trigger EcsThis t then
        let trigger_desc :=
          {| td_term := t; td_ctx := observer_id;
             td_binding_ctx := d_binding_ctx desc;
             td_events := d_events desc |} in
        ecs_trigger_init world trigger_desc
        :: obtained_triggers (emit world (call_trigger_init trigger_desc))
             observer_id desc ts'
      else obtained_triggers world observer_id desc ts'
  end.

End Obtained.

(** A column number that an iterator may hand to the user: 0 for no data,
    or one plus the index of a data column of the table whose elements
    have a size. *)
Definition names_data_column (table : ecs_table_t) (c : Z) : Prop :=
  c = 0 \/
  (c <= column_count table /\
   exists column,
     znth (data_columns table) (c - 1) = Some column /\ size column <> 0).

Section Slots.

Variable EcsThis : entity_t.
Variable ecs_type_match : type_t -> Z -> Z -> Z.

(** Whether the loop of [populate_columns] stores entries for term [t] at
    position [i]: it does for a term on another entity, for the term whose
    trigger fired, for a term found in the type of the table and for a
    [Not] term; it stores nothing for any other term that the type does
    not have. *)
Definition term_writes (table : ecs_table_t) (term_index i : Z)
    (t : ecs_term_t) : bool :=
  negb ((args0_entity t =? EcsThis)
        && negb (i =? term_index)
        && (ecs_type_match (type table) 0 (id t) =? -1)
        && negb (oper_eqb (oper t) EcsNot)).

(** Whether one of the terms [ts], at the positions from [i] on, stores
    entries at index [tj] of the arrays. *)
Fixpoint slot_written (table : ecs_table_t) (term_index i : Z)
    (ts : list ecs_term_t) (tj : Z) : bool :=
  match ts with
  | [] => false
  | t :: ts' =>
      ((index t =? tj) && term_writes table term_index i t)
      || slot_written table term_index (i + 1) ts' tj
  end.

End Slots.

End ObserverSpec.
(** * Inputs for the entity invoker and for the life of an observer *)

Module EntityWithInputs.

(** The world is the list of what was done to it.  One entity (7) with
    record 100 in table 200 of type [[5; 7]]; table 209 has type
    [[5; 7; 9]]; a column is named by the record and its index.  Adding an
    id that the type of the table holds leads to the same table. *)
Definition world_t : Type := list Z.
Definition record_find (_ : world_t) (e : entity_t) : pointer :=
  if e =? 7 then 100 else NULL.
Definition record_table (_ : world_t) (r : pointer) : pointer :=
  if r =? 100 then 200 else NULL.
Definition table_get_type (_ : world_t) (t : pointer) : option type_t :=
  if t =? 200 then Some [5; 7]
  else if t =? 209 then Some [5; 7; 9] else None.
Definition index_of (type : type_t) (id : entity_t) : Z :=
  Observer.type_index_from type 0 id.
Definition get_column (_ : world_t) (r : pointer) (column row : Z) : pointer :=
  r * 1000 + column.
Definition add_id (w : world_t) (prev : pointer) (id : entity_t)
  : world_t * pointer :=
  (w, if (id =? 5) || (id =? 7) then prev else prev + id).
Definition commit (w : world_t) (e : entity_t) (r next : pointer)
    (added : list entity_t) : world_t :=
  w ++ [e; next] ++ added.
Definition get_mut_w_id (w : world_t) (e id : entity_t) : world_t * pointer :=
  (w ++ [id], e * 1000 + id).
Definition modified_w_id (w : world_t) (e id : entity_t) : world_t :=
  w ++ [- id].
Definition func (w : world_t) (args : list pointer) : world_t := w ++ args.

End EntityWithInputs.

Module ObserverLifeInputs.
Import Observer ObserverInputs.

(** A parser whose descriptions are the terms themselves. *)
Definition filter_init_terms (_ : ecs_world_t)
    (d : ecs_filter_desc_t (list ecs_term_t)) : Z * ecs_filter_t :=
  (0, {| terms := fd_body d;
         term_count_actual := Z.of_nat (List.length (fd_body d)) |}).

(** A new observer for [A, !B] with a free function for its context. *)
Definition desc_A_not_B : ecs_observer_desc_t (list ecs_term_t) :=
  {| d_entity := {| de_entity := 0; de_name := Some "Watcher"%string |};
     d_filter :=
       {| fd_name := None;
          fd_body :=
            [ {| id := A; index := 0; oper := EcsAnd; args0_entity := EcsThis |};
              {| id := B; index := 1; oper := EcsNot; args0_entity := EcsThis |} ] |};
     d_events := [3]; d_callback := 77; d_self := 0; d_ctx := 9000;
     d_binding_ctx := 0; d_ctx_free := 33; d_binding_ctx_free := 0 |}.

(** A world in which entity 400 has the observer [observer_of filter_A_and_B],
    and a description that names the entity and brings another context. *)
Definition world_observed : ecs_world_t :=
  {| is_fini := false; observers := [(1, observer_of filter_A_and_B)];
     observer_components :=
       fun e => if e =? 400 then Some {| observer := Some 1 |} else None;
     calls := [] |}.

Definition desc_update : ecs_observer_desc_t (list ecs_term_t) :=
  {| d_entity := {| de_entity := 400; de_name := None |};
     d_filter := {| fd_name := None; fd_body := [] |};
     d_events := []; d_callback := 0; d_self := 0; d_ctx := 9500;
     d_binding_ctx := 0; d_ctx_free := 0; d_binding_ctx_free := 0 |}.

End ObserverLifeInputs.
(** * Notions for the properties of the stream reader *)
Module StreamSpec.
Import Stream.

(** The three columns that the component reader fetches from the component
    table of a world, when the table has them. *)
Definition component_columns (w : ecs_world_t)
  : option (list entity_t * list Z * list string) :=
  match main_stage_tables w with
  | t :: _ =>
      match columns t with
      | Some (c0 :: c1 :: c2 :: _) =>
          match data c0, data c1, data c2 with
          | vector_entities ids, vector_components sizes, vector_ids names =>
              Some (ids, sizes, names)
          | _, _, _ => None
          end
      | _ => None
      end
  | [] => None
  end.

Section Segment.

Variable kind_code : ecs_blob_header_kind_t -> Z.
Variable ids : list entity_t.
Variable sizes : list Z.
Variable names : list string.

(** The component table holds at least one component, with an id, a size
    and a name each. *)
Definition table_ok (w : ecs_world_t) : Prop :=
  component_columns w = Some (ids, sizes, names) /\
  List.length sizes = List.length ids /\
  List.length names = List.length ids /\
  ids <> [].

(** The whole component segment, and the records of the first [k]
    components. *)
Definition segment : list Z := component_segment kind_code ids sizes names.

Definition records (k : nat) : list Z :=
  component_segment kind_code (firstn k ids) (firstn k sizes) (firstn k names).

(** The bytes of the component segment that a stream has handed out so
    far, read off the state of its component reader. *)
Definition emitted (s : ecs_stream_t) : list Z :=
  let r := component (reader s) in
  let k := Z.to_nat (index r) in
  let header := int32_bytes (kind_code EcsComponentHeader) in
  let id := int32_bytes (nth k ids 0) in
  let size := int32_bytes (nth k sizes 0) in
  match c_cur r with
  | EcsComponentHeader => records k
  | EcsComponentId => records k ++ header
  | EcsComponentSize => records k ++ header ++ id
  | EcsComponentNameLength => records k ++ header ++ id ++ size
  | EcsComponentName =>
      records k ++ header ++ id ++ size ++ int32_bytes (len r)
      ++ firstn (Z.to_nat (written r)) (c_string (nth k names EmptyString))
  | _ => []
  end.

(** The reader has fetched the columns of the component table. *)
Definition loaded (r : ecs_component_reader_t) : Prop :=
  id_column r = Some ids /\ data_column r = Some sizes /\
  name_column r = Some names /\ c_count r = Z.of_nat (List.length ids).

(** The states that the component reader goes through: a newly opened
    stream; between two components, in the table segment once the last
    component is done; inside the record of component [index]. *)
Definition cursor_ok (s : ecs_stream_t) : Prop :=
  table_ok (world s) /\
  let r := component (reader s) in
  let n := Z.of_nat (List.length ids) in
  let k := Z.to_nat (index r) in
  match c_cur r with
  | EcsKindZero =>
      id_column r = None /\ cur (reader s) = EcsComponentSegment
  | EcsComponentHeader =>
      loaded r /\ 0 <= index r <= n /\
      cur (reader s) =
        (if index r =? n then EcsTableSegment else EcsComponentSegment)
  | EcsComponentId | EcsComponentSize =>
      loaded r /\ 0 <= index r < n /\ cur (reader s) = EcsComponentSegment
  | EcsComponentNameLength =>
      loaded r /\ 0 <= index r < n /\ cur (reader s) = EcsComponentSegment /\
      name r = Some (nth k names EmptyString) /\
      len r = strlen (nth k names EmptyString) + 1
  | EcsComponentName =>
      loaded r /\ 0 <= index r < n /\ cur (reader s) = EcsComponentSegment /\
      name r = Some (nth k names EmptyString) /\
      len r = strlen (nth k names EmptyString) + 1 /\
      0 <= written r < len r
  | _ => False
  end.

End Segment.

Section Calls.

Variable kind_code : ecs_blob_header_kind_t -> Z.
Variable vector_bytes : ecs_vector_t -> list Z.

(** A caller that reads a stream into one buffer after the other, each in
    full, and keeps from each buffer the bytes that [ecs_stream_read]
    reports. *)
Fixpoint read_calls (fuel : nat) (buffers : list (list Z)) (s : ecs_stream_t)
  : option (result (list (list Z) * ecs_stream_t)) :=
  match buffers with
  | [] => Some (Ok ([], s))
  | b :: buffers' =>
      match ecs_stream_read kind_code vector_bytes fuel b
              (Z.of_nat (List.length b)) s with
      | Some (Ok (n, b', s')) =>
          match read_calls fuel buffers' s' with
          | Some (Ok (chunks, s'')) =>
              Some (Ok (firstn (Z.to_nat n) b' :: chunks, s''))
          | other => other
          end
      | Some (Abort e) => Some (Abort e)
      | Some Undefined => Some Undefined
      | None => None
      end
  end.

(** A buffer that [ecs_stream_read] accepts and whose reading ends within
    [fuel] iterations. *)
Definition buffer_ok (fuel : nat) (b : list Z) : Prop :=
  4 <= Z.of_nat (List.length b) < SIZE_MAX /\ (List.length b < fuel)%nat.

(** The bytes kept from a buffer are all of it but at most three. *)
Definition nearly_full (b chunk : list Z) : Prop :=
  Z.of_nat (List.length b) - 3 <= Z.of_nat (List.length chunk)
    <= Z.of_nat (List.length b).

End Calls.

End StreamSpec.
(** * [examples/c/23_get_children]: the system [GetChildren] *)
Module GetChildrenExample.

(** What the system reads of [ecs_rows_t]. *)
Record ecs_rows_t : Type := {
  count : Z;
  entities : Z -> entity_t
}.

(** [ecs_vector_add]: the vector grows by one element, which holds
    whatever the memory held ([junk]). *)
Definition ecs_vector_add (v : list entity_t) (junk : entity_t)
  : list entity_t :=
  v ++ [junk].

(** [*elem = x] for the element that [ecs_vector_add] returned, the last
    one. *)
Definition store_last (v : list entity_t) (x : entity_t) : list entity_t :=
  removelast v ++ [x].

(** The loop of [GetChildren] from [i] on; [children] is the vector that
    [rows->param] points to.  The counter is an [int]: [i ++] past
    [INT_MAX] is not defined.  [i] is never negative, so that the
    comparison with a row count that is not negative comes out the same
    for a signed and for an unsigned [count].  [None] when [fuel]
    iterations do not end the loop. *)
Fixpoint GetChildren_from (fuel : nat) (rows : ecs_rows_t) (junk : entity_t)
    (i : Z) (children : list entity_t) : option (result (list entity_t)) :=
  match fuel with
  | O => None
  | S fuel' =>
      if i <? count rows then
        let children := ecs_vector_add children junk in
        let children := store_last children (entities rows i) in
        match Ranges.incr_int i with
        | Ok i' => GetChildren_from fuel' rows junk i' children
        | Abort e => Some (Abort e)
        | Undefined => Some Undefined
        end
      else Some (Ok children)
  end.

Definition GetChildren (fuel : nat) (rows : ecs_rows_t) (junk : entity_t)
    (children : list entity_t) : option (result (list entity_t)) :=
  GetChildren_from fuel rows junk 0 children.

(** The entities of rows [i], [i + 1], ..., [n] of them. *)
Fixpoint rows_from (rows : ecs_rows_t) (i : Z) (n : nat) : list entity_t :=
  match n with
  | O => []
  | S n' => entities rows i :: rows_from rows (i + 1) n'
  end.

End GetChildrenExample.
(** * Several components registered one after the other *)
Module Registration.
Import Cpp.

Section Register.

Variable world_t : Type.
Variable sizeof : cpp_type -> Z.
Variable ecs_new_component : world_t -> string -> Z -> world_t * entity_t.
Variable ecs_type_from_entity : world_t -> entity_t -> type_t.

(** [component<T>(world, name)] constructed for each of the named class
    types in [comps], in order. *)
Fixpoint register_all (reg : statics) (world : world_t)
    (comps : list (nat * string)) : world_t * statics :=
  match comps with
  | [] => (world, reg)
  | (n, name) :: comps' =>
      let '(world', reg') :=
        component world_t sizeof ecs_new_component ecs_type_from_entity
          reg (TBase n) world name in
      register_all reg' world' comps'
  end.

End Register.

(** The spellings [T], [const T] and [T&] of a named class type. *)
Definition spells (n : nat) (u : cpp_type) : Prop :=
  u = TBase n \/ u = TConst (TBase n) \/ u = TRef (TBase n).

End Registration.
(** * Properties of the C++ wrapper *)

Section RowsFacts.
Import Cpp.

Variable sizeof : cpp_type -> Z.
Variable reg : statics.

Lemma get_column_match (r : ecs_rows_t) (t : cpp_type) (col : Z) :
  ecs_column_entity r col = s_entity (reg t) ->
  get_column sizeof reg r t col =
  Ok {| elem_type := t;
        m_array := _ecs_column r (sizeof t) col;
        m_count := if ecs_is_shared r col then 1 else count r |}.
Proof.
  intros H. unfold get_column. rewrite H, Z.eqb_refl. reflexivity.
Qed.

Lemma get_column_mismatch (r : ecs_rows_t) (t : cpp_type) (col : Z) :
  ecs_column_entity r col <> s_entity (reg t) ->
  get_column sizeof reg r t col = Abort ECS_COLUMN_TYPE_MISMATCH.
Proof.
  intros H. unfold get_column.
  apply Z.eqb_neq in H. rewrite H. reflexivity.
Qed.

Lemma get_field_match (r : ecs_rows_t) (t : cpp_type) (col row : Z) :
  ecs_column_entity r col = s_entity (reg t) ->
  get_field sizeof reg r t col row = Ok (_ecs_field r (sizeof t) col row).
Proof.
  intros H. unfold get_field. rewrite H, Z.eqb_refl. reflexivity.
Qed.

Lemma get_field_mismatch (r : ecs_rows_t) (t : cpp_type) (col row : Z) :
  ecs_column_entity r col <> s_entity (reg t) ->
  get_field sizeof reg r t col row = Abort ECS_COLUMN_TYPE_MISMATCH.
Proof.
  intros H. unfold get_field.
  apply Z.eqb_neq in H. rewrite H. reflexivity.
Qed.

(** Whatever [get_column] returns has the count of the source's [if]. *)
Lemma get_column_inv (r : ecs_rows_t) (t : cpp_type) (col : Z) (c : column) :
  get_column sizeof reg r t col = Ok c ->
  c = {| elem_type := t;
         m_array := _ecs_column r (sizeof t) col;
         m_count := if ecs_is_shared r col then 1 else count r |}.
Proof.
  unfold get_column.
  destruct (ecs_column_entity r col =? s_entity (reg t)); simpl.
  - intros H. injection H as <-. reflexivity.
  - discriminate.
Qed.

Lemma rows_column_inv (r : ecs_rows_t) (t : cpp_type) (col : Z) (c : column) :
  rows_column sizeof reg r t col = Ok c ->
  get_column sizeof reg r t col = Ok c.
Proof.
  unfold rows_column.
  destruct (is_const t); [easy|].
  destruct (ecs_is_readonly r col); simpl; [discriminate | easy].
Qed.

Lemma owned_inv (r : ecs_rows_t) (t : cpp_type) (col : Z) (c : column) :
  owned sizeof reg r t col = Ok c ->
  ecs_is_shared r col = false /\ get_column sizeof reg r t col = Ok c.
Proof.
  unfold owned.
  destruct (ecs_is_shared r col); simpl; [discriminate|].
  intros H. split; [reflexivity | now apply rows_column_inv].
Qed.

(** C1, as the code has it: a non-const request on a read-only column
    stops with [ECS_COLUMN_ACCESS_VIOLATION], for the whole column and for
    a single field.  A const request is not checked against the read-only
    flag; it succeeds when the column's component entity is the entity
    registered for the type and stops with [ECS_COLUMN_TYPE_MISMATCH]
    otherwise. *)
Theorem readonly_access (r : ecs_rows_t) (t : cpp_type) (col row : Z) :
  (is_const t = false -> ecs_is_readonly r col = true ->
     rows_column sizeof reg r t col = Abort ECS_COLUMN_ACCESS_VIOLATION /\
     rows_field sizeof reg r t col row = Abort ECS_COLUMN_ACCESS_VIOLATION) /\
  (is_const t = true ->
     (ecs_column_entity r col = s_entity (reg t) ->
        rows_column sizeof reg r t col =
          Ok {| elem_type := t;
                m_array := _ecs_column r (sizeof t) col;
                m_count := if ecs_is_shared r col then 1 else count r |} /\
        rows_field sizeof reg r t col row =
          Ok (_ecs_field r (sizeof t) col row)) /\
     (ecs_column_entity r col <> s_entity (reg t) ->
        rows_column sizeof reg r t col = Abort ECS_COLUMN_TYPE_MISMATCH /\
        rows_field sizeof reg r t col row = Abort ECS_COLUMN_TYPE_MISMATCH)).
Proof.
  unfold rows_column, rows_field. split.
  - intros Hc Hr. rewrite Hc, Hr. split; reflexivity.
  - intros Hc. rewrite Hc. split; intros He.
    + split; [now apply get_column_match | now apply get_field_match].
    + split; [now apply get_column_mismatch | now apply get_field_mismatch].
Qed.

(** C2: a column obtained through [rows::column] or [rows::owned] has
    count 1 when the column is shared and the row count of the batch when
    it is owned.  The index of [operator[]] is a [size_t]: indexing at or
    beyond the count stops with [ECS_COLUMN_INDEX_OUT_OF_RANGE] and a
    smaller index yields the element at that position of the column's
    array.  An index that is not negative is taken as it is; a negative
    index of a signed type arrives as a value of [2^63] or more, and stops
    with [ECS_COLUMN_INDEX_OUT_OF_RANGE] as well. *)
Theorem column_count_and_bounds (r : ecs_rows_t) (t : cpp_type) (col : Z)
    (c : column) :
  rows_column sizeof reg r t col = Ok c \/ owned sizeof reg r t col = Ok c ->
  m_count c = (if ecs_is_shared r col then 1 else count r) /\
  forall index : Z,
    (m_count c <= to_size_t index ->
       column_at sizeof c index = Abort ECS_COLUMN_INDEX_OUT_OF_RANGE) /\
    (to_size_t index < m_count c ->
       column_at sizeof c index =
         Ok (elem_at sizeof t (_ecs_column r (sizeof t) col)
               (to_size_t index))) /\
    (0 <= index -> to_size_t index = index) /\
    (- 2 ^ 63 <= index < 0 -> m_count c <= 2 ^ 63 ->
       column_at sizeof c index = Abort ECS_COLUMN_INDEX_OUT_OF_RANGE).
Proof.
  intros H.
  assert (Hc : get_column sizeof reg r t col = Ok c).
  { destruct H as [H | H]; [now apply rows_column_inv | now apply owned_inv]. }
  apply get_column_inv in Hc. subst c. simpl. split; [reflexivity|].
  intros index.
  assert (Hge : forall n, n <= to_size_t index ->
            column_at sizeof
              {| elem_type := t; m_array := _ecs_column r (sizeof t) col;
                 m_count := n |} index
            = Abort ECS_COLUMN_INDEX_OUT_OF_RANGE).
  { intros n Hn. unfold column_at. cbn [m_count].
    apply Z.ltb_ge in Hn. rewrite Hn. reflexivity. }
  split; [apply Hge|]. split; [|split].
  - intros Hi. unfold column_at. cbn [m_count elem_type m_array].
    apply Z.ltb_lt in Hi. rewrite Hi. reflexivity.
  - intros Hi. unfold to_size_t.
    destruct (Z.ltb_spec index 0); [lia | reflexivity].
  - intros Hi Hn. apply Hge. unfold to_size_t.
    destruct (Z.ltb_spec index 0) as [_|Hpos]; [|lia].
    rewrite <- (Z.mod_add index 1 (2 ^ 64)) by lia.
    rewrite Z.mod_small; lia.
Qed.

(** C5, as the code has it: [owned] stops with [ECS_COLUMN_IS_SHARED]
    exactly when the column is shared.  [shared] checks the type first: it
    stops with [ECS_COLUMN_TYPE_MISMATCH] exactly when the column's entity
    differs from the registered one, and with [ECS_COLUMN_IS_NOT_SHARED]
    exactly when the entity matches and the column is not shared.  [owned]
    stops with [ECS_COLUMN_TYPE_MISMATCH] when the entity differs on a
    column that is not shared and passes the read-only check. *)
Theorem owned_shared_errors (r : ecs_rows_t) (t : cpp_type) (col : Z) :
  (owned sizeof reg r t col = Abort ECS_COLUMN_IS_SHARED <->
     ecs_is_shared r col = true) /\
  (shared sizeof reg r t col = Abort ECS_COLUMN_TYPE_MISMATCH <->
     ecs_column_entity r col <> s_entity (reg t)) /\
  (shared sizeof reg r t col = Abort ECS_COLUMN_IS_NOT_SHARED <->
     ecs_column_entity r col = s_entity (reg t) /\
     ecs_is_shared r col = false) /\
  (ecs_column_entity r col <> s_entity (reg t) ->
     ecs_is_shared r col = false ->
     is_const t = true \/ ecs_is_readonly r col = false ->
     owned sizeof reg r t col = Abort ECS_COLUMN_TYPE_MISMATCH).
Proof.
  unfold owned, shared, rows_column, get_column.
  destruct (Z.eqb_spec (ecs_column_entity r col) (s_entity (reg t))) as [He|He];
    destruct (ecs_is_shared r col), (is_const t), (ecs_is_readonly r col);
    simpl; repeat split; intros; try discriminate; try congruence;
    try tauto; intuition discriminate.
Qed.

End RowsFacts.

(** A non-const request for [Position] on a read-only [Position] column,
    and const requests with the matching and with another type. *)
Lemma readonly_access_witness :
  Cpp.rows_column Inputs.sizeof8 Inputs.reg57 (Inputs.rows_of false true)
    Inputs.Position 1 = Abort ECS_COLUMN_ACCESS_VIOLATION /\
  Cpp.rows_field Inputs.sizeof8 Inputs.reg57 (Inputs.rows_of false true)
    (Cpp.TConst Inputs.Position) 1 2 = Ok (4096 + 16) /\
  Cpp.rows_field Inputs.sizeof8 Inputs.reg57 (Inputs.rows_of false true)
    (Cpp.TConst Inputs.Velocity) 1 2 = Abort ECS_COLUMN_TYPE_MISMATCH.
Proof.
  split; [|split].
  - apply (readonly_access Inputs.sizeof8 Inputs.reg57
             (Inputs.rows_of false true) Inputs.Position 1 0); reflexivity.
  - apply (readonly_access Inputs.sizeof8 Inputs.reg57
             (Inputs.rows_of false true) (Cpp.TConst Inputs.Position) 1 2);
      reflexivity.
  - apply (readonly_access Inputs.sizeof8 Inputs.reg57
             (Inputs.rows_of false true) (Cpp.TConst Inputs.Velocity) 1 2);
      [reflexivity | vm_compute; discriminate].
Defined.

(** C1 as stated fails: on a read-only column that holds [Position]
    (entity 5), the const request for [Velocity] (entity 7) does not
    succeed, neither for the column nor for a field. *)
Lemma const_access_can_fail :
  Cpp.is_const (Cpp.TConst Inputs.Velocity) = true /\
  Cpp.ecs_is_readonly (Inputs.rows_of false true) 1 = true /\
  Cpp.rows_column Inputs.sizeof8 Inputs.reg57 (Inputs.rows_of false true)
    (Cpp.TConst Inputs.Velocity) 1 = Abort ECS_COLUMN_TYPE_MISMATCH /\
  Cpp.rows_field Inputs.sizeof8 Inputs.reg57 (Inputs.rows_of false true)
    (Cpp.TConst Inputs.Velocity) 1 0 = Abort ECS_COLUMN_TYPE_MISMATCH.
Proof. repeat split. Qed.

(** An owned [Position] column of the three-row batch, indexed at 3, at 2
    and at -1. *)
Lemma column_count_and_bounds_witness :
  Cpp.column_at Inputs.sizeof8
    {| Cpp.elem_type := Inputs.Position; Cpp.m_array := 4096;
       Cpp.m_count := 3 |} 3 = Abort ECS_COLUMN_INDEX_OUT_OF_RANGE /\
  Cpp.column_at Inputs.sizeof8
    {| Cpp.elem_type := Inputs.Position; Cpp.m_array := 4096;
       Cpp.m_count := 3 |} 2 = Ok (4096 + 2 * 8) /\
  Cpp.column_at Inputs.sizeof8
    {| Cpp.elem_type := Inputs.Position; Cpp.m_array := 4096;
       Cpp.m_count := 3 |} (-1) = Abort ECS_COLUMN_INDEX_OUT_OF_RANGE.
Proof.
  assert (H : Cpp.rows_column Inputs.sizeof8 Inputs.reg57
                (Inputs.rows_of false false) Inputs.Position 1 =
              Ok {| Cpp.elem_type := Inputs.Position; Cpp.m_array := 4096;
                    Cpp.m_count := 3 |}) by reflexivity.
  destruct (column_count_and_bounds Inputs.sizeof8 Inputs.reg57
              (Inputs.rows_of false false) Inputs.Position 1 _ (or_introl H))
    as [_ Hi].
  split; [|split].
  - destruct (Hi 3) as (Hge & _). apply Hge.
    unfold Cpp.to_size_t. simpl. lia.
  - destruct (Hi 2) as (_ & Hlt & _). apply Hlt.
    unfold Cpp.to_size_t. simpl. lia.
  - destruct (Hi (-1)) as (_ & _ & _ & Hneg). apply Hneg; simpl; lia.
Defined.

(** [owned] on a shared column, [shared] on an owned column of the right
    and of another type, [owned] on an owned column of another type. *)
Lemma owned_shared_errors_witness :
  Cpp.owned Inputs.sizeof8 Inputs.reg57 (Inputs.rows_of true false)
    Inputs.Position 1 = Abort ECS_COLUMN_IS_SHARED /\
  Cpp.shared Inputs.sizeof8 Inputs.reg57 (Inputs.rows_of false false)
    Inputs.Position 1 = Abort ECS_COLUMN_IS_NOT_SHARED /\
  Cpp.shared Inputs.sizeof8 Inputs.reg57 (Inputs.rows_of false false)
    Inputs.Velocity 1 = Abort ECS_COLUMN_TYPE_MISMATCH /\
  Cpp.owned Inputs.sizeof8 Inputs.reg57 (Inputs.rows_of false false)
    Inputs.Velocity 1 = Abort ECS_COLUMN_TYPE_MISMATCH.
Proof.
  split; [|split; [|split]].
  - apply (owned_shared_errors Inputs.sizeof8 Inputs.reg57
             (Inputs.rows_of true false) Inputs.Position 1). reflexivity.
  - apply (owned_shared_errors Inputs.sizeof8 Inputs.reg57
             (Inputs.rows_of false false) Inputs.Position 1).
    split; reflexivity.
  - apply (owned_shared_errors Inputs.sizeof8 Inputs.reg57
             (Inputs.rows_of false false) Inputs.Velocity 1).
    vm_compute. discriminate.
  - apply (owned_shared_errors Inputs.sizeof8 Inputs.reg57
             (Inputs.rows_of false false) Inputs.Velocity 1).
    + vm_compute. discriminate.
    + reflexivity.
    + right. reflexivity.
Defined.

(** C5 as stated fails twice.  The column holds [Position] (entity 5) and
    [Velocity] (entity 7) is requested: on the owned column [shared] stops
    with [ECS_COLUMN_TYPE_MISMATCH], not [ECS_COLUMN_IS_NOT_SHARED]; on the
    shared column [owned] stops with [ECS_COLUMN_IS_SHARED], not
    [ECS_COLUMN_TYPE_MISMATCH]. *)
Lemma owned_shared_error_precedence :
  Cpp.ecs_is_shared (Inputs.rows_of false false) 1 = false /\
  Cpp.shared Inputs.sizeof8 Inputs.reg57 (Inputs.rows_of false false)
    Inputs.Velocity 1 <> Abort ECS_COLUMN_IS_NOT_SHARED /\
  Cpp.shared Inputs.sizeof8 Inputs.reg57 (Inputs.rows_of false false)
    Inputs.Velocity 1 = Abort ECS_COLUMN_TYPE_MISMATCH /\
  Cpp.ecs_column_entity (Inputs.rows_of true false) 1 <>
    Cpp.s_entity (Inputs.reg57 Inputs.Velocity) /\
  Cpp.owned Inputs.sizeof8 Inputs.reg57 (Inputs.rows_of true false)
    Inputs.Velocity 1 <> Abort ECS_COLUMN_TYPE_MISMATCH /\
  Cpp.owned Inputs.sizeof8 Inputs.reg57 (Inputs.rows_of true false)
    Inputs.Velocity 1 = Abort ECS_COLUMN_IS_SHARED.
Proof. repeat split; vm_compute; discriminate. Qed.

Section TypeFacts.
Import Cpp.

Variable world_t : Type.
Variable ecs_type_add : world_t -> type_t -> entity_t -> type_t.

Lemma flag_bit (k n : Z) : 0 <= k -> Z.testbit (2 ^ k) n = (n =? k).
Proof.
  intros Hk. rewrite Z.pow2_bits_eqb by assumption. apply Z.eqb_sym.
Qed.

(** C6: [add_instanceof] hands [ecs_type_add] the entity's id with bit 63
    set and every other bit as in the id, for both the type and the
    normalized type; [add_childof] does the same with bit 62. *)
Theorem relation_flag_ids (world : world_t) (store : type_store) (t : type)
    (e : entity_t) :
  let ti := fst (add_instanceof world_t ecs_type_add world store t e) in
  let tc := fst (add_childof world_t ecs_type_add world store t e) in
  m_type ti = ecs_type_add world (m_type t) (instanceof_id e) /\
  m_normalized ti = ecs_type_add world (m_normalized t) (instanceof_id e) /\
  m_type tc = ecs_type_add world (m_type t) (childof_id e) /\
  m_normalized tc = ecs_type_add world (m_normalized t) (childof_id e) /\
  ECS_INSTANCEOF = 2 ^ 63 /\
  ECS_CHILDOF = 2 ^ 62 /\
  (forall n : Z, Z.testbit (instanceof_id e) n = (n =? 63) || Z.testbit e n) /\
  (forall n : Z, Z.testbit (childof_id e) n = (n =? 62) || Z.testbit e n).
Proof.
  simpl. repeat split.
  - intros n. unfold instanceof_id. rewrite Z.lor_spec.
    change ECS_INSTANCEOF with (2 ^ 63). rewrite flag_bit by lia.
    apply orb_comm.
  - intros n. unfold childof_id. rewrite Z.lor_spec.
    change ECS_CHILDOF with (2 ^ 62). rewrite flag_bit by lia.
    apply orb_comm.
Qed.

End TypeFacts.

Section ComponentFacts.
Import Cpp.

Variable world_t : Type.
Variable sizeof : cpp_type -> Z.
Variable ecs_new_component : world_t -> string -> Z -> world_t * entity_t.
Variable ecs_type_from_entity : world_t -> entity_t -> type_t.

Lemma set_static_eq (reg : statics) (t : cpp_type) (v : component_base) :
  set_static reg t v t = v.
Proof. unfold set_static. destruct (cpp_type_eq_dec t t); congruence. Qed.

Lemma component_base_eta (v : component_base) :
  {| s_entity := s_entity v; s_type := s_type v; s_name := s_name v |} = v.
Proof. destruct v. reflexivity. Qed.

(** Writing [v] to one more instantiation keeps [v] wherever it was. *)
Lemma set_static_same (reg : statics) (t u : cpp_type) (v : component_base) :
  reg u = v -> set_static reg t v u = v.
Proof. unfold set_static. destruct (cpp_type_eq_dec u t); congruence. Qed.

(** C10: after [component<T>] the statics of [T], [const T] and [T&] are
    the same triple: the entity that [ecs_new_component] returned, its
    type, and the name. *)
Theorem component_spellings (reg : statics) (t : cpp_type) (world : world_t)
    (name : string) :
  let r := component world_t sizeof ecs_new_component ecs_type_from_entity
             reg t world name in
  let reg' := snd r in
  let e := snd (ecs_new_component world name (sizeof t)) in
  reg' t = {| s_entity := e;
              s_type := ecs_type_from_entity (fst r) e;
              s_name := Some name |} /\
  reg' (add_const t) = reg' t /\
  reg' (add_lvalue_reference t) = reg' t.
Proof.
  unfold component, init, init_existing.
  destruct (ecs_new_component world name (sizeof t)) as [w' e] eqn:E.
  cbn [fst snd].
  set (v := {| s_entity := e; s_type := ecs_type_from_entity w' e;
               s_name := Some name |}).
  set (reg1 := set_static reg t v).
  assert (H1 : reg1 t = v) by apply set_static_eq.
  rewrite H1. rewrite component_base_eta.
  set (reg2 := set_static reg1 (add_const t) v).
  assert (H2 : reg2 t = v) by (apply set_static_same; exact H1).
  rewrite H2. rewrite component_base_eta.
  assert (H3 : set_static reg2 (add_lvalue_reference t) v t = v)
    by (apply set_static_same; exact H2).
  rewrite H3. repeat split.
  - apply set_static_same. apply set_static_eq.
  - apply set_static_eq.
Qed.

End ComponentFacts.

Section SystemFacts.
Import Cpp.

Lemma append_assoc (a b c : string) :
  ((a ++ b) ++ c = a ++ (b ++ c))%string.
Proof. induction a as [|x a IH]; simpl; [reflexivity | now rewrite IH]. Qed.

Lemma append_empty_r (a : string) : (a ++ "" = a)%string.
Proof. induction a as [|x a IH]; simpl; [reflexivity | now rewrite IH]. Qed.

Lemma concat_snoc (sep : string) (l : list string) (x : string) :
  l <> [] ->
  String.concat sep (l ++ [x]) = (String.concat sep l ++ sep ++ x)%string.
Proof.
  induction l as [|a l IH]; [congruence|]. intros _.
  destruct l as [|b l].
  - reflexivity.
  - change (String.concat sep ((a :: b :: l) ++ [x]))
      with (String.append a
              (String.append sep (String.concat sep ((b :: l) ++ [x])))).
    rewrite IH by discriminate.
    change (String.concat sep (a :: b :: l))
      with (a ++ sep ++ String.concat sep (b :: l))%string.
    now rewrite !append_assoc.
Qed.

Variable reg : statics.

(** The name under which a component is registered. *)
Variable name_of : cpp_type -> string.

Local Abbreviation term_text := (term_text name_of).
Local Abbreviation registered_as := (registered_as reg name_of).

(** The loop has written the terms of [pre] and goes on with [rest]. *)
Lemma action_ids_terms (rest pre : list cpp_type) :
  Forall registered_as rest ->
  action_ids (map (fun c => s_name (reg c)) rest)
    (map inout_modifier (pre ++ rest)) (List.length pre)
    (String.concat ","%string (map term_text pre)) =
  Ok (List.length (pre ++ rest),
      String.concat ","%string (map term_text (pre ++ rest))).
Proof.
  revert pre. induction rest as [|c rest IH]; intros pre Hreg.
  - simpl. now rewrite app_nil_r.
  - inversion Hreg as [|? ? Hc Hrest]; subst.
    cbn [map action_ids]. rewrite Hc.
    replace (nth (List.length pre) (map inout_modifier (pre ++ c :: rest))
               ""%string)
      with (inout_modifier c).
    2:{ rewrite map_app, app_nth2; rewrite length_map; [|lia].
        now rewrite Nat.sub_diag. }
    cbn [put bind].
    replace (pre ++ c :: rest) with ((pre ++ [c]) ++ rest)
      by (now rewrite <- app_assoc).
    specialize (IH (pre ++ [c]) Hrest).
    rewrite length_app in IH. cbn [List.length] in IH.
    rewrite Nat.add_1_r in IH.
    rewrite <- IH. f_equal.
    rewrite map_app. cbn [map].
    destruct pre as [|p pre].
    + reflexivity.
    + cbn [List.length Nat.ltb Nat.leb].
      rewrite concat_snoc by discriminate.
      unfold term_text. now rewrite !append_assoc.
Qed.

(** C3: the three overloads of [inout_modifier] give ["[in] "] for a const
    type, ["[out] "] for a reference and nothing for a type that is
    neither; the signature is the comma-separated list of the components'
    terms, modifier then name, in the order of the template parameters,
    with the text given to [signature] as one more entry at the end. *)
Theorem action_signature_text (Components : list cpp_type)
    (m_signature : option string) :
  Forall registered_as Components ->
  (forall t, inout_modifier (TConst t) = "[in] "%string) /\
  (forall t, inout_modifier (TRef t) = "[out] "%string) /\
  (forall t, is_const t = false -> is_reference t = false ->
             inout_modifier t = ""%string) /\
  action_signature reg Components m_signature =
  Ok (String.concat ","%string
        (map term_text Components ++
         match m_signature with Some sig => [sig] | None => [] end)).
Proof.
  intros Hreg. split; [reflexivity|]. split; [reflexivity|]. split.
  { intros t Hc Hr. unfold inout_modifier. now rewrite Hc, Hr. }
  unfold action_signature.
  pose proof (action_ids_terms Components [] Hreg) as H.
  cbn [app List.length map String.concat] in H. rewrite H. cbn [bind].
  destruct m_signature as [sig|].
  - destruct Components as [|c cs].
    + reflexivity.
    + cbn [List.length Nat.ltb Nat.leb].
      rewrite concat_snoc by discriminate.
      now rewrite !append_assoc.
  - now rewrite app_nil_r.
Qed.

End SystemFacts.

(** Three components, const, reference and plain, and a signature text. *)
Lemma action_signature_text_witness :
  Cpp.action_signature Inputs.reg57
    [Cpp.TConst Inputs.Position; Cpp.TRef Inputs.Velocity; Inputs.Position]
    (Some "Mass"%string) =
  Ok "[in] Position,[out] Velocity,Position,Mass"%string.
Proof.
  destruct (action_signature_text Inputs.reg57 Inputs.name57
              [Cpp.TConst Inputs.Position; Cpp.TRef Inputs.Velocity;
               Inputs.Position] (Some "Mass"%string)) as (_ & _ & _ & H).
  - repeat constructor.
  - exact H.
Defined.

(** * Properties of the each-invoker *)

Section EachFacts.
Import Cpp Invoker.

Variable sizeof : cpp_type -> Z.

Lemma nth_error_combine {A B : Type} (l1 : list A) (l2 : list B) (k : nat)
    (a : A) (b : B) :
  nth_error l1 k = Some a -> nth_error l2 k = Some b ->
  nth_error (combine l1 l2) k = Some (a, b).
Proof.
  revert l2 k. induction l1 as [|x l1 IH]; intros l2 k H1 H2.
  - destruct k; discriminate.
  - destruct l2 as [|y l2]; [destruct k; discriminate|].
    destruct k as [|k]; simpl in *.
    + congruence.
    + now apply IH.
Qed.

Lemma iter_rows_nth (it : ecs_iter_t) (row : Z) :
  0 <= row < count it ->
  nth_error (iter_rows it) (Z.to_nat row) = Some row.
Proof.
  intros H. unfold iter_rows.
  rewrite nth_error_map, nth_error_seq.
  assert (Hlt : (Z.to_nat row <? Z.to_nat (count it))%nat = true)
    by (apply Nat.ltb_lt; lia).
  rewrite Hlt. simpl. f_equal. lia.
Qed.

(** The call for [row] and its [k]-th argument. *)
Lemma invoke_callback_nth
    (ColumnType : term_ptr -> Z -> each_column_base)
    (Components : list cpp_type) (it : ecs_iter_t) (terms : list term_ptr)
    (row : Z) (k : nat) (c : cpp_type) (term : term_ptr) :
  0 <= row < count it ->
  nth_error Components k = Some c ->
  nth_error terms k = Some term ->
  exists args,
    nth_error (invoke_callback sizeof ColumnType Components it terms)
      (Z.to_nat row) = Some (entity it row, args) /\
    nth_error args k =
      Some (get_row sizeof (remove_reference_t c) (ColumnType term row)).
Proof.
  intros Hrow Hc Ht.
  exists (row_arguments sizeof ColumnType Components terms row). split.
  - unfold invoke_callback. rewrite nth_error_map, iter_rows_nth by assumption.
    reflexivity.
  - unfold row_arguments. rewrite nth_error_map.
    rewrite (nth_error_combine _ _ _ _ _ Hc Ht). reflexivity.
Qed.

(** C9: in the calls that [each_invoker::invoke] makes, one per row, the
    argument for a pointer-typed component is the null pointer when the
    term has no data, and otherwise the address of the row's element; when
    the terms hold references and the term is one, the argument is that of
    row 0 in every row. *)
Theorem each_arguments (Components : list cpp_type) (it : ecs_iter_t)
    (terms : list term_ptr) (has_refs : bool)
    (row : Z) (k : nat) (c : cpp_type) (term : term_ptr) :
  populate_w_refs it = (terms, has_refs) ->
  0 <= row < count it ->
  nth_error Components k = Some c ->
  nth_error terms k = Some term ->
  exists args delivered,
    nth_error (invoke sizeof Components it) (Z.to_nat row) =
      Some (entity it row, args) /\
    nth_error args k = Some delivered /\
    (is_pointer (remove_reference_t c) = true -> ptr term = NULL ->
       delivered = by_pointer NULL) /\
    (is_pointer (remove_reference_t c) = true -> ptr term <> NULL ->
     has_refs && is_ref term = false ->
       delivered =
         by_pointer (ptr term +
                     row * sizeof (remove_pointer_t (remove_reference_t c)))) /\
    (has_refs = true -> is_ref term = true ->
       delivered =
         get_row sizeof (remove_reference_t c) (each_column term 0)).
Proof.
  intros Hp Hrow Hc Ht. unfold invoke. rewrite Hp.
  set (ColumnType := if has_refs then each_ref_column else each_column).
  destruct (invoke_callback_nth ColumnType Components it terms row k c term
              Hrow Hc Ht) as (args & Hcall & Harg).
  exists args, (get_row sizeof (remove_reference_t c) (ColumnType term row)).
  split; [|split; [exact Harg|]].
  { subst ColumnType. destruct has_refs; exact Hcall. }
  subst ColumnType. unfold get_row, each_ref_column, each_column.
  split; [|split].
  - intros Hptr Hnull.
    destruct has_refs, (is_ref term); cbn [m_term m_row];
      rewrite Hptr, Hnull; reflexivity.
  - intros Hptr Hnn Hno. apply Z.eqb_neq in Hnn.
    destruct has_refs, (is_ref term); try discriminate; cbn [m_term m_row];
      rewrite Hptr, Hnn; reflexivity.
  - intros -> ->. reflexivity.
Qed.

End EachFacts.

(** Row 2 of [iter3] with components [Position*], [Velocity*] and
    [const Position&]: the address of the row's element, the null pointer
    and the single value of the reference. *)
Lemma each_arguments_witness :
  let Components :=
    [Cpp.TPtr Inputs.Position; Cpp.TPtr Inputs.Velocity;
     Cpp.TRef (Cpp.TConst Inputs.Position)] in
  (exists args,
     nth_error (Invoker.invoke Inputs.sizeof8 Components Inputs.iter3)
       (Z.to_nat 2) = Some (102, args) /\
     nth_error args 0 = Some (Invoker.by_pointer (4096 + 2 * 8))) /\
  (exists args,
     nth_error (Invoker.invoke Inputs.sizeof8 Components Inputs.iter3)
       (Z.to_nat 2) = Some (102, args) /\
     nth_error args 1 = Some (Invoker.by_pointer NULL)) /\
  (exists args,
     nth_error (Invoker.invoke Inputs.sizeof8 Components Inputs.iter3)
       (Z.to_nat 2) = Some (102, args) /\
     nth_error args 2 = Some (Invoker.by_reference 8192)).
Proof.
  intros Components. split; [|split].
  - destruct (each_arguments Inputs.sizeof8 Components Inputs.iter3
                _ _ 2 0%nat _ _ eq_refl ltac:(simpl; lia) eq_refl eq_refl)
      as (args & delivered & Hcall & Harg & _ & Hrow & _).
    exists args. split; [exact Hcall|]. rewrite Harg. f_equal.
    apply Hrow; [reflexivity | simpl; discriminate | reflexivity].
  - destruct (each_arguments Inputs.sizeof8 Components Inputs.iter3
                _ _ 2 1%nat _ _ eq_refl ltac:(simpl; lia) eq_refl eq_refl)
      as (args & delivered & Hcall & Harg & Hnull & _ & _).
    exists args. split; [exact Hcall|]. rewrite Harg. f_equal.
    apply Hnull; reflexivity.
  - destruct (each_arguments Inputs.sizeof8 Components Inputs.iter3
                _ _ 2 2%nat _ _ eq_refl ltac:(simpl; lia) eq_refl eq_refl)
      as (args & delivered & Hcall & Harg & _ & _ & Href).
    exists args. split; [exact Hcall|]. rewrite Harg. f_equal.
    apply Href; reflexivity.
Defined.

(** * Properties of the observer module *)

Lemma bind_Ok_inv {A B : Type} (m : result A) (k : A -> result B) (b : B) :
  bind m k = Ok b -> exists a, m = Ok a /\ k a = Ok b.
Proof.
  destruct m as [a| |]; simpl; intros H; try discriminate.
  exists a. split; [reflexivity | exact H].
Qed.

Lemma upd_same {A : Type} (a : Z -> A) (i : Z) (v : A) : upd a i v i = v.
Proof. unfold upd. now rewrite Z.eqb_refl. Qed.

Lemma upd_other {A : Type} (a : Z -> A) (i j : Z) (v : A) :
  j <> i -> upd a i v j = a j.
Proof. unfold upd. intros H. apply Z.eqb_neq in H. now rewrite H. Qed.

Section CallbackFacts.
Import Observer.

Variable EcsThis : entity_t.
Variable ECS_FILTER_DESC_TERM_ARRAY_MAX : Z.
Variable ecs_type_match : type_t -> Z -> Z -> Z.
Variable ecs_type_from_id : ecs_world_t -> Z -> type_t.
Variable ecs_id_is_wildcard : Z -> bool.
Variable ecs_filter_match_type : ecs_world_t -> ecs_filter_t -> type_t -> bool.

Local Abbreviation set_id := (set_id ECS_FILTER_DESC_TERM_ARRAY_MAX).
Local Abbreviation set_column := (set_column ECS_FILTER_DESC_TERM_ARRAY_MAX).
Local Abbreviation set_type := (set_type ECS_FILTER_DESC_TERM_ARRAY_MAX).
Local Abbreviation populate_found :=
  (populate_found ECS_FILTER_DESC_TERM_ARRAY_MAX ecs_type_from_id
     ecs_id_is_wildcard).
Local Abbreviation populate_term :=
  (populate_term EcsThis ECS_FILTER_DESC_TERM_ARRAY_MAX ecs_type_match
     ecs_type_from_id ecs_id_is_wildcard).
Local Abbreviation populate_loop :=
  (populate_loop EcsThis ECS_FILTER_DESC_TERM_ARRAY_MAX ecs_type_match
     ecs_type_from_id ecs_id_is_wildcard).
Local Abbreviation populate_columns :=
  (populate_columns EcsThis ECS_FILTER_DESC_TERM_ARRAY_MAX ecs_type_match
     ecs_type_from_id ecs_id_is_wildcard).
Local Abbreviation observer_callback :=
  (observer_callback EcsThis ECS_FILTER_DESC_TERM_ARRAY_MAX ecs_type_match
     ecs_type_from_id ecs_id_is_wildcard ecs_filter_match_type).
Local Abbreviation resolved :=
  (resolved ecs_type_match ecs_type_from_id ecs_id_is_wildcard).
Local Abbreviation leaves_slot := (leaves_slot EcsThis ecs_type_match).

(** The three stores, seen from slot [ti]. *)
Lemma set_id_inv (a a' : iter_arrays) (tj v : Z) :
  set_id a tj v = Ok a' ->
  a' = {| ids := upd (ids a) tj v; columns := columns a; types := types a |}.
Proof.
  unfold Observer.set_id. destruct (in_array _ tj); [|discriminate].
  intros H. now injection H as <-.
Qed.

Lemma set_column_inv (a a' : iter_arrays) (tj v : Z) :
  set_column a tj v = Ok a' ->
  a' = {| ids := ids a; columns := upd (columns a) tj v; types := types a |}.
Proof.
  unfold Observer.set_column. destruct (in_array _ tj); [|discriminate].
  intros H. now injection H as <-.
Qed.

Lemma set_type_inv (a a' : iter_arrays) (tj : Z) (v : type_t) :
  set_type a tj v = Ok a' ->
  a' = {| ids := ids a; columns := columns a; types := upd (types a) tj v |}.
Proof.
  unfold Observer.set_type. destruct (in_array _ tj); [|discriminate].
  intros H. now injection H as <-.
Qed.

(** Takes a successful run of stores apart. *)
Ltac stores :=
  repeat match goal with
  | H : bind _ _ = Ok _ |- _ =>
      apply bind_Ok_inv in H; destruct H as (? & ? & H)
  | H : set_id _ _ _ = Ok ?x |- _ => apply set_id_inv in H; subst x
  | H : set_column _ _ _ = Ok ?x |- _ => apply set_column_inv in H; subst x
  | H : set_type _ _ _ = Ok ?x |- _ => apply set_type_inv in H; subst x
  | H : Ok ?x = Ok ?y |- _ => injection H as H; first [subst x | subst y]
  end.

Lemma populate_found_other (world : ecs_world_t) (table : ecs_table_t)
    (a a' : iter_arrays) (ti tj id index : Z) :
  populate_found world table a tj id index = Ok a' ->
  tj <> ti -> slot a' ti = slot a ti.
Proof.
  unfold Observer.populate_found, slot. intros H Hne.
  assert (Hn : ti <> tj) by congruence.
  stores.
  destruct (column_count table <=? index).
  - stores. cbn. now rewrite !upd_other by assumption.
  - destruct (znth (data_columns table) index) as [c|]; [|discriminate].
    destruct (size c =? 0); stores; cbn; now rewrite !upd_other by assumption.
Qed.

Lemma populate_found_slot (world : ecs_world_t) (table : ecs_table_t)
    (a a' : iter_arrays) (ti id : Z) :
  populate_found world table a ti id (ecs_type_match (type table) 0 id) = Ok a' ->
  slot a' ti = resolved world table id.
Proof.
  unfold Observer.populate_found, slot, Observer.resolved. intros H.
  stores.
  match goal with
  | H : (if ecs_id_is_wildcard id then _ else _) = Ok ?x |- _ =>
      rename H into Hid; rename x into id'
  end.
  assert (Hid' : id' =
            if ecs_id_is_wildcard id
            then match znth (type table) (ecs_type_match (type table) 0 id) with
                 | Some actual => actual
                 | None => id
                 end
            else id).
  { destruct (ecs_id_is_wildcard id).
    - stores.
      destruct (znth (type table) (ecs_type_match (type table) 0 id));
        [now injection Hid as <- | discriminate].
    - now injection Hid as <-. }
  rewrite <- Hid'. clear Hid Hid'.
  destruct (column_count table <=? ecs_type_match (type table) 0 id).
  - stores. cbn. now rewrite !upd_same.
  - destruct (znth (data_columns table) (ecs_type_match (type table) 0 id))
      as [c|]; [|discriminate].
    destruct (size c =? 0); stores; cbn; now rewrite !upd_same.
Qed.

(** A later term that leaves the slot alone. *)
Lemma populate_term_leaves (world : ecs_world_t) (table : ecs_table_t)
    (event_id term_index i ti : Z) (t : ecs_term_t) (a a' : iter_arrays) :
  populate_term world table event_id term_index i t a = Ok a' ->
  i <> term_index ->
  leaves_slot table ti t ->
  slot a' ti = slot a ti.
Proof.
  unfold Observer.populate_term. intros H Hi Hl.
  apply Z.eqb_neq in Hi. rewrite Hi in H.
  destruct Hl as [Hne | (Hthis & Hmiss & Hnot)].
  - assert (Hn : ti <> index t) by congruence.
    destruct (negb (args0_entity t =? EcsThis)).
    + stores. unfold slot. cbn. now rewrite !upd_other by assumption.
    + destruct (ecs_type_match (type table) 0 (id t) =? -1).
      * destruct (oper_eqb (oper t) EcsNot).
        -- stores. unfold slot. cbn. now rewrite !upd_other by assumption.
        -- stores. reflexivity.
      * eapply populate_found_other; eassumption.
  - rewrite Hthis, Z.eqb_refl, Hmiss in H. cbn in H.
    destruct (oper t); try congruence; cbn in H; try discriminate;
      stores; reflexivity.
Qed.

Lemma populate_loop_leaves (world : ecs_world_t) (table : ecs_table_t)
    (event_id term_index ti : Z) (ts : list ecs_term_t) :
  forall (i : Z) (a a' : iter_arrays),
    populate_loop world table event_id term_index i ts a = Ok a' ->
    term_index < i ->
    Forall (leaves_slot table ti) ts ->
    slot a' ti = slot a ti.
Proof.
  induction ts as [|t ts IH]; intros i a a' H Hi Hl.
  - cbn in H. now injection H as <-.
  - cbn in H. apply bind_Ok_inv in H. destruct H as (a1 & H1 & H).
    inversion Hl as [|? ? Ht Hts]; subst.
    rewrite (IH (i + 1) a1 a' H ltac:(lia) Hts).
    eapply populate_term_leaves; [exact H1 | lia | exact Ht].
Qed.

(** The slot of the term at [term_index] after the whole loop. *)
Lemma populate_loop_trigger (world : ecs_world_t) (table : ecs_table_t)
    (event_id term_index : Z) (t : ecs_term_t) (post : list ecs_term_t) :
  forall (pre : list ecs_term_t) (i : Z) (a a' : iter_arrays),
    populate_loop world table event_id term_index i (pre ++ t :: post) a
      = Ok a' ->
    i + Z.of_nat (List.length pre) = term_index ->
    args0_entity t = EcsThis ->
    Forall (leaves_slot table (index t)) post ->
    slot a' (index t) = resolved world table event_id.
Proof.
  induction pre as [|p pre IH]; intros i a a' H Hi Hthis Hpost.
  - cbn in H, Hi. apply bind_Ok_inv in H. destruct H as (a1 & H1 & H).
    rewrite (populate_loop_leaves _ _ _ _ _ _ _ _ _ H ltac:(lia) Hpost).
    unfold Observer.populate_term in H1.
    rewrite Hthis, Z.eqb_refl in H1. cbn in H1.
    replace (i =? term_index) with true in H1 by (symmetry; apply Z.eqb_eq; lia).
    now apply populate_found_slot in H1.
  - cbn in H. apply bind_Ok_inv in H. destruct H as (a1 & H1 & H).
    apply (IH (i + 1) a1 a' H); try assumption.
    cbn [List.length] in Hi. lia.
Qed.

(** What [observer_callback] does in general: the user action is called
    only when [ecs_filter_match_type] accepts the type of the table, and
    then it is called once the arrays are filled; otherwise the callback
    returns without calling it.  For the term whose trigger fired (a term
    on the matched entity) the slot the action finds holds what the event
    id resolves to in the table, provided no later term of the filter
    writes the same slot. *)
Theorem observer_callback_action (world : ecs_world_t) (o : ecs_observer_t)
    (stack : iter_arrays) (it : ecs_iter_t) (tab : ecs_iter_table_t)
    (tbl : ecs_table_t) :
  table it = Some tab ->
  it_table tab = Some tbl ->
  (observer_callback world o stack it = Ok None <->
     ecs_filter_match_type world (filter o) (type tbl) = false) /\
  (forall act user_it,
     observer_callback world o stack it = Ok (Some (act, user_it)) ->
     ecs_filter_match_type world (filter o) (type tbl) = true /\
     act = action o) /\
  (forall a,
     ecs_filter_match_type world (filter o) (type tbl) = true ->
     populate_columns world o tbl stack (event_id it) (term_index it) = Ok a ->
     exists user_it,
       observer_callback world o stack it = Ok (Some (action o, user_it))) /\
  (forall pre t post,
     terms (filter o) = pre ++ t :: post ->
     Z.of_nat (List.length pre) = term_index it ->
     args0_entity t = EcsThis ->
     Forall (leaves_slot tbl (index t)) post ->
     forall act user_it,
       observer_callback world o stack it = Ok (Some (act, user_it)) ->
       action_slot (observer_callback world o stack it) (index t) =
         Some (resolved world tbl (event_id it))).
Proof.
  intros Htab Htbl. unfold Observer.observer_callback.
  rewrite Htab, Htbl.
  destruct (ecs_filter_match_type world (filter o) (type tbl)) eqn:Hm.
  - repeat split; try discriminate.
    + destruct (populate_columns world o tbl stack (event_id it) (term_index it));
        discriminate.
    + destruct (populate_columns world o tbl stack (event_id it) (term_index it));
        cbn in H; [|discriminate|discriminate].
      now injection H as <- _.
    + intros a _ Ha. rewrite Ha. cbn. eexists. reflexivity.
    + intros pre t post Hterms Hlen Hthis Hpost act user_it H.
      destruct (populate_columns world o tbl stack (event_id it) (term_index it))
        as [a| |] eqn:Ha; cbn in H; try discriminate.
      cbn. unfold Observer.populate_columns in Ha. stores.
      rewrite Hterms in Ha.
      apply populate_loop_trigger in Ha; try assumption; try lia.
      unfold slot in Ha. now rewrite Ha.
  - repeat split; try discriminate; reflexivity.
Qed.

End CallbackFacts.

(** The filter [A, B] keeps a slot for each term: the slot of the term
    whose trigger fired holds what the event id [A] resolves to. *)
Lemma observer_callback_action_witness :
  Observer.action_slot
    (ObserverInputs.callback ObserverInputs.filter_A_and_B) 0 =
  Some (10, 1, [10]).
Proof.
  destruct (observer_callback_action ObserverInputs.EcsThis ObserverInputs.MAX
              Observer.type_match_exact ObserverInputs.type_from_id
              ObserverInputs.no_wildcard ObserverInputs.match_type
              ObserverInputs.world0
              (ObserverInputs.observer_of ObserverInputs.filter_A_and_B)
              ObserverInputs.stack0 ObserverInputs.event_A _
              ObserverInputs.table_AB eq_refl eq_refl) as (_ & _ & _ & H).
  refine (H [] _ [_] eq_refl eq_refl eq_refl _ 77 _ eq_refl).
  constructor; [left; simpl; lia | constructor].
Defined.

(** C4 at the filter [A || B] on a table that has both components: the
    filter accepts the table, the event is for [A] and the trigger of the
    first term fired.  The event id [A] resolves to column 1 of the table,
    yet the slot of the term that the action finds holds [B], column 2 and
    the type of [B]: the second alternative, which shares the slot, wrote
    it after the triggering term. *)
Lemma or_alternative_overwrites_trigger_slot :
  ObserverInputs.match_type ObserverInputs.world0
    ObserverInputs.filter_A_or_B
    (Observer.type ObserverInputs.table_AB) = true /\
  Observer.action_slot
    (ObserverInputs.callback ObserverInputs.filter_A_or_B) 0 =
    Some (20, 2, [20]) /\
  Observer.resolved Observer.type_match_exact ObserverInputs.type_from_id
    ObserverInputs.no_wildcard ObserverInputs.world0 ObserverInputs.table_AB
    (Observer.event_id ObserverInputs.event_A) = (10, 1, [10]).
Proof. repeat split. Qed.

Section InitFacts.
Import Observer.

Variable filter_body : Type.
Variable EcsThis : entity_t.
Variable ecs_entity_init : ecs_world_t -> ecs_entity_desc_t -> entity_t.
Variable ecs_trigger_init : ecs_world_t -> ecs_trigger_desc_t -> entity_t.
Variable ecs_sparse_add : list (Z * ecs_observer_t) -> Z * ecs_observer_t.
Variable ecs_filter_init :
  ecs_world_t -> ecs_filter_desc_t filter_body -> Z * ecs_filter_t.
Variable ecs_get_mut :
  ecs_world_t -> entity_t -> ecs_world_t * EcsObserver * bool.

Local Abbreviation ecs_observer_init :=
  (ecs_observer_init filter_body EcsThis ecs_entity_init ecs_trigger_init
     ecs_sparse_add ecs_filter_init ecs_get_mut).

Lemma sparse_get_remove (l : list (Z * ecs_observer_t)) (i : Z) :
  sparse_get (sparse_remove l i) i = None.
Proof.
  induction l as [|[j o] l IH]; [reflexivity|].
  unfold sparse_remove in *. cbn [List.filter fst].
  destruct (Z.eqb_spec j i) as [->|Hne]; cbn [negb].
  - exact IH.
  - cbn [sparse_get]. apply Z.eqb_neq in Hne. now rewrite Hne.
Qed.

(** The loop over the triggers ends when it reads inside the array. *)
Lemma delete_triggers_defined (array : list entity_t) (todo : list nat) :
  Forall (fun i => (i < List.length array)%nat) todo ->
  forall world, exists world', delete_triggers world (Some array) todo = Ok world'.
Proof.
  induction todo as [|i todo IH]; intros Hall world.
  - exists world. reflexivity.
  - inversion Hall as [|? ? Hi Hrest]; subst. cbn [delete_triggers].
    destruct (nth_error array i) as [trigger|] eqn:E.
    + apply IH. exact Hrest.
    + apply nth_error_None in E. lia.
Qed.

Lemma ecs_observer_fini_defined (world : ecs_world_t) (o : ecs_observer_t) :
  triggers_readable o -> exists world', ecs_observer_fini world o = Ok world'.
Proof.
  unfold triggers_readable, ecs_observer_fini. intros H.
  destruct (triggers o) as [array|].
  - destruct (delete_triggers_defined array
                (seq 0 (List.length (terms (filter o))))) with (world := world)
      as [w' Hw'].
    { apply Forall_forall. intros i Hi. apply in_seq in Hi. lia. }
    rewrite Hw'. cbn [bind]. eexists. reflexivity.
  - rewrite H. cbn. eexists. reflexivity.
Qed.

Lemma ecs_observer_fini_removes (world world' : ecs_world_t)
    (o : ecs_observer_t) :
  ecs_observer_fini world o = Ok world' ->
  sparse_get (observers world') (o_id o) = None.
Proof.
  unfold ecs_observer_fini. intros H.
  apply bind_Ok_inv in H. destruct H as (w1 & _ & H).
  injection H as <-. cbn [observers with_observers].
  apply sparse_get_remove.
Qed.

(** C7: when the [EcsObserver] component is new and [ecs_filter_init]
    reports an error, [ecs_observer_init] runs [ecs_observer_fini] on the
    observer it has built so far and returns 0; the observer is then no
    longer among the world's observers.  For an entity without an
    [EcsObserver] component both context getters return [NULL]. *)
Theorem observer_failure_results (world w1 : ecs_world_t)
    (desc : ecs_observer_desc_t filter_body) (comp : EcsObserver)
    (new_id rc : Z) (slot : ecs_observer_t) (f : ecs_filter_t)
    (e : entity_t) :
  let entity := ecs_entity_init world (d_entity desc) in
  let w2 :=
    with_observers w1 (sparse_set (observers w1) new_id (with_id slot new_id)) in
  let observer := with_filter (with_id slot new_id) f in
  let w3 := with_observers w2 (sparse_set (observers w2) new_id observer) in
  (is_fini world = false ->
   ecs_get_mut (emit world (call_entity_init (d_entity desc))) entity
     = (w1, comp, true) ->
   ecs_sparse_add (observers w1) = (new_id, slot) ->
   ecs_filter_init w2 {| fd_name := de_name (d_entity desc);
                         fd_body := fd_body (d_filter desc) |} = (rc, f) ->
   rc <> 0 ->
   ecs_observer_init world desc =
     (w <- ecs_observer_fini w3 observer ;; Ok (w, 0)) /\
   (triggers_readable observer ->
    exists w, ecs_observer_fini w3 observer = Ok w /\
              ecs_observer_init world desc = Ok (w, 0) /\
              sparse_get (observers w) new_id = None)) /\
  (observer_components world e = None ->
   ecs_get_observer_ctx world e = Ok NULL /\
   ecs_get_observer_binding_ctx world e = Ok NULL).
Proof.
  intros entity w2 observer w3. split.
  - intros Hfini Hmut Hadd Hinit Hrc.
    assert (Heq : ecs_observer_init world desc =
                  (w <- ecs_observer_fini w3 observer ;; Ok (w, 0))).
    { unfold Observer.ecs_observer_init. rewrite Hfini. cbn [negb ecs_assert bind].
      fold entity. rewrite Hmut, Hadd. fold w2. rewrite Hinit.
      apply Z.eqb_neq in Hrc. rewrite Hrc. reflexivity. }
    split; [exact Heq|].
    intros Hread.
    destruct (ecs_observer_fini_defined w3 observer Hread) as [w Hw].
    exists w. split; [exact Hw|]. split.
    + rewrite Heq, Hw. reflexivity.
    + apply ecs_observer_fini_removes in Hw. exact Hw.
  - intros Hnone.
    unfold ecs_get_observer_ctx, ecs_get_observer_binding_ctx, ecs_get.
    rewrite Hnone. split; reflexivity.
Qed.

End InitFacts.

(** The entity 400 is new, the parser rejects the description. *)
Lemma observer_failure_results_witness :
  (exists w,
     Observer.ecs_observer_init unit ObserverInputs.EcsThis
       ObserverInputs.entity_init ObserverInputs.trigger_init
       ObserverInputs.sparse_add ObserverInputs.filter_init_fails
       ObserverInputs.get_mut ObserverInputs.world0 ObserverInputs.desc_bad
     = Ok (w, 0) /\
     Observer.sparse_get (Observer.observers w) 1 = None) /\
  Observer.ecs_get_observer_ctx ObserverInputs.world0 400 = Ok NULL.
Proof.
  pose (w0 := Observer.emit ObserverInputs.world0
                (Observer.call_entity_init
                   (Observer.d_entity ObserverInputs.desc_bad))).
  pose (w1 := fst (fst (ObserverInputs.get_mut w0 400))).
  destruct (observer_failure_results unit ObserverInputs.EcsThis
              ObserverInputs.entity_init ObserverInputs.trigger_init
              ObserverInputs.sparse_add ObserverInputs.filter_init_fails
              ObserverInputs.get_mut ObserverInputs.world0 w1
              ObserverInputs.desc_bad
              (snd (fst (ObserverInputs.get_mut w0 400))) 1 (-1)
              (snd (ObserverInputs.sparse_add (Observer.observers w1)))
              {| Observer.terms := []; Observer.term_count_actual := 0 |}
              400) as [Hinit Hget].
  split.
  - destruct (Hinit eq_refl eq_refl eq_refl eq_refl ltac:(lia)) as [_ Hfini].
    destruct (Hfini eq_refl) as (w & _ & Hret & Hgone).
    exists w. split; [exact Hret | exact Hgone].
  - apply Hget. reflexivity.
Defined.

(** * Properties of the stream reader *)

Section StreamFacts.
Import Stream.

Variable kind_code : ecs_blob_header_kind_t -> Z.
Variable vector_bytes : ecs_vector_t -> list Z.

Local Abbreviation ecs_component_reader := (ecs_component_reader kind_code).
Local Abbreviation ecs_table_reader := (ecs_table_reader kind_code vector_bytes).
Local Abbreviation ecs_table_reader_next := (ecs_table_reader_next vector_bytes).
Local Abbreviation component_loop := (component_loop kind_code).
Local Abbreviation table_loop := (table_loop kind_code vector_bytes).
Local Abbreviation table_part := (table_part kind_code vector_bytes).
Local Abbreviation ecs_stream_read := (ecs_stream_read kind_code vector_bytes).

(** The stream opens in the component segment, at the start of both
    readers. *)
Lemma ecs_stream_open_state (w : ecs_world_t) (snapshot : ecs_snapshot_t) :
  cur (reader (ecs_stream_open w snapshot)) = EcsComponentSegment /\
  component (reader (ecs_stream_open w snapshot)) = component_reader_zero /\
  table_reader (reader (ecs_stream_open w snapshot)) = table_reader_zero /\
  tables (reader (ecs_stream_open w snapshot)) = snapshot_tables snapshot.
Proof. repeat split. Qed.

(** A call with size 0 returns 0 and leaves buffer and stream as they
    are. *)
Lemma ecs_stream_read_size_0 (fuel : nat) (buffer : list Z)
    (stream : ecs_stream_t) :
  ecs_stream_read fuel buffer 0 stream = Some (Ok (0, buffer, stream)).
Proof. reflexivity. Qed.

Ltac takes :=
  repeat match goal with
  | H : bind ?m _ = Ok _ |- _ =>
      let E := fresh "E" in
      destruct m eqn:E; cbn [bind] in H; try discriminate
  | H : Ok _ = Ok _ |- _ => injection H as H
  | H : (_, _) = (_, _) |- _ => injection H as H
  end.

Lemma fetch_source (s s' : ecs_stream_t) :
  ecs_component_reader_fetch_component_data s = Ok s' -> source s' = source s.
Proof.
  unfold ecs_component_reader_fetch_component_data. intros H. takes.
  now subst s'.
Qed.

Lemma component_next_source (s s' : ecs_stream_t) :
  ecs_component_reader_next s = Ok s' -> source s' = source s.
Proof.
  unfold ecs_component_reader_next. intros H.
  destruct (c_cur (component (reader s))); try discriminate.
  - destruct (id_column (component (reader s))).
    + injection H as <-. reflexivity.
    + takes. subst s'. apply fetch_source in E. exact E.
  - injection H as <-. reflexivity.
  - takes. now subst s'.
  - injection H as <-. reflexivity.
  - match type of H with
    | (if ?c then _ else _) = _ => destruct c
    end; injection H as <-; reflexivity.
Qed.

Lemma component_reader_source (buffer buffer' : list Z) (off size n : Z)
    (s s' : ecs_stream_t) :
  ecs_component_reader buffer off size s = Ok (n, buffer', s') ->
  source s' = source s.
Proof.
  unfold Stream.ecs_component_reader. intros H.
  destruct (size =? 0); [injection H as _ _ <-; reflexivity|].
  destruct (size <? sizeof_int32); [injection H as _ _ <-; reflexivity|].
  set (s1 := if kind_eqb (c_cur (component (reader s))) EcsKindZero
             then _ else s) in H.
  assert (Hs1 : source s1 = source s) by (subst s1; destruct (kind_eqb _ _); reflexivity).
  rewrite <- Hs1. clear Hs1.
  destruct (c_cur (component (reader s1))); try discriminate; takes;
    try (subst; match goal with
                | E : ecs_component_reader_next _ = Ok _ |- _ =>
                    now apply component_next_source in E
                end).
  subst.
  match goal with
  | E : (if ?c then _ else _) = Ok _ |- _ => destruct c
  end.
  - match goal with
    | E : ecs_component_reader_next _ = Ok _ |- _ =>
        now apply component_next_source in E
    end.
  - match goal with E : Ok _ = Ok _ |- _ => now injection E as <- end.
Qed.

Lemma table_next_source (s s' : ecs_stream_t) :
  ecs_table_reader_next s = Ok s' -> source s' = source s.
Proof.
  unfold Stream.ecs_table_reader_next. intros H.
  destruct (t_cur (table_reader (reader s))); try discriminate.
  - destruct (table_index (table_reader (reader s)) <? 0); [discriminate|].
    takes. destruct a as [[t cols] ti]. injection H as <-. reflexivity.
  - injection H as <-. reflexivity.
  - injection H as <-. reflexivity.
  - injection H as <-. reflexivity.
  - takes. now subst s'.
  - takes. now subst s'.
  - repeat match type of H with
    | (if ?c then _ else _) = _ => destruct c
    end; injection H as <-; reflexivity.
Qed.

Lemma table_reader_source (buffer buffer' : list Z) (off size n : Z)
    (s s' : ecs_stream_t) :
  ecs_table_reader buffer off size s = Ok (n, buffer', s') ->
  source s' = source s.
Proof.
  unfold Stream.ecs_table_reader. intros H.
  destruct (size =? 0); [injection H as _ _ <-; reflexivity|].
  destruct (size <? sizeof_int32); [injection H as _ _ <-; reflexivity|].
  set (s1 := if kind_eqb (t_cur (table_reader (reader s))) EcsKindZero
             then _ else s) in H.
  assert (Hs1 : source s1 = source s) by (subst s1; destruct (kind_eqb _ _); reflexivity).
  rewrite <- Hs1. clear Hs1.
  destruct (t_cur (table_reader (reader s1))); try discriminate; takes;
    try (subst; match goal with
                | E : ecs_table_reader_next _ = Ok _ |- _ =>
                    now apply table_next_source in E
                end).
  subst.
  match goal with
  | E : (if ?c then _ else _) = Ok _ |- _ => destruct c
  end.
  - match goal with
    | E : ecs_table_reader_next _ = Ok _ |- _ =>
        now apply table_next_source in E
    end.
  - match goal with E : Ok _ = Ok _ |- _ => now injection E as <- end.
Qed.

Lemma component_loop_source (fuel : nat) :
  forall s s', component_loop fuel s = Some (Ok s') ->
               source (st s') = source (st s).
Proof.
  induction fuel as [|fuel IH]; intros s s' H; [discriminate|].
  cbn [Stream.component_loop] in H.
  destruct (ecs_component_reader (buf s) (total_read s) (remaining s) (st s))
    as [[[rd buffer] stream]| |] eqn:E; try discriminate.
  apply component_reader_source in E.
  destruct (rd =? 0); [injection H as <-; exact E|].
  destruct (rd =? SIZE_MAX); [injection H as <-; exact E|].
  destruct (negb (kind_eqb (cur (reader stream)) EcsComponentSegment)).
  - injection H as <-. exact E.
  - apply IH in H. cbn [st] in H. congruence.
Qed.

Lemma table_loop_source (fuel : nat) :
  forall s s', table_loop fuel s = Some (Ok s') ->
               source (st s') = source (st s).
Proof.
  induction fuel as [|fuel IH]; intros s s' H; [discriminate|].
  cbn [Stream.table_loop] in H.
  destruct (ecs_table_reader (buf s) (total_read s) (remaining s) (st s))
    as [[[rd buffer] stream]| |] eqn:E; try discriminate.
  apply table_reader_source in E.
  destruct (rd =? 0); [injection H as <-; exact E|].
  destruct (negb (kind_eqb (cur (reader stream)) EcsTableSegment)).
  - injection H as <-. exact E.
  - apply IH in H. cbn [st] in H. congruence.
Qed.

Lemma table_part_source (fuel : nat) (s : read_state) (n : Z)
    (buffer : list Z) (s' : ecs_stream_t) :
  table_part fuel s = Some (Ok (n, buffer, s')) -> source s' = source (st s).
Proof.
  unfold Stream.table_part. intros H.
  destruct (kind_eqb (cur (reader (st s))) EcsTableSegment).
  - destruct (table_loop fuel s) as [[s1| |]|] eqn:E; try discriminate.
    injection H as _ _ <-. now apply table_loop_source in E.
  - now injection H as _ _ <-.
Qed.

(** Reading changes neither the world nor the snapshot's tables: only the
    segment and the two readers of the stream move. *)
Lemma ecs_stream_read_source (fuel : nat) (buffer buffer' : list Z)
    (size n : Z) (s s' : ecs_stream_t) :
  ecs_stream_read fuel buffer size s = Some (Ok (n, buffer', s')) ->
  world s' = world s /\ tables (reader s') = tables (reader s).
Proof.
  intros H.
  assert (Hs : source s' = source s).
  { unfold Stream.ecs_stream_read in H.
    destruct (size =? 0); [now injection H as _ _ <-|].
    destruct (negb (sizeof_int32 <=? size)); [discriminate|].
    destruct (kind_eqb (cur (reader s)) EcsComponentSegment).
    - destruct (component_loop fuel _) as [[s1| |]|] eqn:E; try discriminate.
      apply component_loop_source in E. cbn [st] in E.
      destruct (read s1 =? SIZE_MAX).
      + injection H as _ _ <-. exact E.
      + apply table_part_source in H.
        destruct ((read s1 =? 0) && negb (remaining s1 =? 0));
          cbn [st] in H; rewrite H; exact E.
    - apply table_part_source in H. exact H. }
  unfold source in Hs. now injection Hs.
Qed.

End StreamFacts.

(** C8 on [world1].  The stream opens in the component segment, which
    has 18 bytes here; a first call with 22 bytes delivers them and then
    the header of the first table.  With 21 bytes the component reader
    leaves 3 bytes free; the table reader answers [-1] for them, which the
    second loop adds to [total_read] and subtracts from [remaining]: the
    table header is then written one byte early, over the last byte of the
    segment, and the call reports 21 bytes.  With calls of 8, 8 and 4
    bytes the third call returns the table header alone: the two bytes of
    the name are written and then overwritten, and never reach the
    caller. *)
Theorem component_segment_tail_overwritten :
  Stream.cur (Stream.reader
    (Stream.ecs_stream_open StreamInputs.world1 StreamInputs.snapshot1))
    = Stream.EcsComponentSegment /\
  Stream.component_segment StreamInputs.kind_code [1] [4] ["A"%string]
    = [4; 0; 0; 0; 1; 0; 0; 0; 4; 0; 0; 0; 2; 0; 0; 0; 65; 0] /\
  StreamInputs.first_read 22 =
    Some (22, [4; 0; 0; 0; 1; 0; 0; 0; 4; 0; 0; 0; 2; 0; 0; 0; 65; 0;
               9; 0; 0; 0], Stream.EcsTableSegment) /\
  StreamInputs.first_read 21 =
    Some (21, [4; 0; 0; 0; 1; 0; 0; 0; 4; 0; 0; 0; 2; 0; 0; 0; 65;
               9; 0; 0; 0], Stream.EcsTableSegment) /\
  StreamInputs.reads [8; 8; 4]
    (Stream.ecs_stream_open StreamInputs.world1 StreamInputs.snapshot1) =
    Some ([(8, [4; 0; 0; 0; 1; 0; 0; 0]);
           (8, [4; 0; 0; 0; 2; 0; 0; 0]);
           (4, [9; 0; 0; 0])], Stream.EcsTableSegment).
Proof. repeat split; vm_compute; reflexivity. Qed.

(** * More properties of the C++ wrapper *)

Section RangeFacts.
Import Ranges.

(** A loop that meets [n] values before it reaches [last]. *)
Lemma range_for_steps {S : Type} (incr : Z -> result Z) (body : S -> Z -> S)
    (last : Z) (value : nat -> Z) (n : nat) :
  (forall k, (k < n)%nat -> value k <> last) ->
  (forall k, (k < n)%nat -> incr (value k) = Ok (value (Datatypes.S k))) ->
  value n = last ->
  forall (fuel : nat) (j : nat) (s : S),
    (j <= n)%nat -> (n - j < fuel)%nat ->
    range_for fuel incr body {| m_value := value j |} {| m_value := last |} s =
    Some (Ok (fold_left body (map value (seq j (n - j))) s)).
Proof.
  intros Hne Hstep Hlast fuel.
  induction fuel as [|fuel IH]; intros j s Hj Hfuel; [lia|].
  cbn [range_for]. unfold neq, next, deref. cbn [m_value].
  destruct (Nat.eq_dec j n) as [->|Hjn].
  - rewrite Hlast, Z.eqb_refl, Nat.sub_diag. reflexivity.
  - assert (Hlt : (j < n)%nat) by lia.
    pose proof (Hne j Hlt) as Hj'. apply Z.eqb_neq in Hj'. rewrite Hj'.
    cbn [negb]. rewrite (Hstep j Hlt). cbn [bind].
    rewrite IH by lia.
    replace (n - j)%nat with (Datatypes.S (n - Datatypes.S j)) by lia.
    reflexivity.
Qed.

(** [for (auto row : rows)] on a batch of fewer than [2^31] rows runs the
    body on the rows [0 .. count - 1], once each and in this order. *)
Theorem for_rows_visits_each_row {S : Type} (body : S -> Z -> S)
    (r : Cpp.ecs_rows_t) (s : S) (fuel : nat) :
  0 <= Cpp.count r < 2 ^ 31 ->
  (Z.to_nat (Cpp.count r) < fuel)%nat ->
  for_rows fuel body r s =
  Some (Ok (fold_left body
              (map Z.of_nat (seq 0 (Z.to_nat (Cpp.count r)))) s)).
Proof.
  intros Hc Hfuel. unfold for_rows, rows_begin, rows_end.
  assert (Hend : to_int (Cpp.count r mod 2 ^ 32) = Cpp.count r).
  { rewrite Z.mod_small by lia. unfold to_int.
    destruct (Z.ltb_spec (Cpp.count r) (2 ^ 31)); lia. }
  rewrite Hend. change (to_int 0) with (Z.of_nat 0).
  rewrite (range_for_steps incr_int body (Cpp.count r) Z.of_nat
             (Z.to_nat (Cpp.count r))); try lia.
  - now rewrite Nat.sub_0_r.
  - intros k Hk. unfold incr_int.
    destruct (Z.ltb_spec (Z.of_nat k) (2 ^ 31 - 1)); [f_equal; lia | lia].
Qed.

Lemma ids_distinct (start count k : Z) :
  0 <= k < count -> count < 2 ^ 64 ->
  (start + k) mod 2 ^ 64 <> (start + count) mod 2 ^ 64.
Proof.
  intros Hk Hc Heq.
  assert (H : (start + count - (start + k)) mod 2 ^ 64 = 0).
  { rewrite Zminus_mod, Heq, Z.sub_diag. reflexivity. }
  replace (start + count - (start + k)) with (count - k) in H by lia.
  rewrite Z.mod_small in H by lia. lia.
Qed.

(** [entity_range::invoke] runs the action on [m_count] ids, from
    [m_id_start] upwards and wrapping around at [2^64], once each and in
    this order; on an empty range it does nothing. *)
Theorem entity_range_invoke {W : Type} (action : W -> entity_t -> W)
    (r : entity_range) (world : W) (fuel : nat) :
  0 <= m_id_start r < 2 ^ 64 ->
  0 <= m_count r < 2 ^ 31 ->
  (Z.to_nat (m_count r) < fuel)%nat ->
  invoke fuel action r world =
  Some (Ok (fold_left action
              (ids_from (m_id_start r) (Z.to_nat (m_count r))) world)).
Proof.
  intros Hs Hc Hfuel. unfold invoke, range_begin, range_end, ids_from.
  set (value := fun k : nat => (m_id_start r + Z.of_nat k) mod 2 ^ 64).
  replace (m_id_start r) with (value 0%nat) at 1
    by (unfold value; rewrite Z.add_0_r; apply Z.mod_small; lia).
  rewrite (range_for_steps incr_entity action _ value
             (Z.to_nat (m_count r))); try lia.
  - now rewrite Nat.sub_0_r.
  - intros k Hk. unfold value. apply ids_distinct; lia.
  - intros k Hk. unfold value, incr_entity. f_equal.
    rewrite Z.add_mod_idemp_l by lia. f_equal. lia.
  - unfold value. f_equal. lia.
Qed.

End RangeFacts.

(** A batch of three rows; a range of three ids that wraps around. *)
Lemma for_rows_visits_each_row_witness :
  Ranges.for_rows 4 (fun l row => l ++ [row])
    (Inputs.rows_of false false) [] = Some (Ok [0; 1; 2]).
Proof.
  apply (for_rows_visits_each_row (fun l row => l ++ [row])
           (Inputs.rows_of false false) [] 4); simpl; lia.
Defined.

Lemma entity_range_invoke_witness :
  Ranges.invoke 4 (fun l id => l ++ [id])
    {| Ranges.m_id_start := 2 ^ 64 - 2; Ranges.m_count := 3 |} [] =
  Some (Ok [2 ^ 64 - 2; 2 ^ 64 - 1; 0]).
Proof.
  apply (entity_range_invoke (fun l id => l ++ [id])
           {| Ranges.m_id_start := 2 ^ 64 - 2; Ranges.m_count := 3 |} [] 4);
    simpl; lia.
Defined.

Section WorldFacts.
Import WorldHandle.

(** After [world b(a)] the destructors of both objects finalize the world
    once if [a] owned it and not at all otherwise; after
    [world b(std::move(a))] they finalize it exactly once, also when [a]
    only wrapped a borrowed world pointer. *)
Theorem copy_and_move_finalize (a : world) :
  destroy_all [copy a; a] = (if m_owner a then [m_world a] else []) /\
  destroy_all [fst (move a); snd (move a)] = [m_world a] /\
  destroy (copy (fst (move a))) = [].
Proof. destruct a as [p [|]]; repeat split. Qed.

(** Assigning to a world object drops what it owned: after [a = b] no
    destructor of [a] or of [b] finalizes the world [a] owned, and after
    [a = std::move(b)] the world of [b] is finalized exactly once. *)
Theorem assign_drops_owned_world (a b : world) :
  m_owner a = true ->
  m_world a <> m_world b ->
  ~ In (m_world a) (destroy_all [assign a b; b]) /\
  ~ In (m_world a) (destroy_all [fst (move_assign a b); snd (move_assign a b)]) /\
  destroy_all [fst (move_assign a b); snd (move_assign a b)] = [m_world b].
Proof.
  intros Ha Hne. destruct a as [pa oa], b as [pb [|]]; cbn in *;
    repeat split; try reflexivity; intuition congruence.
Qed.

End WorldFacts.

Lemma assign_drops_owned_world_witness :
  ~ In 4096
      (WorldHandle.destroy_all
         [WorldHandle.assign (WorldHandle.create 4096) (WorldHandle.create 8192);
          WorldHandle.create 8192]) /\
  WorldHandle.destroy_all
    [fst (WorldHandle.move_assign (WorldHandle.create 4096)
            (WorldHandle.create 8192));
     snd (WorldHandle.move_assign (WorldHandle.create 4096)
            (WorldHandle.create 8192))] = [8192].
Proof.
  destruct (assign_drops_owned_world (WorldHandle.create 4096)
              (WorldHandle.create 8192) eq_refl
              ltac:(simpl; discriminate)) as (H1 & _ & H3).
  split; [exact H1 | exact H3].
Defined.

Section TypeSyncFacts.
Import Cpp TypeOps.

Variable world_t : Type.
Variable ecs_type_add : world_t -> type_t -> entity_t -> type_t.
Variable ecs_type_merge : world_t -> type_t -> type_t -> type_t.

Lemma sync_from_me_stored (store : type_store) (t : type) :
  store (m_id t) <> None ->
  sync_from_me store t (m_id t) =
    Some {| tc_type := m_type t; tc_resolved := m_normalized t |}.
Proof.
  intros H. unfold sync_from_me.
  destruct (store (m_id t)); [|congruence]. now rewrite Z.eqb_refl.
Qed.

Lemma sync_from_me_other (store : type_store) (t : type) (e : entity_t) :
  e <> m_id t -> sync_from_me store t e = store e.
Proof.
  intros H. unfold sync_from_me.
  destruct (store (m_id t)); [|reflexivity].
  apply Z.eqb_neq in H. now rewrite H.
Qed.

Lemma sync_from_me_absent (store : type_store) (t : type) :
  store (m_id t) = None -> sync_from_me store t = store.
Proof. intros H. unfold sync_from_me. now rewrite H. Qed.

Lemma sync_round_trip (store : type_store) (t : type) :
  store (m_id t) <> None ->
  sync_from_flecs (sync_from_me store t) t = t.
Proof.
  intros H. unfold sync_from_flecs. rewrite sync_from_me_stored by assumption.
  destruct t. reflexivity.
Qed.

(** Every [add] of a [type] keeps the wrapper and the world in step: when
    the type's entity carries an [EcsTypeComponent], that component holds
    the new type and the new normalized type, so that [sync_from_flecs]
    reads the wrapper back; the components of all other entities are as
    before; and when the entity carries none, the world is not touched. *)
Theorem type_add_keeps_in_sync (world : world_t) (store : type_store)
    (t : type) (r : type * type_store) :
  extends world_t ecs_type_add ecs_type_merge world store t r ->
  m_id (fst r) = m_id t /\
  (forall e, e <> m_id t -> snd r e = store e) /\
  (store (m_id t) <> None ->
     snd r (m_id t) =
       Some {| tc_type := m_type (fst r);
               tc_resolved := m_normalized (fst r) |} /\
     sync_from_flecs (snd r) t = fst r) /\
  (store (m_id t) = None -> snd r = store).
Proof.
  intros H.
  assert (Hsync : exists t', m_id t' = m_id t /\ r = (t', sync_from_me store t')).
  { destruct H;
      unfold add_entity, add_type, add_instanceof, add_childof;
      eexists; (split; [|reflexivity]); reflexivity. }
  destruct Hsync as (t' & Hid & ->). cbn [fst snd].
  split; [exact Hid|]. split; [|split].
  - intros e He. apply sync_from_me_other. congruence.
  - intros Hs. rewrite <- Hid in Hs. split.
    + rewrite <- Hid. now apply sync_from_me_stored.
    + unfold sync_from_flecs. rewrite <- Hid.
      rewrite sync_from_me_stored by assumption. cbn. rewrite Hid.
      rewrite <- Hid. destruct t'. reflexivity.
  - intros Hs. apply sync_from_me_absent. congruence.
Qed.

End TypeSyncFacts.

(** Entity 9 carries an [EcsTypeComponent]; [Position] (entity 5) is added
    to its type. *)
Lemma type_add_keeps_in_sync_witness :
  let store := fun e : entity_t =>
    if e =? 9 then Some {| Cpp.tc_type := [1]; Cpp.tc_resolved := [1] |}
    else None in
  let t := {| Cpp.m_id := 9; Cpp.m_type := [1]; Cpp.m_normalized := [1] |} in
  let r := TypeOps.add_entity unit (fun _ ty id => ty ++ [id]) tt store t 5 in
  snd r 9 = Some {| Cpp.tc_type := [1; 5]; Cpp.tc_resolved := [1; 5] |} /\
  snd r 10 = None.
Proof.
  intros store t r.
  destruct (type_add_keeps_in_sync unit (fun _ ty id => ty ++ [id])
              (fun _ a _ => a) tt store t r
              (TypeOps.by_entity unit _ _ tt store t 5)) as (_ & Hother & Hin & _).
  split.
  - apply Hin. simpl. discriminate.
  - apply (Hother 10). simpl. lia.
Defined.

Section SystemCtxFacts.
Import Cpp SystemCtx.

Variable sizeof : cpp_type -> Z.

(** [populate_columns] fills the entries from [index] on and keeps those
    below. *)
Lemma populate_columns_at (rows : ecs_rows_t) (comps : list cpp_type) :
  forall (index : Z) (columns : Z -> pointer) (k : nat) (comp : cpp_type),
    nth_error comps k = Some comp ->
    populate_columns sizeof rows index columns comps (index + Z.of_nat k) =
    _ecs_column rows (sizeof comp) (index + Z.of_nat k + 1).
Proof.
  induction comps as [|c comps IH]; intros index columns k comp Hk.
  - destruct k; discriminate.
  - destruct k as [|k]; cbn [populate_columns].
    + injection Hk as ->. rewrite Z.add_0_r.
      assert (Hkeep : forall cs i cols j, j < i ->
                populate_columns sizeof rows i cols cs j = cols j).
      { induction cs as [|c' cs IHcs]; intros i cols j Hj; [reflexivity|].
        cbn [populate_columns]. rewrite IHcs by lia.
        unfold upd. destruct (Z.eqb_spec j i); [lia | reflexivity]. }
      rewrite Hkeep by lia. unfold upd. now rewrite Z.eqb_refl.
    + cbn [nth_error] in Hk.
      replace (index + Z.of_nat (S k)) with (index + 1 + Z.of_nat k) by lia.
      now apply IH.
Qed.

Lemma call_system_pack_nth (columns : Z -> pointer) (todo : nat) :
  forall (index : Z) (comps : list pointer) (k : nat),
    (k < todo)%nat ->
    nth_error (call_system_pack index columns todo comps)
      (List.length comps + k) = Some (columns (index + Z.of_nat k)).
Proof.
  induction todo as [|todo IH]; intros index comps k Hk; [lia|].
  cbn [call_system_pack].
  destruct k as [|k].
  - rewrite Nat.add_0_r, Z.add_0_r.
    assert (Hkeep : forall n i cs j x, nth_error cs j = Some x ->
              nth_error (call_system_pack i columns n cs) j = Some x).
    { induction n as [|n IHn]; intros i cs j x Hj; [exact Hj|].
      cbn [call_system_pack]. apply IHn.
      rewrite nth_error_app1; [exact Hj|].
      apply nth_error_Some. congruence. }
    apply Hkeep. rewrite nth_error_app2 by lia.
    now rewrite Nat.sub_diag.
  - specialize (IH (index + 1) (comps ++ [columns index]) k ltac:(lia)).
    rewrite length_app in IH. cbn [List.length] in IH.
    replace (List.length comps + S k)%nat
      with (List.length comps + 1 + k)%nat by lia.
    rewrite IH. f_equal. f_equal. lia.
Qed.

Lemma call_system_pack_length (columns : Z -> pointer) (todo : nat) :
  forall (index : Z) (comps : list pointer),
    List.length (call_system_pack index columns todo comps) =
    (List.length comps + todo)%nat.
Proof.
  induction todo as [|todo IH]; intros index comps; cbn [call_system_pack].
  - lia.
  - rewrite IH, length_app. cbn. lia.
Qed.

(** The column that a system action is given for its [k]-th component is
    column [k + 1] of the batch, read at the size of the component with
    references removed, and its count is the row count of the batch,
    whether or not the column is shared: rows [1 .. count - 1] of a shared
    column pass the bounds check here, while the column that [rows::column]
    returns for the same column index rejects them. *)
Theorem system_action_columns (rows : ecs_rows_t)
    (Components : list cpp_type) (columns : Z -> pointer) (k : nat)
    (c : cpp_type) :
  nth_error Components k = Some c ->
  let t := Invoker.remove_reference_t c in
  let arg := {| elem_type := t;
                m_array := _ecs_column rows (sizeof t) (Z.of_nat k + 1);
                m_count := count rows |} in
  nth_error (run sizeof rows Components columns) k = Some arg /\
  (forall row, 0 <= row < count rows ->
     column_at sizeof arg row = Ok (elem_at sizeof t (m_array arg) row)) /\
  (forall reg col row,
     ecs_is_shared rows (Z.of_nat k + 1) = true -> 1 <= row ->
     rows_column sizeof reg rows t (Z.of_nat k + 1) = Ok col ->
     column_at sizeof col row = Abort ECS_COLUMN_INDEX_OUT_OF_RANGE).
Proof.
  intros Hc t arg. split; [|split].
  - unfold run, call_system.
    rewrite nth_error_map.
    set (cols := populate_columns sizeof rows 0 columns
                   (map Invoker.remove_reference_t Components)).
    assert (Hk : (k < List.length Components)%nat)
      by (apply nth_error_Some; congruence).
    pose proof (call_system_pack_nth cols (List.length Components) 0 [] k Hk)
      as Hp. cbn [List.length Nat.add Z.add] in Hp.
    assert (Hcomb : nth_error
              (combine Components
                 (call_system_pack 0 cols (List.length Components) []))
              k = Some (c, cols (Z.of_nat k))).
    { revert Hc Hp. generalize (call_system_pack 0 cols (List.length Components) []).
      generalize (cols (Z.of_nat k)). clear. revert k.
      induction Components as [|x xs IH]; intros k p l Hc Hp.
      - destruct k; discriminate.
      - destruct l as [|y l]; [destruct k; discriminate|].
        destruct k as [|k]; cbn in *; [congruence | now apply IH]. }
    rewrite Hcomb. cbn [option_map fst snd]. unfold arg. do 3 f_equal.
    subst cols.
    pose proof (populate_columns_at rows
                  (map Invoker.remove_reference_t Components) 0 columns k t)
      as Hpop.
    cbn [Z.add] in Hpop. rewrite Hpop; [reflexivity|].
    rewrite nth_error_map, Hc. reflexivity.
  - intros row Hrow. unfold column_at, to_size_t. cbn [m_count arg].
    assert (H0 : (row <? 0) = false) by (apply Z.ltb_ge; lia).
    assert (H : (row <? count rows) = true) by (apply Z.ltb_lt; lia).
    rewrite H0, H. reflexivity.
  - intros reg col row Hs Hrow Hcol.
    apply rows_column_inv in Hcol. apply get_column_inv in Hcol.
    subst col. unfold column_at, to_size_t. cbn [m_count]. rewrite Hs.
    assert (H0 : (row <? 0) = false) by (apply Z.ltb_ge; lia).
    assert (H : (row <? 1) = false) by (apply Z.ltb_ge; lia).
    rewrite H0, H. reflexivity.
Qed.

End SystemCtxFacts.

(** A system over [Position&] and [const Velocity] on the three-row batch
    with shared columns: row 2 of the argument for [Position] is accepted,
    row 2 of the column that [rows::column] returns is not. *)
Lemma system_action_columns_witness :
  nth_error
    (SystemCtx.run Inputs.sizeof8 (Inputs.rows_of true false)
       [Cpp.TRef Inputs.Position; Cpp.TConst Inputs.Velocity]
       (fun _ => 0)) 0 =
  Some {| Cpp.elem_type := Inputs.Position;
          Cpp.m_array := 4096; Cpp.m_count := 3 |} /\
  Cpp.column_at Inputs.sizeof8
    {| Cpp.elem_type := Inputs.Position;
       Cpp.m_array := 4096; Cpp.m_count := 3 |} 2 = Ok (4096 + 2 * 8) /\
  Cpp.column_at Inputs.sizeof8
    {| Cpp.elem_type := Inputs.Position;
       Cpp.m_array := 4096; Cpp.m_count := 1 |} 2 =
    Abort ECS_COLUMN_INDEX_OUT_OF_RANGE.
Proof.
  destruct (system_action_columns Inputs.sizeof8 (Inputs.rows_of true false)
              [Cpp.TRef Inputs.Position; Cpp.TConst Inputs.Velocity]
              (fun _ => 0) 0 _ eq_refl) as (Harg & Hrow & Hshared).
  split; [exact Harg|]. split.
  - apply (Hrow 2). simpl. lia.
  - apply (Hshared Inputs.reg57 _ 2 eq_refl ltac:(lia)). reflexivity.
Defined.

(** * Properties of [entity_with_invoker_impl] *)

Section EntityWithFacts.
Import EntityWith.

Variable world_t : Type.
Variable ecs_record_find : world_t -> entity_t -> pointer.
Variable record_table : world_t -> pointer -> pointer.
Variable ecs_table_get_type : world_t -> pointer -> option type_t.
Variable ecs_type_index_of : type_t -> entity_t -> Z.
Variable ecs_record_get_column : world_t -> pointer -> Z -> Z -> pointer.
Variable ecs_table_add_id : world_t -> pointer -> entity_t -> world_t * pointer.
Variable func : world_t -> list pointer -> world_t.

Local Abbreviation get_ptrs_loop := (get_ptrs_loop world_t ecs_record_get_column).
Local Abbreviation get_ptrs :=
  (get_ptrs world_t ecs_table_get_type ecs_type_index_of ecs_record_get_column).
Local Abbreviation invoke_get :=
  (invoke_get world_t ecs_record_find record_table ecs_table_get_type
     ecs_type_index_of ecs_record_get_column func).
Local Abbreviation locations :=
  (locations world_t ecs_record_find record_table ecs_table_get_type
     ecs_type_index_of ecs_record_get_column).
Local Abbreviation add_ids := (add_ids world_t ecs_table_add_id).
Local Abbreviation changing_ids := (changing_ids world_t ecs_table_add_id).

(** The loop stops at the first missing column; the entries it has passed
    hold the columns' addresses, all others are as before. *)
Lemma get_ptrs_loop_spec (w : world_t) (r : pointer) (columns : list Z) :
  forall (i : Z) (ptrs : Z -> pointer),
    fst (get_ptrs_loop w r columns i ptrs) =
      forallb (fun c => negb (c =? -1)) columns /\
    (forall j, j < i -> snd (get_ptrs_loop w r columns i ptrs) j = ptrs j) /\
    (forallb (fun c => negb (c =? -1)) columns = true ->
     forall (k : nat) (c : Z), nth_error columns k = Some c ->
       snd (get_ptrs_loop w r columns i ptrs) (i + Z.of_nat k) =
         ecs_record_get_column w r c 0).
Proof.
  induction columns as [|c columns IH]; intros i ptrs; cbn [EntityWith.get_ptrs_loop forallb].
  - repeat split. intros _ [|k] c H; discriminate.
  - destruct (c =? -1) eqn:Ec; cbn [negb andb].
    + repeat split. discriminate.
    + destruct (IH (i + 1) (upd ptrs i (ecs_record_get_column w r c 0)))
        as (Hb & Hkeep & Hall).
      split; [exact Hb|]. split.
      * intros j Hj. rewrite Hkeep by lia. apply upd_other. lia.
      * intros Hf [|k] c' Hk.
        -- injection Hk as <-. rewrite Z.add_0_r, Hkeep by lia. apply upd_same.
        -- cbn [nth_error] in Hk.
           replace (i + Z.of_nat (S k)) with (i + 1 + Z.of_nat k) by lia.
           now apply Hall.
Qed.

Lemma invoke_callback_pack_all (ptrs : Z -> pointer) (todo : nat) :
  forall (arg : Z) (comps : list pointer),
    invoke_callback_pack arg ptrs todo comps =
    comps ++ map (fun k => ptrs (arg + Z.of_nat k)) (seq 0 todo).
Proof.
  induction todo as [|todo IH]; intros arg comps; cbn [invoke_callback_pack].
  - cbn. now rewrite app_nil_r.
  - rewrite IH, <- app_assoc. f_equal. cbn [seq map app].
    rewrite Z.add_0_r. f_equal. rewrite <- seq_shift, map_map.
    apply map_ext. intros k. f_equal. lia.
Qed.

(** [get_ptrs] answers [true] exactly when the type of the table holds
    every id, and then entry [k] of the array is the address of the column
    of the [k]-th id; for a table without a type it answers [false] and
    leaves the array alone. *)
Theorem get_ptrs_all_or_false (w : world_t) (ids : list entity_t)
    (r table : pointer) (ptrs : Z -> pointer) :
  table <> NULL ->
  exists ok ptrs',
    get_ptrs w ids r table ptrs = Ok (ok, ptrs') /\
    (ok = true <->
       exists type, ecs_table_get_type w table = Some type /\
                    Forall (fun c => ecs_type_index_of type c <> -1) ids) /\
    (ok = true ->
       forall type k c,
         ecs_table_get_type w table = Some type ->
         nth_error ids k = Some c ->
         ptrs' (Z.of_nat k) =
           ecs_record_get_column w r (ecs_type_index_of type c) 0) /\
    (ecs_table_get_type w table = None -> ptrs' = ptrs).
Proof.
  intros Ht. unfold EntityWith.get_ptrs.
  apply Z.eqb_neq in Ht. rewrite Ht. cbn [negb ecs_assert bind].
  destruct (ecs_table_get_type w table) as [type|].
  - destruct (get_ptrs_loop_spec w r (map (ecs_type_index_of type) ids) 0 ptrs)
      as (Hb & _ & Hall).
    destruct (get_ptrs_loop w r (map (ecs_type_index_of type) ids) 0 ptrs)
      as [ok ptrs'] eqn:E. cbn [fst snd] in *.
    exists ok, ptrs'. split; [reflexivity|].
    assert (Hiff : ok = true <->
              Forall (fun c => ecs_type_index_of type c <> -1) ids).
    { rewrite Hb, forallb_forall, Forall_forall. split.
      - intros H c Hc.
        specialize (H (ecs_type_index_of type c) (in_map _ _ _ Hc)).
        apply negb_true_iff, Z.eqb_neq in H. exact H.
      - intros H c Hc. apply in_map_iff in Hc. destruct Hc as (x & <- & Hx).
        apply negb_true_iff, Z.eqb_neq. now apply H. }
    split; [|split].
    + rewrite Hiff. split.
      * intros H. exists type. now split.
      * intros (type' & Heq & H). now injection Heq as <-.
    + intros Hok type' k c Heq Hk. injection Heq as <-.
      rewrite Hb in Hok.
      specialize (Hall Hok k (ecs_type_index_of type c)).
      cbn [Z.add] in Hall. apply Hall.
      rewrite nth_error_map, Hk. reflexivity.
    + discriminate.
  - exists false, ptrs. split; [reflexivity|]. split; [|split].
    + split; [discriminate|]. intros (type & H & _). discriminate.
    + discriminate.
    + reflexivity.
Qed.

(** [invoke_get] calls the user's function exactly when it returns [true],
    which is exactly when the entity has a record with a table whose type
    holds all the components; the function is then given the locations of
    the components in the order of its parameters.  Otherwise the world is
    left as it is.  What the local array held makes no difference. *)
Theorem invoke_get_calls_iff_true (w : world_t) (ids : list entity_t)
    (id : entity_t) (ptrs : Z -> pointer) :
  invoke_get w ids id ptrs =
  Ok (match locations w ids id with
      | Some args => (func w args, true)
      | None => (w, false)
      end).
Proof.
  unfold EntityWith.invoke_get, EntityWith.locations.
  destruct (ecs_record_find w id =? NULL) eqn:Er; [reflexivity|].
  destruct (record_table w (ecs_record_find w id) =? NULL) eqn:Et;
    [reflexivity|].
  cbn [orb]. unfold EntityWith.get_ptrs. rewrite Et.
  cbn [negb ecs_assert bind].
  destruct (ecs_table_get_type w (record_table w (ecs_record_find w id)))
    as [type|]; [|reflexivity].
  cbn [bind].
  destruct (get_ptrs_loop_spec w (ecs_record_find w id)
              (map (ecs_type_index_of type) ids) 0 ptrs) as (Hb & _ & Hall).
  destruct (get_ptrs_loop w (ecs_record_find w id)
              (map (ecs_type_index_of type) ids) 0 ptrs) as [ok ptrs'].
  cbn [fst snd] in *.
  assert (Hfa : forallb (fun c => negb (c =? -1)) (map (ecs_type_index_of type) ids)
                = forallb (fun c => negb (ecs_type_index_of type c =? -1)) ids).
  { clear. induction ids as [|c cs IH]; [reflexivity|].
    cbn [map forallb]. now rewrite IH. }
  rewrite Hfa in Hb, Hall. rewrite Hb.
  destruct (forallb (fun c => negb (ecs_type_index_of type c =? -1)) ids);
    [|reflexivity].
  cbn [negb]. unfold invoke_callback.
  rewrite invoke_callback_pack_all. cbn [app]. do 3 f_equal.
  apply nth_error_ext. intros k.
  rewrite !nth_error_map, nth_error_seq.
  destruct (Nat.ltb_spec k (List.length ids)) as [Hk|Hk].
  - cbn [option_map Nat.add].
    destruct (nth_error ids k) as [c|] eqn:Ek.
    + cbn [option_map]. f_equal.
      specialize (Hall eq_refl k (ecs_type_index_of type c)).
      cbn [Z.add] in *. apply Hall.
      rewrite nth_error_map, Ek. reflexivity.
    + apply nth_error_None in Ek. lia.
  - cbn [option_map].
    assert (Hn : nth_error ids k = None) by (apply nth_error_None; lia).
    now rewrite Hn.
Qed.

Lemma array_prefix_snoc {A : Type} (a : Z -> A) (elem : Z) (v : A) :
  0 <= elem ->
  array_prefix (upd a elem v) (elem + 1) = array_prefix a elem ++ [v].
Proof.
  intros He. unfold array_prefix.
  replace (Z.to_nat (elem + 1)) with (Z.to_nat elem + 1)%nat by lia.
  rewrite seq_app, map_app. cbn [seq map Nat.add]. f_equal.
  - apply map_ext_in. intros k Hk. apply in_seq in Hk.
    apply upd_other. lia.
  - rewrite Z2Nat.id by lia. now rewrite upd_same.
Qed.

Lemma add_ids_prefix (ids : list entity_t) :
  forall (w : world_t) (prev next0 : pointer) (added : Z -> entity_t)
         (elem : Z),
    0 <= elem ->
    let '(_, _, _, added', elem') := add_ids w ids prev next0 added elem in
    array_prefix added' elem' =
      array_prefix added elem ++ changing_ids w ids prev.
Proof.
  induction ids as [|id ids IH]; intros w prev next0 added elem He;
    cbn [EntityWith.add_ids EntityWith.changing_ids].
  - now rewrite app_nil_r.
  - destruct (ecs_table_add_id w prev id) as [w' next].
    unfold store_added.
    destruct (prev =? next) eqn:E; cbn [negb].
    + specialize (IH w' next next added elem He).
      destruct (add_ids w' ids next next added elem) as [[[[? ?] ?] a'] e'].
      exact IH.
    + specialize (IH w' next next (upd added elem id) (elem + 1) ltac:(lia)).
      destruct (add_ids w' ids next next (upd added elem id) (elem + 1))
        as [[[[? ?] ?] a'] e'].
      rewrite IH, array_prefix_snoc by assumption.
      now rewrite <- app_assoc.
Qed.

(** The ids that [invoke_get_mut] collects for [ecs_commit] are those of
    the components whose addition led to another table, in the order of the
    parameters, after what the array held below [elem]. *)
Theorem added_ids_are_the_changing_ones (ids : list entity_t)
    (w : world_t) (prev next0 : pointer) (added : Z -> entity_t) (elem : Z) :
  0 <= elem ->
  let '(_, _, _, added', elem') := add_ids w ids prev next0 added elem in
  array_prefix added' elem' =
    array_prefix added elem ++ changing_ids w ids prev.
Proof. apply add_ids_prefix. Qed.

End EntityWithFacts.

(** * More properties of the observer module *)

Section ObserverLifeFacts.
Import Observer.

Variable filter_body : Type.
Variable EcsThis : entity_t.
Variable ecs_entity_init : ecs_world_t -> ecs_entity_desc_t -> entity_t.
Variable ecs_trigger_init : ecs_world_t -> ecs_trigger_desc_t -> entity_t.
Variable ecs_sparse_add : list (Z * ecs_observer_t) -> Z * ecs_observer_t.
Variable ecs_filter_init :
  ecs_world_t -> ecs_filter_desc_t filter_body -> Z * ecs_filter_t.
Variable ecs_get_mut :
  ecs_world_t -> entity_t -> ecs_world_t * EcsObserver * bool.

Local Abbreviation ecs_observer_init :=
  (ecs_observer_init filter_body EcsThis ecs_entity_init ecs_trigger_init
     ecs_sparse_add ecs_filter_init ecs_get_mut).
Local Abbreviation init_triggers :=
  (init_triggers filter_body EcsThis ecs_trigger_init).

Local Abbreviation wants_trigger := (ObserverSpec.wants_trigger EcsThis).
Local Abbreviation obtained_triggers :=
  (ObserverSpec.obtained_triggers filter_body EcsThis ecs_trigger_init).

Lemma sparse_get_set (l : list (Z * ecs_observer_t)) (i : Z)
    (o : ecs_observer_t) :
  sparse_get (sparse_set l i o) i = Some o.
Proof. unfold sparse_set. cbn [sparse_get]. now rewrite Z.eqb_refl. Qed.

Lemma sparse_get_remove_other (l : list (Z * ecs_observer_t)) (i j : Z) :
  j <> i -> sparse_get (sparse_remove l i) j = sparse_get l j.
Proof.
  intros Hne. induction l as [|[k o] l IH]; [reflexivity|].
  unfold sparse_remove in *. cbn [List.filter fst].
  destruct (Z.eqb_spec k i) as [->|Hk]; cbn [negb sparse_get].
  - rewrite IH. destruct (Z.eqb_spec i j); [congruence | reflexivity].
  - now rewrite IH.
Qed.

(** The trigger loop only makes calls: it leaves the observers and the
    components of the world alone.  It returns one entry per term, 0 for a
    [Not] term and for a term on another entity, and asks for one trigger
    for each other term, in the order of the terms. *)
Lemma init_triggers_spec (observer_id : Z)
    (desc : ecs_observer_desc_t filter_body) (ts : list ecs_term_t) :
  forall (w : ecs_world_t),
    let r := init_triggers w observer_id desc ts in
    List.length (snd r) = List.length ts /\
    observers (fst r) = observers w /\
    observer_components (fst r) = observer_components w /\
    is_fini (fst r) = is_fini w /\
    calls (fst r) =
      calls w ++
      map (fun t => call_trigger_init
                      {| td_term := t; td_ctx := observer_id;
                         td_binding_ctx := d_binding_ctx desc;
                         td_events := d_events desc |})
          (List.filter wants_trigger ts) /\
    (forall k t, nth_error ts k = Some t -> wants_trigger t = false ->
                 nth_error (snd r) k = Some 0).
Proof.
  induction ts as [|t ts IH]; intros w; cbn [Observer.init_triggers].
  - cbn. rewrite app_nil_r. repeat split. intros [|k] t H; discriminate.
  - cbn [List.filter].
    assert (Hwt : wants_trigger t =
              negb (oper_eqb (oper t) EcsNot
                    || negb (args0_entity t =? EcsThis))) by reflexivity.
    destruct (oper_eqb (oper t) EcsNot || negb (args0_entity t =? EcsThis))
      eqn:E; cbn [negb] in Hwt; rewrite Hwt.
    + specialize (IH w). cbn zeta in IH.
      destruct (init_triggers w observer_id desc ts) as [w' rest].
      cbn [fst snd] in *.
      destruct IH as (Hl & Ho & Hc & Hf & Hcalls & Hz).
      split; [cbn; lia|]. split; [exact Ho|]. split; [exact Hc|].
      split; [exact Hf|]. split; [exact Hcalls|].
      intros [|k] t' Hk Hw; [reflexivity|]. cbn [nth_error] in *. eauto.
    + set (td := {| td_term := t; td_ctx := observer_id;
                    td_binding_ctx := d_binding_ctx desc;
                    td_events := d_events desc |}).
      specialize (IH (emit w (call_trigger_init td))). cbn zeta in IH.
      destruct (init_triggers (emit w (call_trigger_init td)) observer_id desc ts)
        as [w' rest].
      cbn [fst snd] in *.
      destruct IH as (Hl & Ho & Hc & Hf & Hcalls & Hz).
      split; [cbn; lia|]. split; [exact Ho|]. split; [exact Hc|].
      split; [exact Hf|]. split.
      * rewrite Hcalls. cbn [emit with_calls calls map].
        now rewrite <- app_assoc.
      * intros [|k] t' Hk Hw.
        -- injection Hk as <-. congruence.
        -- cbn [nth_error] in *. eauto.
Qed.

(** The result of [ecs_observer_init] for a new observer entity whose
    filter parses. *)
Lemma init_new_observer (world w1 : ecs_world_t)
    (desc : ecs_observer_desc_t filter_body) (comp : EcsObserver)
    (new_id : Z) (slot : ecs_observer_t) (f : ecs_filter_t) :
  let entity := ecs_entity_init world (d_entity desc) in
  let w2 :=
    with_observers w1 (sparse_set (observers w1) new_id (with_id slot new_id)) in
  is_fini world = false ->
  ecs_get_mut (emit world (call_entity_init (d_entity desc))) entity
    = (w1, comp, true) ->
  ecs_sparse_add (observers w1) = (new_id, slot) ->
  ecs_filter_init w2 {| fd_name := de_name (d_entity desc);
                        fd_body := fd_body (d_filter desc) |} = (0, f) ->
  exists w' o array,
    ecs_observer_init world desc = Ok (w', entity) /\
    ecs_get_observer_ctx w' entity = Ok (d_ctx desc) /\
    ecs_get_observer_binding_ctx w' entity = Ok (d_binding_ctx desc) /\
    observer_components w' entity = Some {| observer := Some new_id |} /\
    sparse_get (observers w') new_id = Some o /\
    o_id o = new_id /\ action o = d_callback desc /\ filter o = f /\
    o_entity o = entity /\
    o_ctx o = d_ctx desc /\ ctx_free o = d_ctx_free desc /\
    binding_ctx o = d_binding_ctx desc /\
    binding_ctx_free o = d_binding_ctx_free desc /\
    triggers o = Some array /\
    List.length array = List.length (terms f).
Proof.
  intros entity w2 Hfini Hmut Hadd Hinit.
  unfold Observer.ecs_observer_init. rewrite Hfini.
  cbn [negb ecs_assert bind]. fold entity. rewrite Hmut, Hadd. fold w2.
  rewrite Hinit. cbn [Z.eqb negb].
  set (w3 := with_observers w2 _).
  pose proof (init_triggers_spec new_id desc (terms f) w3) as Hspec.
  cbn zeta in Hspec.
  destruct (init_triggers w3 new_id desc (terms f)) as [w4 array].
  cbn [fst snd] in Hspec. destruct Hspec as (Hlen & _).
  eexists. eexists. exists array.
  split; [reflexivity|].
  unfold ecs_get_observer_ctx, ecs_get_observer_binding_ctx, ecs_get,
    deref_observer.
  cbn [observer_components with_component observers with_observers].
  rewrite upd_same. cbn [observer]. rewrite sparse_get_set. cbn [bind].
  repeat split; try reflexivity. exact Hlen.
Qed.

(** When the entity already has an observer and the description names the
    entity, [ecs_observer_init] replaces the callback and the two contexts
    by those of the description that are not null and keeps the others;
    the filter, the events and the triggers stay as they are, whatever the
    description says.  When the description names no entity, nothing is
    changed. *)
Theorem observer_init_existing (world w1 : ecs_world_t)
    (desc : ecs_observer_desc_t filter_body) (comp : EcsObserver)
    (oid : Z) (o : ecs_observer_t) :
  let entity := ecs_entity_init world (d_entity desc) in
  is_fini world = false ->
  ecs_get_mut (emit world (call_entity_init (d_entity desc))) entity
    = (w1, comp, false) ->
  observer comp = Some oid ->
  sparse_get (observers w1) oid = Some o ->
  (de_entity (d_entity desc) = 0 ->
     ecs_observer_init world desc = Ok (w1, entity)) /\
  (de_entity (d_entity desc) <> 0 ->
     exists w' o',
       ecs_observer_init world desc = Ok (w', entity) /\
       sparse_get (observers w') oid = Some o' /\
       action o' = (if d_callback desc =? 0 then action o else d_callback desc) /\
       o_ctx o' = (if d_ctx desc =? NULL then o_ctx o else d_ctx desc) /\
       binding_ctx o' =
         (if d_binding_ctx desc =? NULL then binding_ctx o
          else d_binding_ctx desc) /\
       filter o' = filter o /\ triggers o' = triggers o /\
       events o' = events o /\ o_id o' = o_id o /\
       calls w' = calls w1).
Proof.
  intros entity Hfini Hmut Hcomp Hget.
  unfold Observer.ecs_observer_init. rewrite Hfini.
  cbn [negb ecs_assert bind]. fold entity. rewrite Hmut, Hcomp. split.
  - intros ->. reflexivity.
  - intros Hne. apply Z.eqb_neq in Hne. rewrite Hne. cbn [negb].
    rewrite Hget. eexists. eexists. split; [reflexivity|].
    cbn [observers with_observers calls]. rewrite sparse_get_set.
    split; [reflexivity|].
    destruct (d_callback desc =? 0), (d_ctx desc =? NULL),
      (d_binding_ctx desc =? NULL); cbn; repeat split; reflexivity.
Qed.

(** The calls of the loop of [ecs_observer_fini]. *)
Lemma delete_triggers_calls (array : list entity_t) (todo : list nat) :
  Forall (fun i => (i < List.length array)%nat) todo ->
  forall world,
    exists world',
      delete_triggers world (Some array) todo = Ok world' /\
      observers world' = observers world /\
      observer_components world' = observer_components world /\
      calls world' =
        calls world ++
        map call_delete
          (List.filter (fun t => negb (t =? 0))
             (map (fun i => nth i array 0) todo)).
Proof.
  induction todo as [|i todo IH]; intros Hall world.
  - exists world. cbn. rewrite app_nil_r. repeat split.
  - inversion Hall as [|? ? Hi Hrest]; subst. cbn [delete_triggers].
    rewrite (nth_error_nth' array 0 Hi).
    cbn [map List.filter].
    destruct (negb (nth i array 0 =? 0)).
    + destruct (IH Hrest (emit world (call_delete (nth i array 0))))
        as (w' & Hw' & Ho & Hc & Hcalls).
      exists w'. split; [exact Hw'|]. repeat split; try assumption.
      rewrite Hcalls. cbn [emit with_calls calls map].
      now rewrite <- app_assoc.
    + apply IH. exact Hrest.
Qed.

(** What [ecs_observer_fini] does to the world. *)
Lemma fini_observer (world : ecs_world_t) (o : ecs_observer_t)
    (array : list entity_t) :
  triggers o = Some array ->
  (List.length (terms (filter o)) <= List.length array)%nat ->
  exists world',
    ecs_observer_fini world o = Ok world' /\
    calls world' =
      calls world
      ++ map call_delete
           (List.filter (fun t => negb (t =? 0))
              (firstn (List.length (terms (filter o))) array))
      ++ [call_os_free (triggers o); call_filter_fini (filter o)]
      ++ (if ctx_free o =? 0 then []
          else [call_free (ctx_free o) (o_ctx o)])
      ++ (if binding_ctx_free o =? 0 then []
          else [call_free (binding_ctx_free o) (binding_ctx o)]) /\
    sparse_get (observers world') (o_id o) = None /\
    (forall j, j <> o_id o ->
       sparse_get (observers world') j = sparse_get (observers world) j) /\
    observer_components world' = observer_components world.
Proof.
  intros Ht Hlen. unfold ecs_observer_fini. rewrite Ht.
  destruct (delete_triggers_calls array (seq 0 (List.length (terms (filter o)))))
    with (world := world) as (w1 & Hw1 & Ho & Hc & Hcalls).
  { apply Forall_forall. intros i Hi. apply in_seq in Hi. lia. }
  rewrite Hw1. cbn [bind]. eexists. split; [reflexivity|].
  assert (Hfirst : map (fun i => nth i array 0)
                     (seq 0 (List.length (terms (filter o)))) =
                   firstn (List.length (terms (filter o))) array).
  { clear - Hlen. revert Hlen.
    generalize (List.length (terms (filter o))) as n.
    intros n. revert array. induction n as [|n IH]; intros array Hlen.
    - reflexivity.
    - destruct array as [|x array]; [cbn in Hlen; lia|].
      cbn [seq map firstn nth]. f_equal.
      rewrite <- seq_shift, map_map. apply IH. cbn in Hlen. lia. }
  rewrite Hfirst in Hcalls.
  split; [|split; [|split]].
  - destruct (ctx_free o =? 0), (binding_ctx_free o =? 0);
      cbn [negb emit with_calls with_observers calls];
      rewrite Hcalls; rewrite <- ?app_assoc; reflexivity.
  - destruct (ctx_free o =? 0), (binding_ctx_free o =? 0);
      cbn [negb emit with_calls with_observers observers];
      apply sparse_get_remove.
  - intros j Hj.
    destruct (ctx_free o =? 0), (binding_ctx_free o =? 0);
      cbn [negb emit with_calls with_observers observers];
      rewrite sparse_get_remove_other by assumption; now rewrite Ho.
  - destruct (ctx_free o =? 0), (binding_ctx_free o =? 0);
      cbn [negb emit with_calls with_observers observer_components];
      exact Hc.
Qed.

(** [ecs_observer_init] asks for no trigger for a [Not] term or a term on
    another entity and stores 0 for it; for every other term it asks for
    one trigger, in the order of the terms, with the term, the observer as
    context and the events and binding context of the description.  The
    array it fills has one entry per term. *)
Theorem triggers_for_terms (observer_id : Z)
    (desc : ecs_observer_desc_t filter_body) (ts : list ecs_term_t)
    (w : ecs_world_t) :
  let r := init_triggers w observer_id desc ts in
  List.length (snd r) = List.length ts /\
  calls (fst r) =
    calls w ++
    map (fun t => call_trigger_init
                    {| td_term := t; td_ctx := observer_id;
                       td_binding_ctx := d_binding_ctx desc;
                       td_events := d_events desc |})
        (List.filter wants_trigger ts) /\
  (forall k t, nth_error ts k = Some t -> wants_trigger t = false ->
               nth_error (snd r) k = Some 0).
Proof.
  destruct (init_triggers_spec observer_id desc ts w) as (H1 & _ & _ & _ & H5 & H6).
  split; [exact H1|]. split; [exact H5 | exact H6].
Qed.

(** For a new observer entity whose filter parses, [ecs_observer_init]
    returns the entity, and the two getters then return the contexts of the
    description; the observer that the entity's component points to holds
    the callback and the parsed filter and one trigger entry per term. *)
Theorem observer_init_then_get (world w1 : ecs_world_t)
    (desc : ecs_observer_desc_t filter_body) (comp : EcsObserver)
    (new_id : Z) (slot : ecs_observer_t) (f : ecs_filter_t) :
  let entity := ecs_entity_init world (d_entity desc) in
  let w2 :=
    with_observers w1 (sparse_set (observers w1) new_id (with_id slot new_id)) in
  is_fini world = false ->
  ecs_get_mut (emit world (call_entity_init (d_entity desc))) entity
    = (w1, comp, true) ->
  ecs_sparse_add (observers w1) = (new_id, slot) ->
  ecs_filter_init w2 {| fd_name := de_name (d_entity desc);
                        fd_body := fd_body (d_filter desc) |} = (0, f) ->
  exists w' o array,
    ecs_observer_init world desc = Ok (w', entity) /\
    ecs_get_observer_ctx w' entity = Ok (d_ctx desc) /\
    ecs_get_observer_binding_ctx w' entity = Ok (d_binding_ctx desc) /\
    sparse_get (observers w') new_id = Some o /\
    action o = d_callback desc /\ filter o = f /\ o_entity o = entity /\
    triggers o = Some array /\
    List.length array = List.length (terms f).
Proof.
  intros entity w2 Hfini Hmut Hadd Hinit.
  destruct (init_new_observer world w1 desc comp new_id slot f
              Hfini Hmut Hadd Hinit)
    as (w' & o & array & H1 & H2 & H3 & _ & H5 & _ & H7 & H8 & H9 & _ & _
        & _ & _ & H10 & H11).
  exists w', o, array. repeat split; assumption.
Qed.

(** [ecs_observer_fini] deletes the triggers of the observer that are not
    0, one for each term and in the order of the terms, frees the trigger
    array and the filter, calls each of the two free functions that is not
    null on its context, and removes the observer from the world's
    observers; all other observers and the components stay. *)
Theorem observer_fini_effects (world : ecs_world_t) (o : ecs_observer_t)
    (array : list entity_t) :
  triggers o = Some array ->
  (List.length (terms (filter o)) <= List.length array)%nat ->
  exists world',
    ecs_observer_fini world o = Ok world' /\
    calls world' =
      calls world
      ++ map call_delete
           (List.filter (fun t => negb (t =? 0))
              (firstn (List.length (terms (filter o))) array))
      ++ [call_os_free (triggers o); call_filter_fini (filter o)]
      ++ (if ctx_free o =? 0 then []
          else [call_free (ctx_free o) (o_ctx o)])
      ++ (if binding_ctx_free o =? 0 then []
          else [call_free (binding_ctx_free o) (binding_ctx o)]) /\
    sparse_get (observers world') (o_id o) = None /\
    (forall j, j <> o_id o ->
       sparse_get (observers world') j = sparse_get (observers world) j) /\
    observer_components world' = observer_components world.
Proof. exact (fini_observer world o array). Qed.

(** The array that the trigger loop fills holds what [ecs_trigger_init]
    returned: at the terms that want a trigger, in order, the array has
    the triggers obtained, and its entries that are not 0 are the
    obtained triggers that are not 0. *)
Lemma init_triggers_obtained (observer_id : Z)
    (desc : ecs_observer_desc_t filter_body) (ts : list ecs_term_t) :
  forall (w : ecs_world_t),
    let array := snd (init_triggers w observer_id desc ts) in
    map snd (List.filter (fun p => wants_trigger (fst p)) (combine ts array))
      = obtained_triggers w observer_id desc ts /\
    List.filter (fun t => negb (t =? 0)) array =
      List.filter (fun t => negb (t =? 0))
        (obtained_triggers w observer_id desc ts).
Proof.
  induction ts as [|t ts IH]; intros w; cbn zeta; [now split|].
  cbn [Observer.init_triggers ObserverSpec.obtained_triggers].
  assert (Hwt : wants_trigger t =
                negb (oper_eqb (oper t) EcsNot
                      || negb (args0_entity t =? EcsThis)))
    by reflexivity.
  rewrite Hwt.
  destruct (oper_eqb (oper t) EcsNot || negb (args0_entity t =? EcsThis))
    eqn:E; cbn [negb].
  - specialize (IH w). cbn zeta in IH.
    destruct (init_triggers w observer_id desc ts) as [w' rest].
    cbn [snd combine List.filter fst] in *.
    rewrite Hwt. cbn [negb Z.eqb]. exact IH.
  - set (td := {| td_term := t; td_ctx := observer_id;
                  td_binding_ctx := d_binding_ctx desc;
                  td_events := d_events desc |}).
    specialize (IH (emit w (call_trigger_init td))). cbn zeta in IH.
    destruct (init_triggers (emit w (call_trigger_init td)) observer_id
                desc ts) as [w' rest].
    cbn [snd combine List.filter fst map] in *.
    rewrite Hwt. cbn [negb map snd].
    destruct IH as [IH1 IH2]. rewrite IH1. split; [reflexivity|].
    destruct (negb (ecs_trigger_init w td =? 0)); now rewrite IH2.
Qed.

(** The trigger array of a newly initialised observer is the one the
    trigger loop has filled. *)
Lemma init_new_observer_array (world w1 : ecs_world_t)
    (desc : ecs_observer_desc_t filter_body) (comp : EcsObserver)
    (new_id : Z) (slot : ecs_observer_t) (f : ecs_filter_t) :
  let entity := ecs_entity_init world (d_entity desc) in
  let w2 :=
    with_observers w1 (sparse_set (observers w1) new_id (with_id slot new_id)) in
  let w3 :=
    with_observers w2
      (sparse_set (observers w2) new_id (with_filter (with_id slot new_id) f)) in
  is_fini world = false ->
  ecs_get_mut (emit world (call_entity_init (d_entity desc))) entity
    = (w1, comp, true) ->
  ecs_sparse_add (observers w1) = (new_id, slot) ->
  ecs_filter_init w2 {| fd_name := de_name (d_entity desc);
                        fd_body := fd_body (d_filter desc) |} = (0, f) ->
  forall w' o,
    ecs_observer_init world desc = Ok (w', entity) ->
    sparse_get (observers w') new_id = Some o ->
    triggers o = Some (snd (init_triggers w3 new_id desc (terms f))).
Proof.
  intros entity w2 w3 Hfini Hmut Hadd Hinit w' o.
  unfold Observer.ecs_observer_init. rewrite Hfini.
  cbn [negb ecs_assert bind]. fold entity. rewrite Hmut, Hadd. fold w2.
  rewrite Hinit. cbn [Z.eqb negb]. fold w3.
  destruct (init_triggers w3 new_id desc (terms f)) as [w4 array].
  intros H. injection H as <-.
  cbn [observers with_component with_observers]. rewrite sparse_get_set.
  intros H. injection H as <-. reflexivity.
Qed.

(** What [ecs_observer_init] builds, [ecs_observer_fini] takes down.  The
    trigger array of a newly initialised observer holds, at the terms that
    want a trigger, what the calls of [ecs_trigger_init] returned; the
    observer can be finalized, and this deletes every trigger that the
    initialisation obtained (every one that is not 0), in the order in
    which they were obtained, calls the free functions of the description
    on its contexts, and leaves the world without the observer. *)
Theorem observer_init_then_fini (world w1 : ecs_world_t)
    (desc : ecs_observer_desc_t filter_body) (comp : EcsObserver)
    (new_id : Z) (slot : ecs_observer_t) (f : ecs_filter_t) :
  let entity := ecs_entity_init world (d_entity desc) in
  let w2 :=
    with_observers w1 (sparse_set (observers w1) new_id (with_id slot new_id)) in
  let w3 :=
    with_observers w2
      (sparse_set (observers w2) new_id (with_filter (with_id slot new_id) f)) in
  let obtained := obtained_triggers w3 new_id desc (terms f) in
  is_fini world = false ->
  ecs_get_mut (emit world (call_entity_init (d_entity desc))) entity
    = (w1, comp, true) ->
  ecs_sparse_add (observers w1) = (new_id, slot) ->
  ecs_filter_init w2 {| fd_name := de_name (d_entity desc);
                        fd_body := fd_body (d_filter desc) |} = (0, f) ->
  exists w' o array w'',
    ecs_observer_init world desc = Ok (w', entity) /\
    sparse_get (observers w') new_id = Some o /\
    triggers o = Some array /\
    map snd (List.filter (fun p => wants_trigger (fst p))
               (combine (terms f) array)) = obtained /\
    ecs_observer_fini w' o = Ok w'' /\
    sparse_get (observers w'') new_id = None /\
    calls w'' =
      calls w'
      ++ map call_delete (List.filter (fun t => negb (t =? 0)) obtained)
      ++ [call_os_free (Some array); call_filter_fini f]
      ++ (if d_ctx_free desc =? 0 then []
          else [call_free (d_ctx_free desc) (d_ctx desc)])
      ++ (if d_binding_ctx_free desc =? 0 then []
          else [call_free (d_binding_ctx_free desc) (d_binding_ctx desc)]).
Proof.
  intros entity w2 w3 obtained Hfini Hmut Hadd Hinit.
  destruct (init_new_observer world w1 desc comp new_id slot f
              Hfini Hmut Hadd Hinit)
    as (w' & o & array & H1 & _ & _ & _ & Hget & Hid & _ & Hf & _ & Hctx
        & Hcf & Hb & Hbf & Ht & Hlen).
  pose proof (init_new_observer_array world w1 desc comp new_id slot f
                Hfini Hmut Hadd Hinit w' o H1 Hget) as Harr.
  change (triggers o = Some (snd (init_triggers w3 new_id desc (terms f))))
    in Harr.
  rewrite Ht in Harr. injection Harr as Harr.
  destruct (init_triggers_obtained new_id desc (terms f) w3) as [Hwant Hnz].
  rewrite <- Harr in Hwant, Hnz.
  destruct (fini_observer w' o array Ht) as (w'' & Hw'' & Hcalls & Hgone & _).
  { rewrite Hf. lia. }
  exists w', o, array, w''.
  split; [exact H1|]. split; [exact Hget|]. split; [exact Ht|].
  split; [exact Hwant|].
  split; [exact Hw''|]. split; [now rewrite <- Hid|].
  rewrite Hcalls, Hf, Ht, Hctx, Hcf, Hb, Hbf, <- Hlen, firstn_all.
  unfold obtained. rewrite <- Hnz. reflexivity.
Qed.

End ObserverLifeFacts.

(** Entity 7 has both components; the array holds the two columns. *)
Lemma get_ptrs_all_or_false_witness :
  exists ok ptrs',
    EntityWith.get_ptrs EntityWithInputs.world_t EntityWithInputs.table_get_type
      EntityWithInputs.index_of EntityWithInputs.get_column
      [] [7; 5] 100 200 (fun _ => 0) = Ok (ok, ptrs') /\
    ok = true /\ ptrs' 0 = 100001 /\ ptrs' 1 = 100000.
Proof.
  destruct (get_ptrs_all_or_false EntityWithInputs.world_t EntityWithInputs.table_get_type
              EntityWithInputs.index_of EntityWithInputs.get_column
              [] [7; 5] 100 200 (fun _ => 0) ltac:(discriminate))
    as (ok & ptrs' & Heq & Hiff & Hptr & _).
  assert (Hok : ok = true).
  { apply Hiff. exists [5; 7]. split; [reflexivity|].
    repeat constructor; discriminate. }
  exists ok, ptrs'. split; [exact Heq|]. split; [exact Hok|]. split.
  - exact (Hptr Hok [5; 7] 0%nat 7 eq_refl eq_refl).
  - exact (Hptr Hok [5; 7] 1%nat 5 eq_refl eq_refl).
Defined.

(** Of the ids 5, 9, 7 and 3 only 9 and 3 lead to another table. *)
Lemma added_ids_are_the_changing_ones_witness :
  let '(_, _, _, added', elem') :=
    EntityWith.add_ids EntityWithInputs.world_t EntityWithInputs.add_id [] [5; 9; 7; 3] 200 0
      (fun _ => 0) 0 in
  EntityWith.array_prefix added' elem' = [9; 3].
Proof.
  apply (added_ids_are_the_changing_ones EntityWithInputs.world_t EntityWithInputs.add_id
           [5; 9; 7; 3] [] 200 0 (fun _ => 0) 0).
  lia.
Defined.

Lemma observer_init_then_get_witness :
  exists w' o array,
    Observer.ecs_observer_init (list Observer.ecs_term_t)
      ObserverInputs.EcsThis ObserverInputs.entity_init
      ObserverInputs.trigger_init ObserverInputs.sparse_add
      ObserverLifeInputs.filter_init_terms ObserverInputs.get_mut
      ObserverInputs.world0 ObserverLifeInputs.desc_A_not_B = Ok (w', 400) /\
    Observer.ecs_get_observer_ctx w' 400 = Ok 9000 /\
    Observer.ecs_get_observer_binding_ctx w' 400 = Ok 0 /\
    Observer.sparse_get (Observer.observers w') 1 = Some o /\
    Observer.action o = 77 /\
    Observer.filter o =
      snd (ObserverLifeInputs.filter_init_terms ObserverInputs.world0
             (Observer.d_filter ObserverLifeInputs.desc_A_not_B)) /\
    Observer.o_entity o = 400 /\
    Observer.triggers o = Some array /\
    List.length array = 2%nat.
Proof.
  exact (observer_init_then_get (list Observer.ecs_term_t)
           ObserverInputs.EcsThis ObserverInputs.entity_init
           ObserverInputs.trigger_init ObserverInputs.sparse_add
           ObserverLifeInputs.filter_init_terms ObserverInputs.get_mut
           ObserverInputs.world0
           (fst (fst (ObserverInputs.get_mut
                        (Observer.emit ObserverInputs.world0
                           (Observer.call_entity_init
                              (Observer.d_entity
                                 ObserverLifeInputs.desc_A_not_B))) 400)))
           ObserverLifeInputs.desc_A_not_B
           {| Observer.observer := None |} 1
           (snd (ObserverInputs.sparse_add []))
           (snd (ObserverLifeInputs.filter_init_terms ObserverInputs.world0
                   (Observer.d_filter ObserverLifeInputs.desc_A_not_B)))
           eq_refl eq_refl eq_refl eq_refl).
Defined.

Lemma observer_init_then_fini_witness :
  exists w' o array w'',
    Observer.ecs_observer_init (list Observer.ecs_term_t)
      ObserverInputs.EcsThis ObserverInputs.entity_init
      ObserverInputs.trigger_init ObserverInputs.sparse_add
      ObserverLifeInputs.filter_init_terms ObserverInputs.get_mut
      ObserverInputs.world0 ObserverLifeInputs.desc_A_not_B = Ok (w', 400) /\
    Observer.sparse_get (Observer.observers w') 1 = Some o /\
    Observer.triggers o = Some array /\
    map snd
      (List.filter
         (fun p => ObserverSpec.wants_trigger ObserverInputs.EcsThis (fst p))
         (combine (Observer.fd_body
                     (Observer.d_filter ObserverLifeInputs.desc_A_not_B))
            array)) = [500] /\
    Observer.ecs_observer_fini w' o = Ok w'' /\
    Observer.sparse_get (Observer.observers w'') 1 = None /\
    Observer.calls w'' =
      Observer.calls w'
      ++ [Observer.call_delete 500]
      ++ [Observer.call_os_free (Some array);
          Observer.call_filter_fini
            (snd (ObserverLifeInputs.filter_init_terms ObserverInputs.world0
                    (Observer.d_filter ObserverLifeInputs.desc_A_not_B)))]
      ++ [Observer.call_free 33 9000] ++ [].
Proof.
  exact (observer_init_then_fini (list Observer.ecs_term_t)
           ObserverInputs.EcsThis ObserverInputs.entity_init
           ObserverInputs.trigger_init ObserverInputs.sparse_add
           ObserverLifeInputs.filter_init_terms ObserverInputs.get_mut
           ObserverInputs.world0
           (fst (fst (ObserverInputs.get_mut
                        (Observer.emit ObserverInputs.world0
                           (Observer.call_entity_init
                              (Observer.d_entity
                                 ObserverLifeInputs.desc_A_not_B))) 400)))
           ObserverLifeInputs.desc_A_not_B
           {| Observer.observer := None |} 1
           (snd (ObserverInputs.sparse_add []))
           (snd (ObserverLifeInputs.filter_init_terms ObserverInputs.world0
                   (Observer.d_filter ObserverLifeInputs.desc_A_not_B)))
           eq_refl eq_refl eq_refl eq_refl).
Defined.

(** Entity 400 keeps its callback 77 and gets the context 9500. *)
Lemma observer_init_existing_witness :
  exists w' o',
    Observer.ecs_observer_init (list Observer.ecs_term_t)
      ObserverInputs.EcsThis ObserverInputs.entity_init
      ObserverInputs.trigger_init ObserverInputs.sparse_add
      ObserverLifeInputs.filter_init_terms ObserverInputs.get_mut
      ObserverLifeInputs.world_observed ObserverLifeInputs.desc_update
      = Ok (w', 400) /\
    Observer.sparse_get (Observer.observers w') 1 = Some o' /\
    Observer.action o' = 77 /\ Observer.o_ctx o' = 9500 /\
    Observer.filter o' = ObserverInputs.filter_A_and_B /\
    Observer.triggers o' = Some [501; 502].
Proof.
  destruct (observer_init_existing (list Observer.ecs_term_t)
              ObserverInputs.EcsThis ObserverInputs.entity_init
              ObserverInputs.trigger_init ObserverInputs.sparse_add
              ObserverLifeInputs.filter_init_terms ObserverInputs.get_mut
              ObserverLifeInputs.world_observed
              (Observer.emit ObserverLifeInputs.world_observed
                 (Observer.call_entity_init
                    (Observer.d_entity ObserverLifeInputs.desc_update)))
              ObserverLifeInputs.desc_update
              {| Observer.observer := Some 1 |} 1
              (ObserverInputs.observer_of ObserverInputs.filter_A_and_B)
              eq_refl eq_refl eq_refl eq_refl) as [_ H].
  destruct (H ltac:(discriminate))
    as (w' & o' & H1 & H2 & H3 & H4 & _ & H6 & H7 & _).
  exists w', o'. repeat split; assumption.
Defined.

(** Finalizing [observer_of filter_A_and_B] deletes its two triggers. *)
Lemma observer_fini_effects_witness :
  exists world',
    Observer.ecs_observer_fini ObserverLifeInputs.world_observed
      (ObserverInputs.observer_of ObserverInputs.filter_A_and_B) = Ok world' /\
    Observer.calls world' =
      [Observer.call_delete 501; Observer.call_delete 502;
       Observer.call_os_free (Some [501; 502]);
       Observer.call_filter_fini ObserverInputs.filter_A_and_B] /\
    Observer.sparse_get (Observer.observers world') 1 = None.
Proof.
  destruct (observer_fini_effects ObserverLifeInputs.world_observed
              (ObserverInputs.observer_of ObserverInputs.filter_A_and_B)
              [501; 502] eq_refl ltac:(simpl; lia))
    as (world' & H1 & H2 & H3 & _).
  exists world'. split; [exact H1|]. split; [exact H2 | exact H3].
Defined.

(** * The column numbers that [populate_columns] writes *)

Section ColumnFacts.
Import Observer ObserverSpec.

Variable EcsThis : entity_t.
Variable ECS_FILTER_DESC_TERM_ARRAY_MAX : Z.
Variable ecs_type_match : type_t -> Z -> Z -> Z.
Variable ecs_type_from_id : ecs_world_t -> Z -> type_t.
Variable ecs_id_is_wildcard : Z -> bool.
Variable ecs_filter_match_type : ecs_world_t -> ecs_filter_t -> type_t -> bool.

Local Abbreviation populate_found :=
  (populate_found ECS_FILTER_DESC_TERM_ARRAY_MAX ecs_type_from_id
     ecs_id_is_wildcard).
Local Abbreviation populate_term :=
  (populate_term EcsThis ECS_FILTER_DESC_TERM_ARRAY_MAX ecs_type_match
     ecs_type_from_id ecs_id_is_wildcard).
Local Abbreviation populate_loop :=
  (populate_loop EcsThis ECS_FILTER_DESC_TERM_ARRAY_MAX ecs_type_match
     ecs_type_from_id ecs_id_is_wildcard).
Local Abbreviation populate_columns :=
  (populate_columns EcsThis ECS_FILTER_DESC_TERM_ARRAY_MAX ecs_type_match
     ecs_type_from_id ecs_id_is_wildcard).
Local Abbreviation observer_callback :=
  (observer_callback EcsThis ECS_FILTER_DESC_TERM_ARRAY_MAX ecs_type_match
     ecs_type_from_id ecs_id_is_wildcard ecs_filter_match_type).

Ltac unstore :=
  repeat match goal with
  | H : bind _ _ = Ok _ |- _ =>
      apply bind_Ok_inv in H; destruct H as (? & ? & H)
  | H : Observer.set_id _ _ _ _ = Ok ?x |- _ => apply set_id_inv in H; subst x
  | H : Observer.set_column _ _ _ _ = Ok ?x |- _ =>
      apply set_column_inv in H; subst x
  | H : Observer.set_type _ _ _ _ = Ok ?x |- _ =>
      apply set_type_inv in H; subst x
  | H : Ok ?x = Ok ?y |- _ => injection H as H; first [subst x | subst y]
  end.

Local Abbreviation term_writes := (term_writes EcsThis ecs_type_match).
Local Abbreviation slot_written := (slot_written EcsThis ecs_type_match).

(** The found branch stores a column number that is 0 or names a data
    column, at the slot of the term only. *)
Lemma populate_found_writes (world : ecs_world_t) (table : ecs_table_t)
    (a a' : iter_arrays) (ti id index : Z) :
  populate_found world table a ti id index = Ok a' ->
  names_data_column table (columns a' ti) /\
  (forall tj, tj <> ti -> columns a' tj = columns a tj).
Proof.
  unfold Observer.populate_found. intros H. unstore.
  destruct (column_count table <=? index) eqn:Hcc.
  - unstore. cbn [columns]. split.
    + left. apply upd_same.
    + intros tj Hne. now rewrite !upd_other by assumption.
  - destruct (znth (data_columns table) index) as [c|] eqn:Hc; [|discriminate].
    destruct (size c =? 0) eqn:Hs; unstore; cbn [columns]; split.
    + left. apply upd_same.
    + intros tj Hne. now rewrite !upd_other by assumption.
    + right. rewrite upd_same. apply Z.leb_gt in Hcc.
      split; [lia|]. exists c. split.
      * now replace (index + 1 - 1) with index by lia.
      * now apply Z.eqb_neq.
    + intros tj Hne. now rewrite upd_other by assumption.
Qed.

(** One iteration of the loop: a term that stores entries stores a column
    number that is 0 or names a data column, at its own slot only; any
    other term leaves all column numbers as they are. *)
Lemma populate_term_writes (world : ecs_world_t) (table : ecs_table_t)
    (event_id term_index i : Z) (t : ecs_term_t) (a a' : iter_arrays) :
  populate_term world table event_id term_index i t a = Ok a' ->
  (term_writes table term_index i t = true ->
     names_data_column table (columns a' (index t))) /\
  (forall tj,
     (index t =? tj) && term_writes table term_index i t = false ->
     columns a' tj = columns a tj).
Proof.
  unfold Observer.populate_term, ObserverSpec.term_writes. intros H.
  assert (Hframe : forall b : iter_arrays,
            names_data_column table (columns b (index t)) /\
            (forall tj, tj <> index t -> columns b tj = columns a tj) ->
            (true = true -> names_data_column table (columns b (index t))) /\
            (forall tj, (index t =? tj) && true = false ->
                        columns b tj = columns a tj)).
  { intros b [Hv Hf]. split; [intros _; exact Hv|].
    intros tj Htj. rewrite andb_true_r in Htj. apply Z.eqb_neq in Htj.
    apply Hf. congruence. }
  destruct (args0_entity t =? EcsThis); cbn [negb andb] in *.
  - destruct (i =? term_index); cbn [negb andb] in *.
    + apply Hframe. eapply populate_found_writes; eassumption.
    + destruct (ecs_type_match (type table) 0 (id t) =? -1);
        cbn [negb andb] in *.
      * destruct (oper_eqb (oper t) EcsNot); cbn [negb andb] in *.
        -- apply Hframe. unstore. cbn [columns]. split.
           ++ left. apply upd_same.
           ++ intros tj Hne. now apply upd_other.
        -- unstore. split; [discriminate|]. reflexivity.
      * apply Hframe. eapply populate_found_writes; eassumption.
  - apply Hframe. unstore. cbn [columns]. split.
    + left. apply upd_same.
    + intros tj Hne. now apply upd_other.
Qed.

Lemma populate_loop_written (world : ecs_world_t) (table : ecs_table_t)
    (event_id term_index : Z) (ts : list ecs_term_t) :
  forall (i : Z) (a a' : iter_arrays) (tj : Z),
    populate_loop world table event_id term_index i ts a = Ok a' ->
    if slot_written table term_index i ts tj
    then names_data_column table (columns a' tj)
    else columns a' tj = columns a tj.
Proof.
  induction ts as [|t ts IH]; intros i a a' tj H;
    cbn [Observer.populate_loop ObserverSpec.slot_written] in *.
  - now injection H as <-.
  - apply bind_Ok_inv in H. destruct H as (b & Hb & H).
    specialize (IH (i + 1) b a' tj H).
    destruct (populate_term_writes _ _ _ _ _ _ _ _ Hb) as [Hv Hf].
    destruct (slot_written table term_index (i + 1) ts tj).
    + rewrite orb_true_r. exact IH.
    + rewrite orb_false_r. rewrite IH.
      destruct ((index t =? tj) && term_writes table term_index i t) eqn:E.
      * apply andb_prop in E. destruct E as [Eidx Ew].
        apply Z.eqb_eq in Eidx. subst tj. now apply Hv.
      * now apply Hf.
Qed.

(** The column number that the user action of an observer finds at a slot
    that a term of the filter has written is never a stray index: it is 0,
    or it names a data column of the table whose elements have a size.  At
    a slot that no term has written the action finds 0 for slot 0, which
    is cleared before the loop, and otherwise what the local array
    happened to hold. *)
Theorem action_columns_name_data (world : ecs_world_t) (o : ecs_observer_t)
    (stack : iter_arrays) (it : ecs_iter_t) (tab : ecs_iter_table_t)
    (tbl : ecs_table_t) (ti i c : Z) (ty : type_t) :
  table it = Some tab ->
  it_table tab = Some tbl ->
  action_slot (observer_callback world o stack it) ti = Some (i, c, ty) ->
  if slot_written tbl (term_index it) 0 (terms (filter o)) ti
  then names_data_column tbl c
  else c = (if ti =? 0 then 0 else columns stack ti).
Proof.
  intros Htab Htbl. unfold Observer.observer_callback.
  rewrite Htab, Htbl.
  destruct (ecs_filter_match_type world (filter o) (type tbl));
    [|discriminate].
  destruct (populate_columns world o tbl stack (event_id it) (term_index it))
    as [a| |] eqn:Ha; cbn; try discriminate.
  intros H. injection H as _ <- _.
  unfold Observer.populate_columns in Ha. unstore.
  apply (populate_loop_written _ _ _ _ _ _ _ _ ti) in Ha.
  destruct (slot_written tbl (term_index it) 0 (terms (filter o)) ti);
    [exact Ha|].
  rewrite Ha. cbn [columns]. unfold upd. reflexivity.
Qed.

End ColumnFacts.

(** The filter [A, B] on the table of type [[A; B]]: the action finds
    column 2 for the second term, which has written its slot, and 2 names
    a data column of the table. *)
Lemma action_columns_name_data_witness :
  Observer.action_slot
    (Observer.observer_callback ObserverInputs.EcsThis ObserverInputs.MAX
       Observer.type_match_exact ObserverInputs.type_from_id
       ObserverInputs.no_wildcard ObserverInputs.match_type
       ObserverInputs.world0
       (ObserverInputs.observer_of ObserverInputs.filter_A_and_B)
       ObserverInputs.stack0 ObserverInputs.event_A) 1
    = Some (20, 2, [20]) /\
  ObserverSpec.slot_written ObserverInputs.EcsThis Observer.type_match_exact
    ObserverInputs.table_AB 0 0
    (Observer.terms ObserverInputs.filter_A_and_B) 1 = true /\
  ObserverSpec.names_data_column ObserverInputs.table_AB 2.
Proof.
  split; [reflexivity|]. split; [reflexivity|].
  exact (action_columns_name_data ObserverInputs.EcsThis ObserverInputs.MAX
           Observer.type_match_exact ObserverInputs.type_from_id
           ObserverInputs.no_wildcard ObserverInputs.match_type
           ObserverInputs.world0
           (ObserverInputs.observer_of ObserverInputs.filter_A_and_B)
           ObserverInputs.stack0 ObserverInputs.event_A _
           ObserverInputs.table_AB 1 20 2 [20] eq_refl eq_refl eq_refl).
Defined.

(** * [invoke_get_mut] *)

Section EntityMutFacts.
Import EntityWith.

Variable world_t : Type.
Variable ecs_record_find : world_t -> entity_t -> pointer.
Variable record_table : world_t -> pointer -> pointer.
Variable ecs_table_get_type : world_t -> pointer -> option type_t.
Variable ecs_type_index_of : type_t -> entity_t -> Z.
Variable ecs_record_get_column : world_t -> pointer -> Z -> Z -> pointer.
Variable is_deferred : world_t -> bool.
Variable ecs_table_add_id : world_t -> pointer -> entity_t -> world_t * pointer.
Variable ecs_commit :
  world_t -> entity_t -> pointer -> pointer -> list entity_t -> world_t.
Variable ecs_get_mut_w_id : world_t -> entity_t -> entity_t -> world_t * pointer.
Variable ecs_modified_w_id : world_t -> entity_t -> entity_t -> world_t.
Variable func : world_t -> list pointer -> world_t.

Local Abbreviation get_ptrs :=
  (get_ptrs world_t ecs_table_get_type ecs_type_index_of ecs_record_get_column).
Local Abbreviation columns_of :=
  (columns_of world_t ecs_table_get_type ecs_type_index_of
     ecs_record_get_column).
Local Abbreviation add_ids := (add_ids world_t ecs_table_add_id).
Local Abbreviation changing_ids := (changing_ids world_t ecs_table_add_id).
Local Abbreviation get_mut_ptrs := (get_mut_ptrs world_t ecs_get_mut_w_id).
Local Abbreviation get_mut_all := (get_mut_all world_t ecs_get_mut_w_id).
Local Abbreviation modified_all := (modified_all world_t ecs_modified_w_id).
Local Abbreviation invoke_get_mut :=
  (invoke_get_mut world_t ecs_record_find record_table ecs_table_get_type
     ecs_type_index_of ecs_record_get_column is_deferred ecs_table_add_id
     ecs_commit ecs_get_mut_w_id ecs_modified_w_id func).

(** What [get_ptrs] leaves in the array is what the parameter pack is
    built from. *)
Lemma get_ptrs_pack (w : world_t) (ids : list entity_t) (r table : pointer)
    (ptrs : Z -> pointer) :
  table <> NULL ->
  exists ok ptrs',
    get_ptrs w ids r table ptrs = Ok (ok, ptrs') /\
    match columns_of w ids r table with
    | Some args =>
        ok = true /\
        invoke_callback_pack 0 ptrs' (List.length ids) [] = args
    | None => ok = false
    end.
Proof.
  intros Ht. unfold EntityWith.get_ptrs, EntityWith.columns_of.
  apply Z.eqb_neq in Ht. rewrite Ht. cbn [negb ecs_assert bind].
  destruct (ecs_table_get_type w table) as [type|];
    [|exists false, ptrs; now split].
  destruct (get_ptrs_loop_spec world_t ecs_record_get_column w r
              (map (ecs_type_index_of type) ids) 0 ptrs) as (Hb & _ & Hall).
  destruct (get_ptrs_loop world_t ecs_record_get_column w r
              (map (ecs_type_index_of type) ids) 0 ptrs) as [ok ptrs'].
  cbn [fst snd] in *. exists ok, ptrs'. split; [reflexivity|].
  assert (Hfa : forallb (fun c => negb (c =? -1))
                  (map (ecs_type_index_of type) ids)
                = forallb (fun c => negb (ecs_type_index_of type c =? -1)) ids).
  { clear. induction ids as [|c cs IH]; [reflexivity|].
    cbn [map forallb]. now rewrite IH. }
  rewrite Hfa in Hb, Hall.
  destruct (forallb (fun c => negb (ecs_type_index_of type c =? -1)) ids);
    [|exact Hb].
  split; [exact Hb|].
  rewrite invoke_callback_pack_all. cbn [app].
  apply nth_error_ext. intros k.
  rewrite !nth_error_map, nth_error_seq.
  destruct (Nat.ltb_spec k (List.length ids)) as [Hk|Hk].
  - cbn [option_map Nat.add].
    destruct (nth_error ids k) as [c|] eqn:Ek.
    + cbn [option_map]. f_equal.
      specialize (Hall eq_refl k (ecs_type_index_of type c)).
      cbn [Z.add] in *. apply Hall.
      rewrite nth_error_map, Ek. reflexivity.
    + apply nth_error_None in Ek. lia.
  - cbn [option_map].
    assert (Hn : nth_error ids k = None) by (apply nth_error_None; lia).
    now rewrite Hn.
Qed.

(** [get_mut_ptrs] stores the answers of [ecs_get_mut_w_id] from entry [i]
    on. *)
Lemma get_mut_ptrs_all (e : entity_t) (ids : list entity_t) :
  forall (w : world_t) (i : Z) (ptrs : Z -> pointer),
    fst (get_mut_ptrs w e ids i ptrs) = fst (get_mut_all w e ids) /\
    (forall j, j < i -> snd (get_mut_ptrs w e ids i ptrs) j = ptrs j) /\
    snd (get_mut_all w e ids) =
      map (fun k => snd (get_mut_ptrs w e ids i ptrs) (i + Z.of_nat k))
          (seq 0 (List.length ids)).
Proof.
  induction ids as [|id ids IH]; intros w i ptrs;
    cbn [EntityWith.get_mut_ptrs EntityWith.get_mut_all].
  - repeat split.
  - destruct (ecs_get_mut_w_id w e id) as [w1 p].
    destruct (IH w1 (i + 1) (upd ptrs i p)) as (Hw & Hkeep & Hall).
    destruct (get_mut_all w1 e ids) as [w2 ps].
    cbn [fst snd] in *. split; [exact Hw|]. split.
    + intros j Hj. rewrite Hkeep by lia. apply upd_other. lia.
    + cbn [List.length seq map]. f_equal.
      * rewrite Z.add_0_r, Hkeep by lia. now rewrite upd_same.
      * rewrite Hall, <- seq_shift, map_map. apply map_ext.
        intros k. f_equal. lia.
Qed.

(** In a deferred world [invoke_get_mut] asks [ecs_get_mut_w_id] for each
    component in the order of the parameters, calls the user's function on
    the answers, then reports each component as modified, and returns
    [true]; no table is looked up and nothing is committed. *)
Theorem invoke_get_mut_deferred (w : world_t) (ids : list entity_t)
    (id : entity_t) (ptrs : Z -> pointer) (added : Z -> entity_t)
    (next0 : pointer) :
  is_deferred w = true ->
  invoke_get_mut w ids id ptrs added next0 =
  Ok (modified_all
        (func (fst (get_mut_all w id ids)) (snd (get_mut_all w id ids)))
        id ids, true).
Proof.
  intros Hd. unfold EntityWith.invoke_get_mut. rewrite Hd.
  cbn [negb bind].
  destruct (get_mut_ptrs_all id ids w 0 ptrs) as (Hw & _ & Hall).
  destruct (get_mut_ptrs w id ids 0 ptrs) as [w1 ptrs'].
  cbn [fst snd] in *. unfold invoke_callback.
  rewrite invoke_callback_pack_all. cbn [app].
  rewrite Hw, Hall. reflexivity.
Qed.

(** In a world that is not deferred [invoke_get_mut] moves the entity at
    most once: [ecs_commit] is called exactly when adding the components
    leads to another table than the one of the entity, with that table and
    the ids of the components that changed the table.  It then aborts when
    there is no table or the type of the table lacks a component, and
    otherwise calls the user's function on the locations of the components
    in the table, reports each component as modified and returns [true]. *)
Theorem invoke_get_mut_moves_once (w : world_t) (ids : list entity_t)
    (id : entity_t) (ptrs : Z -> pointer) (added : Z -> entity_t)
    (next0 : pointer) :
  is_deferred w = false ->
  let r := ecs_record_find w id in
  let table := if negb (r =? NULL) then record_table w r else NULL in
  let '(w1, _, next, _, _) := add_ids w ids table next0 added 0 in
  let w2 :=
    if table =? next then w1
    else ecs_commit w1 id r next (changing_ids w ids table) in
  invoke_get_mut w ids id ptrs added next0 =
  if next =? NULL then Abort ECS_INTERNAL_ERROR
  else
    match columns_of w2 ids r next with
    | Some args => Ok (modified_all (func w2 args) id ids, true)
    | None => Abort ECS_INTERNAL_ERROR
    end.
Proof.
  intros Hd r table. unfold EntityWith.invoke_get_mut. rewrite Hd.
  cbn [negb]. fold r. fold table.
  pose proof (add_ids_prefix world_t ecs_table_add_id ids w table next0 added 0
                ltac:(lia)) as Hpre.
  destruct (add_ids w ids table next0 added 0)
    as [[[[w1 prev'] next] added'] elem'].
  cbn [array_prefix Z.to_nat seq map app] in Hpre.
  change (map (fun k : nat => added (Z.of_nat k)) (seq 0 (Z.to_nat 0)))
    with (@nil entity_t) in Hpre.
  cbn [app] in Hpre. rewrite Hpre.
  set (w2 := if table =? next then w1
             else ecs_commit w1 id r next (changing_ids w ids table)).
  assert (Hsame :
    (if negb (table =? next)
     then (ecs_commit w1 id r next (changing_ids w ids table), next)
     else (w1, table)) = (w2, next)).
  { unfold w2. destruct (Z.eqb_spec table next) as [->|Hne]; reflexivity. }
  rewrite Hsame. clear Hsame.
  destruct (Z.eqb_spec next NULL) as [->|Hnext].
  - unfold EntityWith.get_ptrs. reflexivity.
  - destruct (get_ptrs_pack w2 ids r next ptrs Hnext)
      as (ok & ptrs' & Hget & Hcols).
    rewrite Hget. cbn [bind].
    destruct (columns_of w2 ids r next) as [args|].
    + destruct Hcols as [-> <-]. reflexivity.
    + subst ok. reflexivity.
Qed.

End EntityMutFacts.

(** Deferred: the function gets the two answers, then both components are
    reported.  Not deferred: entity 7 of table 200 gets component 9 and is
    moved to table 209 once, with the one id that is new. *)
Lemma invoke_get_mut_deferred_witness :
  EntityWith.invoke_get_mut EntityWithInputs.world_t
    EntityWithInputs.record_find EntityWithInputs.record_table
    EntityWithInputs.table_get_type EntityWithInputs.index_of
    EntityWithInputs.get_column (fun _ => true) EntityWithInputs.add_id
    EntityWithInputs.commit EntityWithInputs.get_mut_w_id
    EntityWithInputs.modified_w_id EntityWithInputs.func
    [] [5; 9] 7 (fun _ => 0) (fun _ => 0) 0 =
  Ok ([5; 9; 7005; 7009; -5; -9], true).
Proof.
  apply (invoke_get_mut_deferred EntityWithInputs.world_t
           EntityWithInputs.record_find EntityWithInputs.record_table
           EntityWithInputs.table_get_type EntityWithInputs.index_of
           EntityWithInputs.get_column (fun _ => true) EntityWithInputs.add_id
           EntityWithInputs.commit EntityWithInputs.get_mut_w_id
           EntityWithInputs.modified_w_id EntityWithInputs.func
           [] [5; 9] 7 (fun _ => 0) (fun _ => 0) 0).
  reflexivity.
Defined.

Lemma invoke_get_mut_moves_once_witness :
  EntityWith.invoke_get_mut EntityWithInputs.world_t
    EntityWithInputs.record_find EntityWithInputs.record_table
    EntityWithInputs.table_get_type EntityWithInputs.index_of
    EntityWithInputs.get_column (fun _ => false) EntityWithInputs.add_id
    EntityWithInputs.commit EntityWithInputs.get_mut_w_id
    EntityWithInputs.modified_w_id EntityWithInputs.func
    [] [5; 9] 7 (fun _ => 0) (fun _ => 0) 0 =
  Ok ([7; 209; 9; 100000; 100002; -5; -9], true).
Proof.
  apply (invoke_get_mut_moves_once EntityWithInputs.world_t
           EntityWithInputs.record_find EntityWithInputs.record_table
           EntityWithInputs.table_get_type EntityWithInputs.index_of
           EntityWithInputs.get_column (fun _ => false) EntityWithInputs.add_id
           EntityWithInputs.commit EntityWithInputs.get_mut_w_id
           EntityWithInputs.modified_w_id EntityWithInputs.func
           [] [5; 9] 7 (fun _ => 0) (fun _ => 0) 0).
  reflexivity.
Defined.

(** * The component segment, call by call *)

Section SegmentFacts.
Import Stream StreamSpec.

Variable kind_code : ecs_blob_header_kind_t -> Z.
Variable vector_bytes : ecs_vector_t -> list Z.

Local Abbreviation ecs_component_reader := (ecs_component_reader kind_code).
Local Abbreviation component_loop := (component_loop kind_code).
Local Abbreviation ecs_stream_read := (ecs_stream_read kind_code vector_bytes).
Local Abbreviation component_record := (component_record kind_code).
Local Abbreviation component_segment := (component_segment kind_code).

Lemma write_bytes_at (buffer bs : list Z) (off : Z) :
  0 <= off ->
  off + Z.of_nat (List.length bs) <= Z.of_nat (List.length buffer) ->
  write_bytes buffer off bs =
  Ok (firstn (Z.to_nat off) buffer ++ bs
      ++ skipn (Z.to_nat off + List.length bs) buffer).
Proof.
  intros H0 H1. unfold write_bytes.
  apply Z.leb_le in H0, H1. now rewrite H0, H1.
Qed.

Lemma znth_nth {A : Type} (l : list A) (i : Z) (d : A) :
  0 <= i < Z.of_nat (List.length l) ->
  znth l i = Some (nth (Z.to_nat i) l d).
Proof.
  intros H. unfold znth.
  assert (E : (i <? 0) = false) by (apply Z.ltb_ge; lia). rewrite E.
  apply nth_error_nth'. lia.
Qed.

Lemma length_c_string (s : string) :
  Z.of_nat (List.length (c_string s)) = strlen s + 1.
Proof.
  unfold strlen. induction s as [|c s IH]; [reflexivity|].
  cbn [c_string List.length String.length]. lia.
Qed.

Lemma segment_snoc (ids : list entity_t) (sizes : list Z)
    (names : list string) :
  forall k : nat,
    (k < List.length ids)%nat ->
    List.length sizes = List.length ids ->
    List.length names = List.length ids ->
    records kind_code ids sizes names (S k) =
    records kind_code ids sizes names k
    ++ component_record (nth k ids 0) (nth k sizes 0) (nth k names EmptyString).
Proof.
  unfold records. revert sizes names.
  induction ids as [|i ids IH]; intros sizes names k Hk Hs Hn;
    [cbn in Hk; lia|].
  destruct sizes as [|z sizes]; [discriminate|].
  destruct names as [|nm names]; [discriminate|].
  destruct k as [|k].
  - cbn [firstn nth Stream.component_segment]. destruct ids, sizes, names;
      cbn [firstn Stream.component_segment]; now rewrite app_nil_r.
  - cbn [List.length] in *.
    change (firstn (S (S k)) (i :: ids)) with (i :: firstn (S k) ids).
    change (firstn (S (S k)) (z :: sizes)) with (z :: firstn (S k) sizes).
    change (firstn (S (S k)) (nm :: names)) with (nm :: firstn (S k) names).
    change (firstn (S k) (i :: ids)) with (i :: firstn k ids).
    change (firstn (S k) (z :: sizes)) with (z :: firstn k sizes).
    change (firstn (S k) (nm :: names)) with (nm :: firstn k names).
    cbn [Stream.component_segment nth].
    rewrite IH by lia. now rewrite app_assoc.
Qed.

Lemma segment_all (ids : list entity_t) (sizes : list Z)
    (names : list string) :
  List.length sizes = List.length ids ->
  List.length names = List.length ids ->
  records kind_code ids sizes names (List.length ids) =
  segment kind_code ids sizes names.
Proof.
  intros Hs Hn. unfold records, segment.
  rewrite firstn_all. rewrite <- Hs at 1. rewrite firstn_all.
  rewrite <- Hn. now rewrite firstn_all.
Qed.

(** The records of the first [k] components open the segment. *)
Lemma segment_prefix (ids : list entity_t) (sizes : list Z)
    (names : list string) :
  forall k : nat,
    exists rest,
      segment kind_code ids sizes names =
      records kind_code ids sizes names k ++ rest.
Proof.
  unfold records, segment. revert sizes names.
  induction ids as [|i ids IH]; intros sizes names k.
  - exists []. destruct k; reflexivity.
  - destruct k as [|k]; [eexists; reflexivity|].
    destruct sizes as [|z sizes]; [exists []; reflexivity|].
    destruct names as [|nm names]; [exists []; reflexivity|].
    destruct (IH sizes names k) as (rest & E). exists rest.
    cbn [firstn Stream.component_segment]. rewrite E.
    now rewrite app_assoc.
Qed.

End SegmentFacts.

(** * The component segment across calls *)

Section StepFacts.
Import Stream StreamSpec.

Variable kind_code : ecs_blob_header_kind_t -> Z.
Variable vector_bytes : ecs_vector_t -> list Z.
Variable ids : list entity_t.
Variable sizes : list Z.
Variable names : list string.

Local Abbreviation ecs_component_reader := (ecs_component_reader kind_code).
Local Abbreviation component_loop := (component_loop kind_code).
Local Abbreviation ecs_stream_read :=
  (ecs_stream_read kind_code vector_bytes).
Local Abbreviation cursor_ok := (cursor_ok ids sizes names).
Local Abbreviation emitted := (emitted kind_code ids sizes names).
Local Abbreviation table_ok := (table_ok ids sizes names).
Local Abbreviation loaded := (loaded ids sizes names).

Lemma fetch_columns (s : ecs_stream_t) :
  component_columns (world s) = Some (ids, sizes, names) ->
  ecs_component_reader_fetch_component_data s =
  Ok (with_component s
        {| c_cur := c_cur (component (reader s));
           id_column := Some ids; data_column := Some sizes;
           name_column := Some names;
           c_count := Z.of_nat (List.length ids);
           index := index (component (reader s));
           name := name (component (reader s));
           len := len (component (reader s));
           written := written (component (reader s)) |}).
Proof.
  unfold component_columns, ecs_component_reader_fetch_component_data.
  destruct (main_stage_tables (world s)) as [|t ts]; [discriminate|].
  change (znth (t :: ts) 0) with (Some t). cbn [of_option bind].
  destruct (columns t) as [[|c0 [|c1 [|c2 cols]]]|]; try discriminate.
  cbn [of_option bind].
  change (znth (c0 :: c1 :: c2 :: cols) 0) with (Some c0).
  change (znth (c0 :: c1 :: c2 :: cols) 1) with (Some c1).
  change (znth (c0 :: c1 :: c2 :: cols) 2) with (Some c2).
  cbn [of_option bind].
  destruct (data c0) as [l0| | |] eqn:E0; try discriminate.
  destruct (data c1) as [|l1| |]; try discriminate.
  destruct (data c2) as [| |l2|]; try discriminate.
  intros H. injection H as -> -> ->. cbn [bind ecs_vector_count]. reflexivity.
Qed.

Lemma read_bytes_at (src : list Z) (off n : Z) :
  0 <= off -> 0 <= n -> off + n <= Z.of_nat (List.length src) ->
  read_bytes src off n = Ok (firstn (Z.to_nat n) (skipn (Z.to_nat off) src)).
Proof.
  intros H0 H1 H2. unfold read_bytes.
  apply Z.leb_le in H0, H1, H2. now rewrite H0, H1, H2.
Qed.

Lemma firstn_add {A : Type} (a b : nat) :
  forall l : list A, firstn (a + b) l = firstn a l ++ firstn b (skipn a l).
Proof.
  induction a as [|a IH]; intros l; [reflexivity|].
  destruct l as [|x l]; cbn [Nat.add firstn skipn app].
  - now rewrite firstn_nil.
  - now rewrite IH.
Qed.

Ltac kinds :=
  repeat match goal with
  | |- context [kind_eqb ?a ?b] =>
      let v := eval vm_compute in (kind_eqb a b) in
      change (kind_eqb a b) with v
  end.

Ltac fields :=
  cbn [reader component c_cur world cur tables table_reader index name len
       written id_column data_column name_column c_count with_component
       with_cur set_c_cur set_index set_name set_written of_option bind].

Lemma component_step (buffer : list Z) (off size : Z) (s : ecs_stream_t) :
  cursor_ok s -> cur (reader s) = EcsComponentSegment ->
  4 <= size -> 0 <= off -> off + size <= Z.of_nat (List.length buffer) ->
  exists out s',
    ecs_component_reader buffer off size s =
      Ok (Z.of_nat (List.length out),
          firstn (Z.to_nat off) buffer ++ out
          ++ skipn (Z.to_nat off + List.length out) buffer, s') /\
    (1 <= List.length out)%nat /\ Z.of_nat (List.length out) <= size /\
    cursor_ok s' /\ emitted s' = emitted s ++ out.
Proof.
  intros [Hw Hst] Hcur Hsize Hoff Hfit.
  destruct s as [w [cu tabs c tr]].
  destruct c as [k idc dc nc cnt idx nm ln wr].
  cbn in Hw, Hst, Hcur. subst cu.
  assert (Hn : 1 <= Z.of_nat (List.length ids)).
  { destruct Hw as (_ & _ & _ & Hne). destruct ids; [congruence|].
    cbn [List.length]. lia. }
  assert (Hls : List.length sizes = List.length ids) by apply Hw.
  assert (Hln : List.length names = List.length ids) by apply Hw.
  unfold Stream.ecs_component_reader.
  assert (E0 : (size =? 0) = false) by (apply Z.eqb_neq; lia).
  assert (E4 : (size <? sizeof_int32) = false)
    by (apply Z.ltb_ge; unfold sizeof_int32; lia).
  rewrite E0, E4.
  unfold StreamSpec.cursor_ok, StreamSpec.emitted.
  destruct k; try contradiction; try unfold StreamSpec.loaded in Hst;
    cbn in Hst; kinds; fields.
  - (* a newly opened stream *)
    destruct Hst as [-> _].
    exists (int32_bytes (kind_code EcsComponentHeader)). eexists. split.
    { fields. rewrite write_bytes_at by (cbn [List.length int32_bytes]; lia).
      fields. unfold ecs_component_reader_next. fields.
      rewrite fetch_columns by apply Hw. fields. reflexivity. }
    fields. cbn [List.length int32_bytes].
    split; [lia|]. split; [lia|]. split.
    + split; [exact Hw|]. unfold StreamSpec.loaded. fields.
      repeat split; lia.
    + reflexivity.
  - (* between two components *)
    destruct Hst as ((-> & -> & -> & ->) & Hidx & Hc).
    destruct (Z.eqb_spec idx (Z.of_nat (List.length ids))) as [E|E];
      [discriminate|].
    exists (int32_bytes (kind_code EcsComponentHeader)). eexists. split.
    { fields. rewrite write_bytes_at by (cbn [List.length int32_bytes]; lia).
      fields. unfold ecs_component_reader_next. fields. reflexivity. }
    fields. cbn [List.length int32_bytes].
    split; [lia|]. split; [lia|]. split.
    + split; [exact Hw|]. unfold StreamSpec.loaded. fields.
      repeat split; lia.
    + reflexivity.
  - (* the id *)
    destruct Hst as ((-> & -> & -> & ->) & Hidx & _).
    exists (int32_bytes (nth (Z.to_nat idx) ids 0)). eexists. split.
    { fields. rewrite (znth_nth ids idx 0) by lia. fields.
      rewrite write_bytes_at by (cbn [List.length int32_bytes]; lia).
      fields. unfold ecs_component_reader_next. fields. reflexivity. }
    fields. cbn [List.length int32_bytes].
    split; [lia|]. split; [lia|]. split.
    + split; [exact Hw|]. unfold StreamSpec.loaded. fields.
      repeat split; lia.
    + now rewrite <- !app_assoc.
  - (* the size *)
    destruct Hst as ((-> & -> & -> & ->) & Hidx & _).
    exists (int32_bytes (nth (Z.to_nat idx) sizes 0)). eexists. split.
    { fields. rewrite (znth_nth sizes idx 0) by lia. fields.
      rewrite write_bytes_at by (cbn [List.length int32_bytes]; lia).
      fields. unfold ecs_component_reader_next. fields.
      rewrite (znth_nth names idx EmptyString) by lia. fields.
      reflexivity. }
    fields. cbn [List.length int32_bytes].
    split; [lia|]. split; [lia|]. split.
    + split; [exact Hw|]. unfold StreamSpec.loaded. fields.
      repeat split; lia.
    + now rewrite <- !app_assoc.
  - (* the length of the name *)
    destruct Hst as ((-> & -> & -> & ->) & Hidx & _ & -> & ->).
    exists (int32_bytes (strlen (nth (Z.to_nat idx) names EmptyString) + 1)).
    eexists. split.
    { fields. rewrite write_bytes_at by (cbn [List.length int32_bytes]; lia).
      fields. unfold ecs_component_reader_next. fields. reflexivity. }
    fields. cbn [List.length int32_bytes].
    split; [lia|]. split; [lia|]. split.
    + split; [exact Hw|]. unfold StreamSpec.loaded. fields.
      unfold strlen. repeat split; lia.
    + cbn [Z.to_nat firstn]. now rewrite <- !app_assoc, app_nil_r.
  - (* the name *)
    destruct Hst as ((-> & -> & -> & ->) & Hidx & _ & -> & -> & Hwr).
    set (nm := nth (Z.to_nat idx) names EmptyString) in *.
    set (rd := if size <? strlen nm + 1 - wr then size
               else strlen nm + 1 - wr).
    assert (Hrd : 1 <= rd <= size /\ wr + rd <= strlen nm + 1).
    { unfold rd. destruct (Z.ltb_spec size (strlen nm + 1 - wr)); lia. }
    pose proof (length_c_string nm) as Hcs.
    set (out := firstn (Z.to_nat rd) (skipn (Z.to_nat wr) (c_string nm))).
    assert (Hout : Z.of_nat (List.length out) = rd).
    { unfold out. rewrite firstn_length_le; [lia|].
      rewrite length_skipn. lia. }
    exists out. fields.
    rewrite (read_bytes_at (c_string nm) wr rd) by lia. fields.
    fold out. rewrite write_bytes_at by lia. fields.
    assert (Ele : (wr + rd <=? strlen nm + 1) = true)
      by (apply Z.leb_le; lia).
    rewrite Ele. cbn [ecs_assert bind]. rewrite Hout.
    destruct (Z.eqb_spec (wr + rd) (strlen nm + 1)) as [Eall|Emore].
    + unfold ecs_component_reader_next. fields.
      assert (Hk : Z.to_nat (idx + 1) = S (Z.to_nat idx)) by lia.
      assert (Hbytes :
        records kind_code ids sizes names (Z.to_nat (idx + 1)) =
        (records kind_code ids sizes names (Z.to_nat idx)
         ++ int32_bytes (kind_code EcsComponentHeader)
         ++ int32_bytes (nth (Z.to_nat idx) ids 0)
         ++ int32_bytes (nth (Z.to_nat idx) sizes 0)
         ++ int32_bytes (strlen nm + 1)
         ++ firstn (Z.to_nat wr) (c_string nm)) ++ out).
      { rewrite Hk, segment_snoc by lia.
        unfold Stream.component_record. fold nm.
        rewrite <- !app_assoc. do 5 f_equal.
        rewrite <- (firstn_skipn (Z.to_nat wr) (c_string nm)) at 1.
        f_equal. unfold out. symmetry. apply firstn_all2.
        rewrite length_skipn. lia. }
      destruct (Z.eqb_spec (idx + 1) (Z.of_nat (List.length ids)))
        as [Elast|Enext];
        (eexists; split; [reflexivity|]); fields;
        (split; [lia|]); (split; [lia|]); (split; [|exact Hbytes]);
        (split; [exact Hw|]); unfold StreamSpec.loaded; fields.
      * apply Z.eqb_eq in Elast. rewrite Elast.
        apply Z.eqb_eq in Elast. repeat split; lia.
      * apply Z.eqb_neq in Enext. rewrite Enext.
        apply Z.eqb_neq in Enext. repeat split; lia.
    + eexists. split; [reflexivity|].
      split; [lia|]. split; [lia|]. fields. split.
      * split; [exact Hw|]. unfold StreamSpec.loaded. fields.
        fold nm. repeat split; lia.
      * fold nm. rewrite <- !app_assoc. do 5 f_equal.
        rewrite Z2Nat.inj_add by lia. apply firstn_add.
Qed.

(** What a stream has handed out opens the component segment. *)
Lemma emitted_prefix (s : ecs_stream_t) :
  cursor_ok s ->
  exists rest, segment kind_code ids sizes names = emitted s ++ rest.
Proof.
  intros [Hw Hst].
  destruct s as [w [cu tabs c tr]].
  destruct c as [k idc dc nc cnt idx nm ln wr].
  assert (Hls : List.length sizes = List.length ids) by apply Hw.
  assert (Hln : List.length names = List.length ids) by apply Hw.
  assert (Hrec : 0 <= idx < Z.of_nat (List.length ids) ->
    exists rest,
      segment kind_code ids sizes names =
      records kind_code ids sizes names (Z.to_nat idx)
      ++ int32_bytes (kind_code EcsComponentHeader)
      ++ int32_bytes (nth (Z.to_nat idx) ids 0)
      ++ int32_bytes (nth (Z.to_nat idx) sizes 0)
      ++ int32_bytes (strlen (nth (Z.to_nat idx) names EmptyString) + 1)
      ++ c_string (nth (Z.to_nat idx) names EmptyString) ++ rest).
  { intros Hidx.
    destruct (segment_prefix kind_code ids sizes names (S (Z.to_nat idx)))
      as (rest & E).
    exists rest. rewrite E, segment_snoc by lia.
    unfold Stream.component_record. now rewrite <- !app_assoc. }
  unfold StreamSpec.emitted. cbn in Hst. fields.
  destruct k; try contradiction; try unfold StreamSpec.loaded in Hst;
    cbn in Hst.
  - now exists (segment kind_code ids sizes names).
  - apply segment_prefix.
  - destruct Hrec as (rest & E); [apply Hst|]. rewrite E.
    eexists. rewrite <- !app_assoc. reflexivity.
  - destruct Hrec as (rest & E); [apply Hst|]. rewrite E.
    eexists. rewrite <- !app_assoc. reflexivity.
  - destruct Hst as (_ & Hidx & _ & _ & ->).
    destruct Hrec as (rest & E); [exact Hidx|]. rewrite E.
    eexists. rewrite <- !app_assoc. reflexivity.
  - destruct Hst as (_ & Hidx & _ & _ & -> & Hwr).
    destruct Hrec as (rest & E); [exact Hidx|]. rewrite E.
    exists (skipn (Z.to_nat wr)
              (c_string (nth (Z.to_nat idx) names EmptyString)) ++ rest).
    rewrite <- !app_assoc. do 5 f_equal.
    now rewrite app_assoc, firstn_skipn.
Qed.

(** A stream stays in the component segment until it has handed out the
    whole of it. *)
Lemma cursor_segment (s : ecs_stream_t) :
  cursor_ok s ->
  cur (reader s) = EcsComponentSegment \/
  (cur (reader s) = EcsTableSegment /\
   emitted s = segment kind_code ids sizes names).
Proof.
  intros [Hw Hst].
  destruct s as [w [cu tabs c tr]].
  destruct c as [k idc dc nc cnt idx nm ln wr].
  unfold StreamSpec.emitted. cbn in Hst. fields.
  destruct k; try contradiction; try (left; apply Hst).
  destruct Hst as (_ & Hidx & ->).
  destruct (Z.eqb_spec idx (Z.of_nat (List.length ids))) as [->|_];
    [right|now left].
  split; [reflexivity|]. rewrite Nat2Z.id.
  apply segment_all; apply Hw.
Qed.

Lemma buffer_after (b0 chunk0 out : list Z) :
  (List.length chunk0 + List.length out <= List.length b0)%nat ->
  firstn (List.length chunk0) (chunk0 ++ skipn (List.length chunk0) b0)
  ++ out
  ++ skipn (List.length chunk0 + List.length out)
       (chunk0 ++ skipn (List.length chunk0) b0)
  = (chunk0 ++ out) ++ skipn (List.length (chunk0 ++ out)) b0.
Proof.
  intros H.
  rewrite firstn_app, firstn_all, Nat.sub_diag, firstn_O, app_nil_r.
  rewrite skipn_app, skipn_all2 by lia. cbn [app].
  replace (List.length chunk0 + List.length out - List.length chunk0)%nat
    with (List.length out) by lia.
  rewrite skipn_skipn, length_app, <- app_assoc.
  now rewrite (Nat.add_comm (List.length out)).
Qed.

(** The first loop of [ecs_stream_read], started in the component segment
    with [chunk0] already in the buffer [b0]. *)
Lemma component_loop_run (b0 : list Z) :
  Z.of_nat (List.length b0) < SIZE_MAX ->
  forall (fuel : nat) (s0 : read_state) (chunk0 : list Z),
    cursor_ok (st s0) -> cur (reader (st s0)) = EcsComponentSegment ->
    total_read s0 = Z.of_nat (List.length chunk0) ->
    remaining s0 = Z.of_nat (List.length b0) - Z.of_nat (List.length chunk0) ->
    0 <= remaining s0 ->
    buf s0 = chunk0 ++ skipn (List.length chunk0) b0 ->
    (Z.to_nat (remaining s0) < fuel)%nat ->
    exists chunk s1,
      component_loop fuel s0 = Some (Ok s1) /\
      total_read s1 = Z.of_nat (List.length (chunk0 ++ chunk)) /\
      remaining s1 =
        Z.of_nat (List.length b0) - Z.of_nat (List.length (chunk0 ++ chunk)) /\
      0 <= remaining s1 /\
      buf s1 = (chunk0 ++ chunk) ++ skipn (List.length (chunk0 ++ chunk)) b0 /\
      cursor_ok (st s1) /\
      emitted (st s1) = emitted (st s0) ++ chunk /\
      ((read s1 = 0 /\ remaining s1 = 0 /\
        cur (reader (st s1)) = EcsComponentSegment) \/
       (read s1 = SIZE_MAX /\ 0 < remaining s1 < 4 /\
        cur (reader (st s1)) = EcsComponentSegment) \/
       (read s1 <> 0 /\ read s1 <> SIZE_MAX /\
        cur (reader (st s1)) = EcsTableSegment)).
Proof.
  intros Hmax fuel. unfold SIZE_MAX in Hmax.
  induction fuel as [|fuel IH]; intros s0 chunk0 Hok Hcur Htot Hrem Hpos Hbuf Hfuel;
    [lia|].
  destruct s0 as [rd0 tot rem b s]. cbn [st total_read remaining buf] in *.
  subst tot b. cbn [Stream.component_loop st total_read remaining buf].
  destruct (Z.eq_dec rem 0) as [Ez|Enz].
  - (* nothing is left of the buffer *)
    unfold Stream.ecs_component_reader. rewrite Ez. cbn [Z.eqb].
    exists [], {| read := 0; total_read := Z.of_nat (List.length chunk0);
                  remaining := 0;
                  buf := chunk0 ++ skipn (List.length chunk0) b0; st := s |}.
    cbn [st total_read remaining buf read]. rewrite !app_nil_r.
    repeat (split; [first [reflexivity | lia | assumption]|]).
    left. now repeat split.
  - destruct (Z.lt_ge_cases rem 4) as [Hlt|Hge].
    + (* less than four bytes are left *)
      unfold Stream.ecs_component_reader.
      assert (E0 : (rem =? 0) = false) by (apply Z.eqb_neq; lia).
      assert (E4 : (rem <? sizeof_int32) = true)
        by (apply Z.ltb_lt; unfold sizeof_int32; lia).
      rewrite E0, E4.
      change (SIZE_MAX =? 0) with false. rewrite Z.eqb_refl.
      exists [], {| read := SIZE_MAX;
                    total_read := Z.of_nat (List.length chunk0);
                    remaining := rem;
                    buf := chunk0 ++ skipn (List.length chunk0) b0; st := s |}.
      cbn [st total_read remaining buf read]. rewrite !app_nil_r.
      repeat (split; [first [reflexivity | lia | assumption]|]).
      right. left. repeat split; try lia. exact Hcur.
    + destruct (component_step (chunk0 ++ skipn (List.length chunk0) b0)
                  (Z.of_nat (List.length chunk0)) rem s Hok Hcur Hge)
        as (out & s' & Hstep & Hl1 & Hl2 & Hok' & Hem).
      { lia. }
      { rewrite length_app, length_skipn. lia. }
      rewrite Hstep. rewrite Nat2Z.id.
      rewrite buffer_after by lia.
      assert (E0 : (Z.of_nat (List.length out) =? 0) = false)
        by (apply Z.eqb_neq; lia).
      assert (Em : (Z.of_nat (List.length out) =? SIZE_MAX) = false)
        by (apply Z.eqb_neq; unfold SIZE_MAX; lia).
      rewrite E0, Em.
      assert (Eadd : size_add (Z.of_nat (List.length chunk0))
                       (Z.of_nat (List.length out)) =
                     Z.of_nat (List.length (chunk0 ++ out))).
      { unfold size_add. rewrite length_app, Z.mod_small; lia. }
      assert (Esub : size_sub rem (Z.of_nat (List.length out)) =
                     Z.of_nat (List.length b0)
                     - Z.of_nat (List.length (chunk0 ++ out))).
      { unfold size_sub. rewrite length_app, Z.mod_small; lia. }
      rewrite Eadd, Esub.
      destruct (cursor_segment s' Hok') as [Hc|[Hc Hfull]]; rewrite Hc.
      * change (negb (kind_eqb EcsComponentSegment EcsComponentSegment))
          with false. cbv iota.
        destruct (IH {| read := Z.of_nat (List.length out);
                        total_read := Z.of_nat (List.length (chunk0 ++ out));
                        remaining := Z.of_nat (List.length b0)
                                     - Z.of_nat (List.length (chunk0 ++ out));
                        buf := (chunk0 ++ out)
                               ++ skipn (List.length (chunk0 ++ out)) b0;
                        st := s' |} (chunk0 ++ out))
          as (chunk & s1 & Hrun & Ht1 & Hr1 & Hp1 & Hb1 & Hok1 & Hem1 & Hexit);
          cbn [st total_read remaining buf]; try reflexivity;
          try assumption; try (rewrite length_app; lia).
        exists (out ++ chunk), s1. rewrite Hrun.
        rewrite !app_assoc. cbn [st] in Hem1. rewrite Hem in Hem1.
        repeat (split; [first [reflexivity | lia | assumption]|]).
        exact Hexit.
      * change (negb (kind_eqb EcsTableSegment EcsComponentSegment))
          with true. cbv iota.
        exists out. eexists. split; [reflexivity|].
        cbn [st total_read remaining buf read].
        repeat (split; [first [reflexivity | lia | assumption
                              | rewrite length_app; lia]|]).
        right. right. split; [lia|].
        split; [unfold SIZE_MAX; lia | exact Hc].
Qed.

(** One call of [ecs_stream_read] that asks for no more than is left of
    the component segment. *)
Lemma stream_read_in_segment (fuel : nat) (buffer : list Z)
    (s : ecs_stream_t) :
  let size := Z.of_nat (List.length buffer) in
  cursor_ok s -> cur (reader s) = EcsComponentSegment ->
  4 <= size < SIZE_MAX ->
  size <= Z.of_nat (List.length (segment kind_code ids sizes names))
          - Z.of_nat (List.length (emitted s)) ->
  (List.length buffer < fuel)%nat ->
  exists chunk s',
    ecs_stream_read fuel buffer size s =
      Some (Ok (Z.of_nat (List.length chunk),
                chunk ++ skipn (List.length chunk) buffer, s')) /\
    size - 3 <= Z.of_nat (List.length chunk) <= size /\
    emitted s' = emitted s ++ chunk /\
    cursor_ok s'.
Proof.
  intros size Hok Hcur Hsize Hleft Hfuel.
  unfold Stream.ecs_stream_read.
  assert (E0 : (size =? 0) = false) by (apply Z.eqb_neq; lia).
  assert (E4 : (sizeof_int32 <=? size) = true)
    by (apply Z.leb_le; unfold sizeof_int32; lia).
  rewrite E0, E4, Hcur. cbn [negb].
  change (kind_eqb EcsComponentSegment EcsComponentSegment) with true.
  cbv iota.
  destruct (component_loop_run buffer (proj2 Hsize) fuel
              {| read := 0; total_read := 0; remaining := size;
                 buf := buffer; st := s |} [])
    as (chunk & s1 & Hrun & Ht & Hr & Hp & Hb & Hok1 & Hem & Hexit);
    cbn [st total_read remaining buf List.length app skipn];
    try assumption; try reflexivity; try lia.
  cbn [app st] in Ht, Hr, Hb, Hem. rewrite Hrun.
  exists chunk, (st s1). fold size in Hr.
  assert (Hresult :
    Some (Ok (total_read s1, buf s1, st s1)) =
    Some (Ok (Z.of_nat (List.length chunk),
              chunk ++ skipn (List.length chunk) buffer, st s1)))
    by now rewrite Ht, Hb.
  destruct Hexit as [(Hrd & Hz & Hc)|[(Hrd & Hsmall & Hc)|(Hn0 & Hnm & Hc)]].
  - rewrite Hrd, Hz. change (0 =? SIZE_MAX) with false.
    cbn [Z.eqb andb negb]. unfold Stream.table_part. rewrite Hc.
    change (kind_eqb EcsComponentSegment EcsTableSegment) with false.
    cbv iota. split; [exact Hresult|]. split; [lia|]. split; [exact Hem | exact Hok1].
  - rewrite Hrd, Z.eqb_refl.
    split; [exact Hresult|]. split; [lia|]. split; [exact Hem | exact Hok1].
  - apply Z.eqb_neq in Hn0, Hnm. rewrite Hn0, Hnm. cbn [andb].
    unfold Stream.table_part. rewrite Hc.
    change (kind_eqb EcsTableSegment EcsTableSegment) with true. cbv iota.
    destruct (cursor_segment (st s1) Hok1) as [Hc'|[_ Hfull]];
      [congruence|].
    assert (Hall : Z.of_nat (List.length chunk) = size).
    { rewrite Hem in Hfull. rewrite <- Hfull, length_app in Hleft. lia. }
    assert (Hz : remaining s1 = 0) by lia.
    destruct fuel as [|fuel]; [lia|].
    cbn [Stream.table_loop]. unfold Stream.ecs_table_reader.
    rewrite Hz. cbn [Z.eqb total_read remaining buf st].
    split; [exact Hresult|]. split; [lia|]. split; [exact Hem | exact Hok1].
Qed.

Lemma read_calls_run (fuel : nat) (buffers : list (list Z)) :
  forall s : ecs_stream_t,
    cursor_ok s ->
    Forall (buffer_ok fuel) buffers ->
    Z.of_nat (List.length (List.concat buffers))
      <= Z.of_nat (List.length (segment kind_code ids sizes names))
         - Z.of_nat (List.length (emitted s)) ->
    exists chunks s',
      read_calls kind_code vector_bytes fuel buffers s =
        Some (Ok (chunks, s')) /\
      emitted s' = emitted s ++ List.concat chunks /\
      cursor_ok s' /\
      Forall2 nearly_full buffers chunks.
Proof.
  induction buffers as [|b buffers IH]; intros s Hok Hall Hsum.
  - exists [], s. cbn [StreamSpec.read_calls List.concat].
    rewrite app_nil_r. split; [reflexivity|]. split; [reflexivity|].
    split; [exact Hok | constructor].
  - apply Forall_cons_iff in Hall. destruct Hall as [[Hb Hfuel] Hall].
    cbn [List.concat] in Hsum. rewrite length_app in Hsum.
    assert (Hcur : cur (reader s) = EcsComponentSegment).
    { destruct (cursor_segment s Hok) as [Hc|[_ Hfull]]; [exact Hc|].
      rewrite Hfull in Hsum. lia. }
    destruct (stream_read_in_segment fuel b s Hok Hcur Hb)
      as (chunk & s1 & Hread & Hlen & Hem & Hok1); [lia | exact Hfuel |].
    destruct (IH s1 Hok1 Hall) as (chunks & s2 & Hrest & Hem2 & Hok2 & Hfull).
    { rewrite Hem, length_app. lia. }
    exists (chunk :: chunks), s2.
    cbn [StreamSpec.read_calls]. rewrite Hread, Hrest.
    rewrite Nat2Z.id, firstn_app, firstn_all, Nat.sub_diag, firstn_O,
      app_nil_r.
    split; [reflexivity|]. split.
    + cbn [List.concat]. now rewrite Hem2, Hem, app_assoc.
    + split; [exact Hok2|]. constructor; [exact Hlen | exact Hfull].
Qed.

(** A newly opened stream hands out the component segment in order: when
    the buffers of the calls together are no larger than the segment and
    each holds at least four bytes, every call fills its buffer up to at
    most three bytes, and the bytes of the calls one after the other are
    the beginning of the segment: the records of the components in the
    order of the component table, each with header, id, size, length of
    the name and name. *)
Theorem component_segment_in_order (fuel : nat) (buffers : list (list Z))
    (w : ecs_world_t) (snapshot : ecs_snapshot_t) :
  table_ok w ->
  Forall (buffer_ok fuel) buffers ->
  (List.length (List.concat buffers)
     <= List.length (segment kind_code ids sizes names))%nat ->
  exists chunks s' rest,
    read_calls kind_code vector_bytes fuel buffers
      (ecs_stream_open w snapshot) = Some (Ok (chunks, s')) /\
    segment kind_code ids sizes names = List.concat chunks ++ rest /\
    Forall2 nearly_full buffers chunks.
Proof.
  intros Hw Hall Hsum.
  assert (Hok : cursor_ok (ecs_stream_open w snapshot)).
  { split; [exact Hw|]. cbn. now split. }
  destruct (read_calls_run fuel buffers _ Hok Hall)
    as (chunks & s' & Hrun & Hem & Hok' & Hfull).
  { cbn [StreamSpec.emitted ecs_stream_open reader component c_cur
         component_reader_zero List.length]. lia. }
  destruct (emitted_prefix s' Hok') as (rest & Hrest).
  exists chunks, s', rest. split; [exact Hrun|]. split; [|exact Hfull].
  rewrite Hrest, Hem. reflexivity.
Qed.

End StepFacts.

(** Two calls with buffers of eight bytes on the world with the one
    component ["A"], whose segment has 18 bytes. *)
Lemma component_segment_in_order_witness :
  exists chunks s' rest,
    StreamSpec.read_calls StreamInputs.kind_code StreamInputs.vector_bytes 16
      [StreamInputs.fresh_buffer 8; StreamInputs.fresh_buffer 8]
      (Stream.ecs_stream_open StreamInputs.world1 StreamInputs.snapshot1)
      = Some (Ok (chunks, s')) /\
    StreamSpec.segment StreamInputs.kind_code [1] [4] ["A"%string]
      = List.concat chunks ++ rest /\
    Forall2 StreamSpec.nearly_full
      [StreamInputs.fresh_buffer 8; StreamInputs.fresh_buffer 8] chunks.
Proof.
  apply (component_segment_in_order StreamInputs.kind_code
           StreamInputs.vector_bytes [1] [4] ["A"%string] 16
           [StreamInputs.fresh_buffer 8; StreamInputs.fresh_buffer 8]
           StreamInputs.world1 StreamInputs.snapshot1).
  - repeat split; discriminate.
  - repeat constructor; simpl; unfold Stream.SIZE_MAX; lia.
  - simpl. lia.
Defined.

(** * The table reader at a table header *)

Section TableHeaderFacts.
Import Stream.

Variable vector_bytes : ecs_vector_t -> list Z.

Local Abbreviation ecs_table_reader_next :=
  (ecs_table_reader_next vector_bytes).

(** The [do ... while] loop stops at the first table with columns. *)
Lemma next_table_first (rest : list ecs_table_t) :
  forall (table_index : Z),
    (Forall (fun t => columns t = None) rest ->
     next_table rest table_index = Undefined) /\
    (forall (k : nat) (t : ecs_table_t) (cols : list ecs_table_column_t),
       nth_error rest k = Some t -> columns t = Some cols ->
       Forall (fun t => columns t = None) (firstn k rest) ->
       next_table rest table_index = Ok (t, cols, table_index + Z.of_nat k + 1)).
Proof.
  induction rest as [|t0 rest IH]; intros ti; cbn [next_table].
  - split; [reflexivity|]. intros [|k]; discriminate.
  - destruct (IH (ti + 1)) as [IHnone IHsome]. split.
    + intros H. apply Forall_cons_iff in H. destruct H as [-> H].
      now apply IHnone.
    + intros [|k] t cols Hk Hcols Hskip.
      * injection Hk as ->. rewrite Hcols. do 3 f_equal. lia.
      * cbn [nth_error firstn] in Hk, Hskip.
        apply Forall_cons_iff in Hskip. destruct Hskip as [-> Hskip].
        rewrite (IHsome k t cols Hk Hcols Hskip). do 3 f_equal. lia.
Qed.

(** At a table header the reader moves on to the next table of the
    snapshot that is not filtered out, skipping the filtered ones, and
    starts at its first type id and first column; the segment of the
    stream stays.  When every table from [table_index] on is filtered out,
    as after the last table with columns of a snapshot that ends in a
    filtered table, the loop runs past the end of the tables. *)
Theorem table_header_skips_filtered (s : ecs_stream_t) :
  let r := table_reader (reader s) in
  let rest := skipn (Z.to_nat (table_index r)) (tables (reader s)) in
  t_cur r = EcsTableHeader ->
  0 <= table_index r ->
  (Forall (fun t => columns t = None) rest ->
   ecs_table_reader_next s = Undefined) /\
  (forall (k : nat) (t : ecs_table_t) (cols : list ecs_table_column_t),
     nth_error rest k = Some t -> columns t = Some cols ->
     Forall (fun t => columns t = None) (firstn k rest) ->
     exists s',
       ecs_table_reader_next s = Ok s' /\
       let r' := table_reader (reader s') in
       table r' = Some t /\ t_columns r' = Some cols /\
       t_type r' = type t /\
       table_index r' = table_index r + Z.of_nat k + 1 /\
       t_cur r' = EcsTableTypeSize /\
       type_index r' = 0 /\ column_index r' = 0 /\
       total_columns r' = Z.of_nat (List.length (type t)) + 1 /\
       cur (reader s') = cur (reader s) /\
       source s' = source s).
Proof.
  intros r rest Hcur Hidx. unfold Stream.ecs_table_reader_next.
  fold r. rewrite Hcur.
  assert (E : (table_index r <? 0) = false) by (apply Z.ltb_ge; lia).
  rewrite E. fold rest.
  destruct (next_table_first rest (table_index r)) as [Hnone Hsome]. split.
  - intros H. now rewrite (Hnone H).
  - intros k t cols Hk Hcols Hskip.
    rewrite (Hsome k t cols Hk Hcols Hskip). cbn [bind].
    eexists. split; [reflexivity|]. cbn. repeat split.
Qed.

End TableHeaderFacts.

(** A snapshot of a filtered table, the component table and another
    filtered table: from the start the reader finds the component table;
    after it, it finds none. *)
Lemma table_header_skips_filtered_witness :
  let filtered := {| Stream.type := [9]; Stream.columns := None |} in
  let s i :=
    {| Stream.world := StreamInputs.world1;
       Stream.reader :=
         {| Stream.cur := Stream.EcsTableSegment;
            Stream.tables := [filtered; StreamInputs.component_table; filtered];
            Stream.component := Stream.component_reader_zero;
            Stream.table_reader :=
              {| Stream.t_cur := Stream.EcsTableHeader;
                 Stream.table_index := i; Stream.table := None;
                 Stream.t_columns := None; Stream.t_type := [];
                 Stream.type_index := 0; Stream.total_columns := 0;
                 Stream.column_index := 0; Stream.column := None;
                 Stream.column_size := 0; Stream.column_data := [];
                 Stream.column_written := 0 |} |} |} in
  Stream.ecs_table_reader_next StreamInputs.vector_bytes (s 2) = Undefined /\
  exists s',
    Stream.ecs_table_reader_next StreamInputs.vector_bytes (s 0) = Ok s' /\
    Stream.table_index (Stream.table_reader (Stream.reader s')) = 2.
Proof.
  intros filtered s. split.
  - apply (table_header_skips_filtered StreamInputs.vector_bytes (s 2)
             eq_refl ltac:(simpl; lia)).
    repeat constructor.
  - destruct (table_header_skips_filtered StreamInputs.vector_bytes (s 0)
                eq_refl ltac:(simpl; lia)) as [_ H].
    destruct (H 1%nat StreamInputs.component_table _ eq_refl eq_refl)
      as (s' & Hs' & _ & _ & _ & Hidx & _).
    { repeat constructor. }
    exists s'. split; [exact Hs' | exact Hidx].
Defined.

(** * The bytes of a 32-bit store *)

Section ByteFacts.
Import Stream.

Lemma byte_of_low_bits (v d m : Z) :
  0 < d -> 0 < m ->
  (v / d) mod 256 = ((v mod (d * 256 * m)) / d) mod 256.
Proof.
  intros Hd Hm.
  rewrite (Z.div_mod v (d * 256 * m)) at 1 by lia.
  replace (d * 256 * m * (v / (d * 256 * m)) + v mod (d * 256 * m))
    with (v mod (d * 256 * m) + (m * (v / (d * 256 * m)) * 256) * d) by ring.
  rewrite Z.div_add by lia.
  rewrite Z.add_comm, Z.mul_comm.
  replace (256 * (m * (v / (d * 256 * m))) + v mod (d * 256 * m) / d)
    with (v mod (d * 256 * m) / d + (m * (v / (d * 256 * m))) * 256)
    by ring.
  apply Z.mod_add. lia.
Qed.

Lemma low_bits_of_bytes (v : Z) :
  v mod 2 ^ 32 =
  v mod 256 + 256 * ((v / 256) mod 256) + 65536 * ((v / 65536) mod 256)
  + 16777216 * ((v / 16777216) mod 256).
Proof.
  change (2 ^ 32) with (256 * 16777216).
  rewrite Z.rem_mul_r by lia.
  change 16777216 with (256 * 65536) at 1.
  rewrite Z.rem_mul_r by lia.
  change 65536 with (256 * 256) at 1.
  rewrite Z.rem_mul_r by lia.
  rewrite !Z.div_div by lia.
  change (256 * 256) with 65536. change (65536 * 256) with 16777216.
  ring.
Qed.

(** Two values are stored as the same four bytes exactly when they agree
    in their low 32 bits; an id to which [add_childof] or
    [add_instanceof] has added its flag is therefore written to the
    stream like the id without the flag. *)
Theorem int32_bytes_keep_low_bits (a b : Z) :
  (int32_bytes a = int32_bytes b <-> a mod 2 ^ 32 = b mod 2 ^ 32) /\
  int32_bytes (Cpp.childof_id a) = int32_bytes a /\
  int32_bytes (Cpp.instanceof_id a) = int32_bytes a.
Proof.
  assert (Hiff : forall x y,
            int32_bytes x = int32_bytes y <-> x mod 2 ^ 32 = y mod 2 ^ 32).
  { intros x y. split.
    - unfold int32_bytes. intros H. injection H as H0 H1 H2 H3.
      rewrite (low_bits_of_bytes x), (low_bits_of_bytes y).
      now rewrite H0, H1, H2, H3.
    - intros H. unfold int32_bytes.
      rewrite <- (Z.div_1_r x), <- (Z.div_1_r y).
      rewrite (byte_of_low_bits x 1 16777216),
        (byte_of_low_bits y 1 16777216) by lia.
      rewrite (byte_of_low_bits (x / 1) 256 65536),
        (byte_of_low_bits (y / 1) 256 65536) by lia.
      rewrite (byte_of_low_bits (x / 1) 65536 256),
        (byte_of_low_bits (y / 1) 65536 256) by lia.
      rewrite (byte_of_low_bits (x / 1) 16777216 1),
        (byte_of_low_bits (y / 1) 16777216 1) by lia.
      rewrite !Z.div_1_r.
      change (1 * 256 * 16777216) with (2 ^ 32).
      change (256 * 256 * 65536) with (2 ^ 32).
      change (65536 * 256 * 256) with (2 ^ 32).
      change (16777216 * 256 * 1) with (2 ^ 32).
      now rewrite H. }
  assert (Hflag : forall x n, 32 <= n ->
            (Z.lor x (2 ^ n)) mod 2 ^ 32 = x mod 2 ^ 32).
  { intros x n Hn. apply Z.bits_inj'. intros i Hi.
    destruct (Z.lt_ge_cases i 32) as [Hlow|Hhigh].
    - rewrite !Z.mod_pow2_bits_low, Z.lor_spec by lia.
      rewrite Z.pow2_bits_false by lia. apply orb_false_r.
    - now rewrite !Z.mod_pow2_bits_high by lia. }
  split; [apply Hiff|]. split; apply Hiff.
  - apply (Hflag a 62). lia.
  - apply (Hflag a 63). lia.
Qed.

End ByteFacts.

(** * [GetChildren] *)

Section GetChildrenFacts.
Import GetChildrenExample.

Lemma store_last_add (v : list entity_t) (junk x : entity_t) :
  store_last (ecs_vector_add v junk) x = v ++ [x].
Proof.
  unfold store_last, ecs_vector_add. now rewrite removelast_last.
Qed.

Lemma GetChildren_from_all (rows : ecs_rows_t) (junk : entity_t) :
  count rows < 2 ^ 31 ->
  forall (fuel : nat) (i : Z) (children : list entity_t),
    0 <= i ->
    (Z.to_nat (count rows - i) < fuel)%nat ->
    GetChildren_from fuel rows junk i children =
    Some (Ok (children ++ rows_from rows i (Z.to_nat (count rows - i)))).
Proof.
  intros Hcount.
  induction fuel as [|fuel IH]; intros i children Hi Hfuel; [lia|].
  cbn [GetChildren_from].
  destruct (Z.ltb_spec i (count rows)) as [Hlt|Hge].
  - unfold Ranges.incr_int.
    assert (E : (i <? 2 ^ 31 - 1) = true) by (apply Z.ltb_lt; lia).
    rewrite E, store_last_add, IH by lia.
    replace (Z.to_nat (count rows - i))
      with (S (Z.to_nat (count rows - (i + 1)))) by lia.
    cbn [rows_from]. now rewrite <- app_assoc.
  - replace (Z.to_nat (count rows - i)) with 0%nat by lia.
    cbn [rows_from]. now rewrite app_nil_r.
Qed.

Lemma GetChildren_from_overflow (rows : ecs_rows_t) (junk : entity_t) :
  2 ^ 31 <= count rows ->
  forall (fuel : nat) (i : Z) (children : list entity_t),
    0 <= i <= 2 ^ 31 - 1 ->
    (Z.to_nat (2 ^ 31 - 1 - i) < fuel)%nat ->
    GetChildren_from fuel rows junk i children = Some Undefined.
Proof.
  intros Hcount.
  induction fuel as [|fuel IH]; intros i children Hi Hfuel; [lia|].
  cbn [GetChildren_from].
  assert (E : (i <? count rows) = true) by (apply Z.ltb_lt; lia).
  rewrite E. unfold Ranges.incr_int.
  destruct (Z.ltb_spec i (2 ^ 31 - 1)) as [Hlt|Hge]; [|reflexivity].
  apply IH; lia.
Qed.

(** For a batch of fewer than [2^31] rows [GetChildren] appends the
    entities of the batch to the vector, one for each row and in the order
    of the rows, and keeps what the vector held; what the new elements held
    before they were assigned makes no difference, and a batch without
    rows leaves the vector as it is.  For a row count of [2^31] or more
    the counter [int i] is incremented past [INT_MAX]. *)
Theorem GetChildren_appends_rows (fuel : nat) (rows : ecs_rows_t)
    (junk : entity_t) (children : list entity_t) :
  (0 <= count rows < 2 ^ 31 ->
   (Z.to_nat (count rows) < fuel)%nat ->
   GetChildren fuel rows junk children =
   Some (Ok (children ++ rows_from rows 0 (Z.to_nat (count rows))))) /\
  (2 ^ 31 <= count rows ->
   (Z.to_nat (2 ^ 31) <= fuel)%nat ->
   GetChildren fuel rows junk children = Some Undefined).
Proof.
  unfold GetChildren. split.
  - intros Hcount Hfuel.
    rewrite GetChildren_from_all by (rewrite ?Z.sub_0_r; lia).
    now rewrite Z.sub_0_r.
  - intros Hcount Hfuel. apply GetChildren_from_overflow; lia.
Qed.

End GetChildrenFacts.

Lemma GetChildren_appends_rows_witness :
  GetChildrenExample.GetChildren 4
    {| GetChildrenExample.count := 3;
       GetChildrenExample.entities := fun i => 100 + i |} 0 [7] =
  Some (Ok [7; 100; 101; 102]).
Proof.
  apply (GetChildren_appends_rows 4
           {| GetChildrenExample.count := 3;
              GetChildrenExample.entities := fun i => 100 + i |} 0 [7]);
    simpl; lia.
Defined.

(** * Registration of several components, and the signature of a system *)

Section RegistrationFacts.
Import Cpp Registration.

Variable world_t : Type.
Variable sizeof : cpp_type -> Z.
Variable ecs_new_component : world_t -> string -> Z -> world_t * entity_t.
Variable ecs_type_from_entity : world_t -> entity_t -> type_t.

Local Abbreviation component :=
  (component world_t sizeof ecs_new_component ecs_type_from_entity).
Local Abbreviation register_all :=
  (register_all world_t sizeof ecs_new_component ecs_type_from_entity).

Lemma set_static_neq (reg : statics) (t u : cpp_type) (v : component_base) :
  u <> t -> set_static reg t v u = reg u.
Proof. unfold set_static. destruct (cpp_type_eq_dec u t); congruence. Qed.

(** Constructing [component<T>] writes the statics of [T], [const T] and
    [T&] and of no other type. *)
Lemma component_frame (reg : statics) (t u : cpp_type) (world : world_t)
    (name : string) :
  u <> t -> u <> add_const t -> u <> add_lvalue_reference t ->
  snd (component reg t world name) u = reg u.
Proof.
  intros H1 H2 H3. unfold Cpp.component, init, init_existing.
  destruct (ecs_new_component world name (sizeof t)) as [w e].
  cbn [snd]. now rewrite !set_static_neq by assumption.
Qed.

Lemma component_named (reg : statics) (n : nat) (u : cpp_type)
    (world : world_t) (name : string) :
  spells n u ->
  snd (component reg (TBase n) world name) u =
  snd (component reg (TBase n) world name) (TBase n) /\
  s_name (snd (component reg (TBase n) world name) u) = Some name.
Proof.
  intros Hu. unfold Cpp.component, init, init_existing.
  destruct (ecs_new_component world name (sizeof (TBase n))) as [w e].
  cbn [snd add_const add_lvalue_reference].
  assert (Hbase :
    set_static
      (set_static
         (set_static reg (TBase n)
            {| s_entity := e; s_type := ecs_type_from_entity w e;
               s_name := Some name |})
         (TConst (TBase n))
         {| s_entity := e; s_type := ecs_type_from_entity w e;
            s_name := Some name |})
      (TRef (TBase n))
      {| s_entity := e; s_type := ecs_type_from_entity w e;
         s_name := Some name |} (TBase n) =
    {| s_entity := e; s_type := ecs_type_from_entity w e;
       s_name := Some name |}).
  { rewrite !set_static_neq by discriminate. apply set_static_eq. }
  rewrite !set_static_eq.
  rewrite (set_static_neq _ (TConst (TBase n)) (TBase n)) by discriminate.
  rewrite !set_static_eq. cbn [s_entity s_type s_name].
  rewrite Hbase.
  destruct Hu as [ -> | [ -> | -> ] ].
  - now rewrite Hbase.
  - rewrite set_static_neq by discriminate. now rewrite set_static_eq.
  - now rewrite set_static_eq.
Qed.

Lemma register_all_frame (comps : list (nat * string)) :
  forall (reg : statics) (world : world_t) (u : cpp_type),
    (forall n, In n (map fst comps) -> ~ spells n u) ->
    snd (register_all reg world comps) u = reg u.
Proof.
  induction comps as [|[n name] comps IH]; intros reg world u Hu;
    [reflexivity|].
  cbn [Registration.register_all].
  destruct (component reg (TBase n) world name) as [w1 reg1] eqn:E.
  rewrite IH by (intros m Hm; apply Hu; now right).
  change reg1 with (snd (w1, reg1)). rewrite <- E.
  assert (Hn : ~ spells n u) by (apply Hu; now left).
  unfold spells in Hn.
  apply component_frame; cbn [add_const add_lvalue_reference]; tauto.
Qed.

(** Components that are registered one after the other do not disturb one
    another: when named class types that differ from each other are
    registered, each under its name, then afterwards every one of them is
    still registered under its name, for [T], [const T] and [T&] alike,
    with the same statics for all three, and the types that were not
    registered are as before. *)
Theorem components_registered_together (comps : list (nat * string))
    (reg : statics) (world : world_t) :
  NoDup (map fst comps) ->
  let reg' := snd (register_all reg world comps) in
  (forall n name u,
     In (n, name) comps -> spells n u ->
     s_name (reg' u) = Some name /\ reg' u = reg' (TBase n)) /\
  (forall u,
     (forall n, In n (map fst comps) -> ~ spells n u) -> reg' u = reg u).
Proof.
  intros Hnd. split; [|intros u Hu; now apply register_all_frame].
  revert reg world Hnd.
  induction comps as [|[m name0] comps IH]; intros reg world Hnd n name u Hin Hu;
    [contradiction|].
  cbn [map fst] in Hnd. apply NoDup_cons_iff in Hnd. destruct Hnd as [Hm Hnd].
  cbn [Registration.register_all].
  destruct (component reg (TBase m) world name0) as [w1 reg1] eqn:E.
  destruct Hin as [Hhead|Htail].
  - injection Hhead as -> ->.
    assert (Hkeep : forall v, spells n v ->
              snd (register_all reg1 w1 comps) v = reg1 v).
    { intros v Hv. apply register_all_frame. intros k Hk Hs.
      assert (k = n).
      { destruct Hv as [ -> | [ -> | -> ] ], Hs as [H|[H|H]]; congruence. }
      subst k. contradiction. }
    rewrite (Hkeep u Hu), (Hkeep (TBase n)) by now left.
    change reg1 with (snd (w1, reg1)). rewrite <- E.
    destruct (component_named reg n u world name Hu) as [Hsame Hname].
    split; [exact Hname | exact Hsame].
  - now apply IH.
Qed.

End RegistrationFacts.

(** [Position] (type 0) and [Velocity] (type 1) registered in a world that
    numbers its entities: [const Position] is still named after the second
    registration. *)
Lemma components_registered_together_witness :
  Cpp.s_name
    (snd (Registration.register_all nat Inputs.sizeof8
            (fun w _ _ => (S w, Z.of_nat w)) (fun _ e => [e])
            Cpp.statics_zero 5%nat
            [(0%nat, "Position"%string); (1%nat, "Velocity"%string)])
       (Cpp.TConst Inputs.Position)) = Some "Position"%string.
Proof.
  destruct (components_registered_together nat Inputs.sizeof8
              (fun w _ _ => (S w, Z.of_nat w)) (fun _ e => [e])
              [(0%nat, "Position"%string); (1%nat, "Velocity"%string)]
              Cpp.statics_zero 5%nat) as [H _].
  - repeat constructor; simpl; intuition discriminate.
  - apply (H 0%nat "Position"%string (Cpp.TConst Inputs.Position)).
    + simpl. now left.
    + right. left. reflexivity.
Defined.

Section SignatureFacts.
Import Cpp.

Lemma action_ids_defined (ids : list (option string)) (mods : list string) :
  forall (i : nat) (str : string),
    ((exists r, action_ids ids mods i str = Ok r) <->
     Forall (fun id => id <> None) ids) /\
    (forall e, action_ids ids mods i str <> Abort e).
Proof.
  induction ids as [|id ids IH]; intros i str; cbn [action_ids].
  - split; [|discriminate]. split; [constructor | eexists; reflexivity].
  - destruct id as [s|]; cbn [put bind].
    + destruct (IH (S i)
                  ((if (0 <? i)%nat then str ++ "," else str)
                   ++ nth i mods "" ++ s)%string) as [Hiff Hab].
      rewrite <- append_assoc in Hiff, Hab.
      split; [|exact Hab]. rewrite Hiff. split.
      * intros H. constructor; [discriminate | exact H].
      * intros H. now apply Forall_cons_iff in H.
    + split; [|discriminate]. split.
      * intros [r H]. discriminate.
      * intros H. apply Forall_cons_iff in H. destruct H as [H _].
        congruence.
Qed.

(** [system::action] builds a signature exactly when every component of
    the system is registered with a name; when one is not, a null pointer
    is inserted into the stream.  It never stops on an assertion. *)
Theorem action_signature_needs_names (reg : statics)
    (Components : list cpp_type) (m_signature : option string) :
  ((exists sig, action_signature reg Components m_signature = Ok sig) <->
   Forall (fun c => s_name (reg c) <> None) Components) /\
  (action_signature reg Components m_signature = Undefined <->
   Exists (fun c => s_name (reg c) = None) Components).
Proof.
  unfold action_signature.
  destruct (action_ids_defined (map (fun c => s_name (reg c)) Components)
              (map inout_modifier Components) 0 "") as [Hiff Hab].
  rewrite Forall_map in Hiff.
  assert (Hex : Exists (fun c => s_name (reg c) = None) Components <->
                ~ Forall (fun c => s_name (reg c) <> None) Components).
  { rewrite <- Exists_Forall_neg.
    - split; apply Exists_impl; intros c H.
      + congruence.
      + destruct (s_name (reg c)); [now elim H | reflexivity].
    - intros c. destruct (s_name (reg c)); [left; discriminate | right].
      congruence. }
  rewrite Hex, <- Hiff.
  destruct (action_ids (map (fun c => s_name (reg c)) Components)
              (map inout_modifier Components) 0 "") as [[i str]| e |] eqn:E;
    cbn [bind].
  - split.
    + split; [intros _; eexists; reflexivity|].
      intros _. destruct m_signature; eexists; reflexivity.
    + split.
      * destruct m_signature; discriminate.
      * intros H. elim H. eexists; reflexivity.
  - now elim (Hab e).
  - split.
    + split; intros [r H]; discriminate.
    + split; [|reflexivity]. intros _ [r H]. discriminate.
Qed.

End SignatureFacts.

(** * A column without bytes *)

Section EmptyColumnFacts.
Import Stream.

Variable kind_code : ecs_blob_header_kind_t -> Z.
Variable vector_bytes : ecs_vector_t -> list Z.

Local Abbreviation ecs_stream_read := (ecs_stream_read kind_code vector_bytes).

(** A call of [ecs_stream_read] that starts at the data of a column of
    byte size 0, such as the column of a component without members or of a
    table without rows, returns 0 and leaves the buffer as it is, as a call
    at the end of the stream does; yet the stream has moved on to the next
    column, or to the next table header after the last column, and it is
    in the footer segment exactly when that was the last column of the last
    table. *)
Theorem empty_column_reads_nothing (fuel : nat) (buffer : list Z) (size : Z)
    (s : ecs_stream_t) :
  let r := table_reader (reader s) in
  cur (reader s) = EcsTableSegment ->
  t_cur r = EcsTableColumnData ->
  column_size r = 0 -> column_written r = 0 ->
  4 <= size -> (1 <= fuel)%nat ->
  (forall s0, cur (reader s0) = EcsFooterSegment ->
     ecs_stream_read fuel buffer size s0 = Some (Ok (0, buffer, s0))) /\
  exists s',
    ecs_stream_read fuel buffer size s = Some (Ok (0, buffer, s')) /\
    let r' := table_reader (reader s') in
    column_index r' = column_index r + 1 /\
    t_cur r' = (if column_index r + 1 =? total_columns r
                then EcsTableHeader else EcsTableColumnHeader) /\
    cur (reader s') =
      (if (column_index r + 1 =? total_columns r)
          && (table_index r =? Z.of_nat (List.length (tables (reader s))))
       then EcsFooterSegment else EcsTableSegment) /\
    source s' = source s.
Proof.
  intros r Hcur Ht Hsize Hwritten Hfour Hfuel.
  assert (E0 : (size =? 0) = false) by (apply Z.eqb_neq; lia).
  assert (E4 : (sizeof_int32 <=? size) = true)
    by (apply Z.leb_le; unfold sizeof_int32; lia).
  split.
  { intros s0 H0. unfold Stream.ecs_stream_read, Stream.table_part.
    rewrite E0, E4. cbn [negb st]. rewrite H0. reflexivity. }
  destruct fuel as [|fuel]; [lia|].
  destruct s as [w [cu tabs c tr]]. cbn in r, Hcur. subst cu r.
  cbn [table_reader reader] in Ht, Hsize, Hwritten.
  unfold Stream.ecs_stream_read.
  assert (E4' : (size <? sizeof_int32) = false)
    by (apply Z.ltb_ge; unfold sizeof_int32; lia).
  rewrite E0, E4. cbn [negb reader cur].
  change (kind_eqb EcsTableSegment EcsComponentSegment) with false.
  cbv iota. unfold Stream.table_part. cbn [st reader cur].
  change (kind_eqb EcsTableSegment EcsTableSegment) with true. cbv iota.
  cbn [Stream.table_loop buf total_read remaining st].
  unfold Stream.ecs_table_reader. rewrite E0, E4'.
  cbn [reader table_reader]. rewrite Ht.
  change (kind_eqb EcsTableColumnData EcsKindZero) with false. cbv iota.
  cbn [reader table_reader]. rewrite Ht, Hsize, Hwritten.
  assert (Elt : (size <? 0 - 0) = false) by (apply Z.ltb_ge; lia).
  rewrite Elt.
  rewrite (read_bytes_at (column_data tr) 0 (0 - 0)) by lia.
  change (Z.to_nat (0 - 0)) with 0%nat. cbn [firstn bind].
  rewrite (write_bytes_at buffer [] 0) by (cbn [List.length]; lia).
  cbn [bind Z.to_nat firstn List.length Nat.add skipn app].
  cbn [with_table_reader reader table_reader column_written column_size
       world cur tables component ecs_assert bind Z.add Z.leb Z.compare
       Z.eqb Z.sub Z.opp].
  unfold Stream.ecs_table_reader_next.
  cbn [with_table_reader reader table_reader t_cur column_index
       total_columns table_index tables world cur component].
  destruct (column_index tr + 1 =? total_columns tr);
    [destruct (table_index tr =? Z.of_nat (List.length tabs))|];
    cbn [bind with_cur reader world cur tables component table_reader
         Z.eqb andb];
    eexists; (split; [reflexivity|]); repeat split.
Qed.

End EmptyColumnFacts.

(** The first of two columns of a table has no bytes: the call returns 0
    and the reader stands at the header of the second column. *)
Lemma empty_column_reads_nothing_witness :
  let s :=
    {| Stream.world := StreamInputs.world1;
       Stream.reader :=
         {| Stream.cur := Stream.EcsTableSegment;
            Stream.tables := [StreamInputs.component_table];
            Stream.component := Stream.component_reader_zero;
            Stream.table_reader :=
              {| Stream.t_cur := Stream.EcsTableColumnData;
                 Stream.table_index := 1;
                 Stream.table := Some StreamInputs.component_table;
                 Stream.t_columns :=
                   Stream.columns StreamInputs.component_table;
                 Stream.t_type := [1; 2; 6];
                 Stream.type_index := 3; Stream.total_columns := 4;
                 Stream.column_index := 0; Stream.column := None;
                 Stream.column_size := 0; Stream.column_data := [];
                 Stream.column_written := 0 |} |} |} in
  exists s',
    Stream.ecs_stream_read StreamInputs.kind_code StreamInputs.vector_bytes 4
      (StreamInputs.fresh_buffer 8) 8 s
      = Some (Ok (0, StreamInputs.fresh_buffer 8, s')) /\
    Stream.t_cur (Stream.table_reader (Stream.reader s'))
      = Stream.EcsTableColumnHeader /\
    Stream.cur (Stream.reader s') = Stream.EcsTableSegment.
Proof.
  intros s.
  destruct (empty_column_reads_nothing StreamInputs.kind_code
              StreamInputs.vector_bytes 4 (StreamInputs.fresh_buffer 8) 8 s
              eq_refl eq_refl eq_refl eq_refl ltac:(lia) ltac:(lia))
    as (_ & s' & Hread & _ & Ht & Hcur & _).
  exists s'. split; [exact Hread|]. split; [exact Ht | exact Hcur].
Defined.
